(** * HST birthday image downloader: the two batch stages, embedded and verified

    Stage 1 is [src/download.js] (date key, retrying downloader, per-record
    processing, batch loop); stage 2 is the enrichment script (per-folder
    processing).  Every definition below follows the JavaScript source; the
    line numbers in the comments are those of the source files.

    What is outside the program is an explicit parameter:
    - the browser and the network answer through an [Env] of oracles, indexed
      by the number of interactions made so far, so that the same URL may
      answer differently each time it is asked;
    - the disk is a finite map from directories to their entries; a write
      either stores the whole buffer or raises, and a write that raises
      leaves the destination as it was or holding what the oracle [torn]
      says it had written so far;
    - console output is not modelled. *)

From Stdlib Require Import String Ascii ZArith List.
From Stdlib Require Import Decimal DecimalString DecimalNat.
From stdpp Require Import gmap strings list fin_maps.

Open Scope string_scope.

(** ** JavaScript strings

    Strings are byte strings; the functions below agree with their JavaScript
    namesakes on ASCII text, which is all the program builds itself. *)

Module JsString.

(** [s.split(sep)] for a one-character separator: every separator ends a
    piece, empty pieces are kept, and the result is never empty. *)
Fixpoint split (sep : ascii) (s : string) : list string :=
  match s with
  | EmptyString => [""]
  | String c rest =>
      if Ascii.eqb c sep then "" :: split sep rest
      else match split sep rest with
           | w :: ws => String c w :: ws
           | [] => [String c ""]
           end
  end.

(** [ws.join(sep)], the inverse of [split] on separator-free pieces. *)
Fixpoint join (sep : ascii) (ws : list string) : string :=
  match ws with
  | [] => ""
  | [w] => w
  | w :: rest => w ++ String sep (join sep rest)
  end.

(** [k] characters taken from [filler], repeated as often as needed. *)
Fixpoint cycle (k : nat) (filler rest : string) : string :=
  match k with
  | 0 => ""
  | S k' =>
      match rest with
      | String c r => String c (cycle k' filler r)
      | EmptyString =>
          match filler with
          | String c r => String c (cycle k' filler r)
          | EmptyString => ""
          end
      end
  end.

(** [s.padStart(n, filler)] *)
Definition padStart (n : nat) (filler s : string) : string :=
  cycle (n - String.length s) filler filler ++ s.

(** [s.endsWith(suffix)] *)
Definition endsWith (s suffix : string) : bool :=
  (String.length suffix <=? String.length s)%nat &&
  String.eqb (substring (String.length s - String.length suffix)
                        (String.length suffix) s) suffix.

(** [String(n)] for a non-negative integer. *)
Definition ofNat (n : nat) : string := NilZero.string_of_uint (Nat.to_uint n).

Definition is_digit (c : ascii) : bool :=
  let k := nat_of_ascii c in (48 <=? k)%nat && (k <=? 57)%nat.

Definition is_space (c : ascii) : bool :=
  let k := nat_of_ascii c in
  (k =? 32)%nat || ((9 <=? k)%nat && (k <=? 13)%nat).

(** The value of [c] as a digit in the given radix, if it is one. *)
Definition digit_value (radix : Z) (c : ascii) : option Z :=
  let k := Z.of_nat (nat_of_ascii c) in
  let v := if (48 <=? k)%Z && (k <=? 57)%Z then Some (k - 48)%Z
           else if (97 <=? k)%Z && (k <=? 122)%Z then Some (k - 87)%Z
           else if (65 <=? k)%Z && (k <=? 90)%Z then Some (k - 55)%Z
           else None in
  match v with
  | Some d => if (d <? radix)%Z then Some d else None
  | None => None
  end.

(** Longest prefix of digits, read left to right; [None] when there is no
    digit at all. *)
Fixpoint read_digits (radix : Z) (acc : option Z) (s : string) : option Z :=
  match s with
  | EmptyString => acc
  | String c rest =>
      match digit_value radix c with
      | Some d => read_digits radix (Some (default 0%Z acc * radix + d)%Z) rest
      | None => acc
      end
  end.

Fixpoint skip_spaces (s : string) : string :=
  match s with
  | String c rest => if is_space c then skip_spaces rest else s
  | EmptyString => s
  end.

Definition strip_sign (s : string) : Z * string :=
  match s with
  | String c r =>
      if Ascii.eqb c "-" then ((-1)%Z, r)
      else if Ascii.eqb c "+" then (1%Z, r)
      else (1%Z, s)
  | EmptyString => (1%Z, s)
  end.

Definition strip_radix (s : string) : Z * string :=
  match s with
  | String c (String d r) =>
      if Ascii.eqb c "0" && (Ascii.eqb d "x" || Ascii.eqb d "X")
      then (16%Z, r) else (10%Z, s)
  | _ => (10%Z, s)
  end.

(** [parseInt(s)] with no radix argument: leading white space, an optional
    sign, an optional [0x] prefix, then the longest run of digits.  [None] is
    NaN.  (Numerals beyond 2^53 are rounded by the engine; they are exact
    here, which no comparison in the program can tell apart.) *)
Definition parseInt (s : string) : option Z :=
  let '(sign, s) := strip_sign (skip_spaces s) in
  let '(radix, s) := strip_radix s in
  match read_digits radix None s with
  | Some v => Some (sign * v)%Z
  | None => None
  end.

(** The number a string of decimal digits denotes. *)
Definition decimal_value (s : string) : Z :=
  fold_left (fun acc c => (acc * 10 + (Z.of_nat (nat_of_ascii c) - 48))%Z)
            (list_ascii_of_string s) 0%Z.

Definition all_digits (s : string) : bool :=
  forallb is_digit (list_ascii_of_string s).

Definition no_char (c : ascii) (s : string) : bool :=
  forallb (fun d => negb (Ascii.eqb d c)) (list_ascii_of_string s).

End JsString.

Import JsString.

(** ** Results of a call *)

Inductive Outcome (A : Type) : Type :=
| Returned (a : A)
| Threw (msg : string).
Arguments Returned {A} a.
Arguments Threw {A} msg.

(** ** The date key (download.js, lines 12-25) *)

Definition MONTHS : list (string * string) :=
  [ ("January", "01"); ("February", "02"); ("March", "03"); ("April", "04");
    ("May", "05"); ("June", "06"); ("July", "07"); ("August", "08");
    ("September", "09"); ("October", "10"); ("November", "11");
    ("December", "12") ].

(** [MONTHS[name]]: [None] is [undefined].  (A word that names a member of
    [Object.prototype] reaches that member instead; the text the engine prints
    for it is not modelled and is treated like any other unknown word.) *)
Fixpoint MONTHS_get (table : list (string * string)) (name : string)
  : option string :=
  match table with
  | [] => None
  | (k, v) :: rest => if String.eqb k name then Some v else MONTHS_get rest name
  end.

(** A value spliced into a template literal. *)
Definition template (v : option string) : string := default "undefined" v.

Definition parseDateToFolder (dateStr : string) : Outcome string :=
  let parts := split " " dateStr in
  let month := MONTHS_get MONTHS (nth 0 parts "") in
  match nth_error parts 1 with
  | None =>
      Threw "Cannot read properties of undefined (reading 'padStart')"
  | Some p1 =>
      let day := padStart 2 "0" p1 in
      Returned (template month ++ "-" ++ day)
  end.

(** ** The disk, the browser and the network *)

(** A JSON document as [JSON.parse] returns it.  Number leaves are kept as
    integers: the program only ever tests a number for being zero. *)
#[warnings="-register-all"]
Inductive Json : Type :=
| JNull
| JBool (b : bool)
| JNumber (n : Z)
| JString (s : string)
| JArray (items : list Json)
| JObject (props : list (string * Json)).

(** What a file holds: [JsonDoc v] is a text file that [JSON.parse] reads as
    [v] (and [JSON.stringify v] writes); [Binary] is any other content, on
    which [JSON.parse] raises. *)
Inductive FileData : Type :=
| Binary (bytes : list Byte.byte)
| JsonDoc (v : Json).

(** A file path is its directory and the entry name inside it; the directory
    is the key of the disk map.  [path.join] also normalises the text
    ([./dumps/01-01] prints as [dumps/01-01]); both name the same place. *)
Record Path : Type := { dirname : string; basename : string }.

Definition path_join (dir name : string) : string := dir ++ "/" ++ name.
Definition file_in (dir name : string) : Path :=
  {| dirname := dir; basename := name |}.

Inductive AssetType : Type := pdf | jpg.

Record AssetDescriptor : Type := {
  url : string;
  type : AssetType;
  size : option string;
  resolution : option string
}.

(** The object [extractMetadata] returns (download.js, lines 168-173). *)
Record PageData : Type := {
  pageTitle : option string;
  pageDescription : option string;
  fields : list (string * string);
  downloads : list AssetDescriptor
}.

(** The object [extractVideoContent] returns (stage 2, lines 55-63). *)
Record VideoContent : Type := {
  title : option string;
  fullDescription : string;
  descriptionParagraphs : list string;
  relatedTerms : list string;
  scienceRelease : option string;
  colorInfo : option string;
  mainImageUrl : option string
}.

(** A rendered document, seen through the three [page.evaluate] calls the
    program makes and through [page.url()]. *)
Record Document : Type := {
  doc_url : string;
  doc_metadata : Outcome PageData;
  doc_assetLink : Outcome (option string);
  doc_video : Outcome VideoContent
}.

Inductive BodyOutcome : Type :=
| BodyBytes (bytes : list Byte.byte)
| BodyRejects (msg : string).

Inductive FetchOutcome : Type :=
| FetchRejects (msg : string)
| Response (ok : bool) (status : nat) (body : BodyOutcome).

(** What the outside answers.  The first argument of each oracle is the
    [tick] of the world at the moment of the call: [page.goto] either raises
    or lands on a document; [fetch] answers as above; a disk fault makes the
    next [fs.mkdir] or [fs.writeFile] raise with the given message; the
    clock gives the current time as ISO text.

    [fs.writeFile] opens its destination for writing, which creates or
    empties it, and then writes: a write that is refused after the opening
    leaves a file behind.  [torn] says what a refused write leaves at the
    destination: [None] when it was refused before the file was opened, the
    destination being as it was, and [Some content] when the destination now
    holds [content] -- nothing yet, or a part of the data.  Which content is
    left open, so that every such leftover is covered. *)
Record Env : Type := {
  goto_outcome : nat -> string -> Outcome Document;
  fetch_outcome : nat -> string -> FetchOutcome;
  disk_fault : nat -> option string;
  torn : nat -> option FileData;
  clock : nat -> string
}.

(** The disk, the page of the one browser tab, and the number of
    interactions made so far. *)
Record World : Type := {
  fs : gmap string (gmap string FileData);
  page : Document;
  tick : nat
}.

(** The calls that reach outside, in the order they are made. *)
Inductive Event : Type :=
| EvGoto (target : string)
| EvDelay (ms : nat)
| EvFetch (source : string)
| EvMkdir (dir : string)
| EvWriteFile (dest : Path).

(** ** Effectful code: state, exceptions and the events emitted *)

Definition M (A : Type) : Type := World -> Outcome A * World * list Event.

Definition ret {A} (a : A) : M A := fun w => (Returned a, w, []).
Definition throw {A} (msg : string) : M A := fun w => (Threw msg, w, []).

Definition bind {A B} (m : M A) (k : A -> M B) : M B := fun w =>
  match m w with
  | (Returned a, w1, evs1) =>
      match k a w1 with
      | (r, w2, evs2) => (r, w2, (evs1 ++ evs2)%list)
      end
  | (Threw msg, w1, evs1) => (Threw msg, w1, evs1)
  end.

(** [try { m } catch (error) { handler(error.message) }] *)
Definition try_catch {A} (m : M A) (handler : string -> M A) : M A := fun w =>
  match m w with
  | (Returned a, w1, evs1) => (Returned a, w1, evs1)
  | (Threw msg, w1, evs1) =>
      match handler msg w1 with
      | (r, w2, evs2) => (r, w2, (evs1 ++ evs2)%list)
      end
  end.

(** The outcome of [m] as a value: the body of a [try] whose [catch] goes on
    with the loop. *)
Definition settle {A} (m : M A) : M (Outcome A) := fun w =>
  match m w with
  | (r, w1, evs1) => (Returned r, w1, evs1)
  end.

#[global] Instance M_ret : MRet M := @ret.
#[global] Instance M_bind : MBind M := fun A B k m => bind m k.

Definition emit (e : Event) : M unit := fun w =>
  (Returned tt, {| fs := fs w; page := page w; tick := S (tick w) |}, [e]).

(** ** Primitives *)

Definition delay (ms : nat) : M unit := emit (EvDelay ms).

(** [page.goto(url, ...)]: on success the page holds the document reached. *)
Definition goto (env : Env) (target : string) : M unit := fun w =>
  let w1 := {| fs := fs w; page := page w; tick := S (tick w) |} in
  match goto_outcome env (tick w) target with
  | Returned doc =>
      (Returned tt, {| fs := fs w; page := doc; tick := S (tick w) |},
       [EvGoto target])
  | Threw msg => (Threw msg, w1, [EvGoto target])
  end.

Definition page_url : M string := fun w => (Returned (doc_url (page w)), w, []).

Definition evaluate {A} (f : Document -> Outcome A) : M A := fun w =>
  (f (page w), w, []).

(** [new Date().toISOString()] *)
Definition now (env : Env) : M string := fun w =>
  (Returned (clock env (tick w)), w, []).

(** [fs.access(p)] *)
Definition access (p : Path) : M unit := fun w =>
  match fs w !! dirname p with
  | Some entries =>
      match entries !! basename p with
      | Some _ => (Returned tt, w, [])
      | None => (Threw "ENOENT: no such file or directory", w, [])
      end
  | None => (Threw "ENOENT: no such file or directory", w, [])
  end.

(** [fs.readdir(dir)] *)
Definition readdir (dir : string) : M (list string) := fun w =>
  match fs w !! dir with
  | Some entries => (Returned (map fst (map_to_list entries)), w, [])
  | None => (Threw "ENOENT: no such file or directory", w, [])
  end.

(** [JSON.parse(await fs.readFile(p, 'utf-8'))] *)
Definition readJson (p : Path) : M Json := fun w =>
  match fs w !! dirname p with
  | Some entries =>
      match entries !! basename p with
      | Some (JsonDoc v) => (Returned v, w, [])
      | Some (Binary _) => (Threw "Unexpected token in JSON", w, [])
      | None => (Threw "ENOENT: no such file or directory", w, [])
      end
  | None => (Threw "ENOENT: no such file or directory", w, [])
  end.

(** [fs.mkdir(dir, { recursive: true })] *)
Definition mkdir (env : Env) (dir : string) : M unit := fun w =>
  let t := S (tick w) in
  match disk_fault env (tick w) with
  | Some msg => (Threw msg, {| fs := fs w; page := page w; tick := t |},
                 [EvMkdir dir])
  | None =>
      let disk := match fs w !! dir with
                  | Some _ => fs w
                  | None => <[dir := ∅]> (fs w)
                  end in
      (Returned tt, {| fs := disk; page := page w; tick := t |}, [EvMkdir dir])
  end.

(** [fs.writeFile(p, data)].  In a directory that does not exist nothing can
    be opened.  Otherwise the write stores [data], or it is refused and
    leaves the destination as [torn] says: the program never removes what a
    refused write left. *)
Definition writeFile (env : Env) (p : Path) (data : FileData) : M unit :=
  fun w =>
  let t := S (tick w) in
  let unchanged := {| fs := fs w; page := page w; tick := t |} in
  let holding (content : FileData) (entries : gmap string FileData) :=
    {| fs := <[dirname p := <[basename p := content]> entries]> (fs w);
       page := page w; tick := t |} in
  match disk_fault env (tick w) with
  | Some msg =>
      match torn env (tick w), fs w !! dirname p with
      | Some leftover, Some entries =>
          (Threw msg, holding leftover entries, [EvWriteFile p])
      | _, _ => (Threw msg, unchanged, [EvWriteFile p])
      end
  | None =>
      match fs w !! dirname p with
      | Some entries => (Returned tt, holding data entries, [EvWriteFile p])
      | None =>
          (Threw "ENOENT: no such file or directory", unchanged,
           [EvWriteFile p])
      end
  end.

(** [fetch(url)], the status check and [response.arrayBuffer()]
    (download.js, lines 53-57). *)
Definition fetchBuffer (env : Env) (source : string) : M (list Byte.byte) :=
  fun w =>
  let w1 := {| fs := fs w; page := page w; tick := S (tick w) |} in
  match fetch_outcome env (tick w) source with
  | FetchRejects msg => (Threw msg, w1, [EvFetch source])
  | Response ok status body =>
      if negb ok then (Threw ("HTTP " ++ ofNat status), w1, [EvFetch source])
      else match body with
           | BodyBytes bytes => (Returned bytes, w1, [EvFetch source])
           | BodyRejects msg => (Threw msg, w1, [EvFetch source])
           end
  end.

(** ** Stage 1: download.js *)

Definition DUMPS_DIR : string := "./dumps".
Definition DELAY_MS : nat := 800.
Definition MAX_RETRIES : nat := 3.

(** Lines 52-61: the body of the [try] of one attempt. *)
Definition downloadAttempt (env : Env) (source : string) (destPath : Path)
  : M unit :=
  buffer ← fetchBuffer env source;
  writeFile env destPath (Binary buffer).

(** Lines 48-71.  [left] counts the iterations the [for] loop still has:
    it starts at [retries] with [attempt = 1], so [attempt <= retries] holds
    exactly while [left] is positive. *)
Fixpoint downloadFile_loop (env : Env) (source : string) (destPath : Path)
    (retries attempt left : nat) : M bool :=
  match left with
  | 0 => ret false
  | S left' =>
      r ← settle (downloadAttempt env source destPath);
      match r with
      | Returned _ => ret true
      | Threw _ =>
          if (attempt =? retries)%nat then ret false
          else delay (500 * attempt);;
               downloadFile_loop env source destPath retries (S attempt) left'
      end
  end.

Definition downloadFile (env : Env) (source : string) (destPath : Path)
    (retries : nat) : M bool :=
  downloadFile_loop env source destPath retries 1 retries.

Record InputRecord : Type := {
  Date : string;
  URL : string;
  Name : string;
  Caption : string;
  Year : string;
  Image : string
}.

(** What [processRow] and [processFolder] resolve to:
    [{ success: true, skipped: true }], [{ success: true, skipped: false }]
    or [{ success: false, error }]. *)
Inductive RowResult : Type :=
| Skipped
| Processed
| Failed (error : string).

Definition success (r : RowResult) : bool :=
  match r with Failed _ => false | _ => true end.

(** [result.skipped] as a condition; it is [undefined] on a failure. *)
Definition skipped (r : RowResult) : bool :=
  match r with Skipped => true | _ => false end.

(** Lines 253-269: the destination name of one asset. *)
Definition asset_filename (download : AssetDescriptor) (downloadedCount : nat)
  : string :=
  match type download with
  | pdf => "image.pdf"
  | jpg =>
      match resolution download with
      | Some (String c r) =>
          let width := nth 0 (split "x" (String c r)) "" in
          let at_least (bound : Z) :=
            match parseInt width with
            | Some n => (bound <=? n)%Z
            | None => false
            end in
          if at_least 2000%Z then "full.jpg"
          else if at_least 800%Z then "thumb_1000.jpg"
          else if at_least 300%Z then "thumb_400.jpg"
          else "thumb_200.jpg"
      | _ => "image_" ++ ofNat downloadedCount ++ ".jpg"
      end
  end.

(** Lines 251-274.  Besides [downloadedCount] the model returns, for every
    asset in turn, the name it was given and what [downloadFile] answered. *)
Fixpoint downloadAssets (env : Env) (folderPath : string)
    (pending : list AssetDescriptor) (downloadedCount : nat)
  : M (nat * list (string * bool)) :=
  match pending with
  | [] => ret (downloadedCount, [])
  | download :: rest =>
      let filename := asset_filename download downloadedCount in
      let destPath := file_in folderPath filename in
      ok ← downloadFile env (url download) destPath MAX_RETRIES;
      '(total, log) ← downloadAssets env folderPath rest
                        (if ok : bool then S downloadedCount
                         else downloadedCount);
      ret (total, (filename, ok) :: log)
  end.

(** Property assignment on an object: an existing key keeps its place. *)
Fixpoint assign (props : list (string * Json)) (key : string) (v : Json)
  : list (string * Json) :=
  match props with
  | [] => [(key, v)]
  | (k, old) :: rest =>
      if String.eqb k key then (k, v) :: rest
      else (k, old) :: assign rest key v
  end.

Definition assign_all (props extra : list (string * Json))
  : list (string * Json) :=
  fold_left (fun acc kv => assign acc (fst kv) (snd kv)) extra props.

(** Properties whose value is [undefined] are absent from the document. *)
Definition defined (entries : list (string * option Json))
  : list (string * Json) :=
  omap (fun kv => match snd kv with
                  | Some v => Some (fst kv, v)
                  | None => None
                  end) entries.

Definition nullable (v : option string) : Json :=
  match v with Some s => JString s | None => JNull end.

Definition json_of_asset (d : AssetDescriptor) : Json :=
  JObject [ ("url", JString (url d));
            ("type", JString (match type d with pdf => "pdf" | jpg => "jpg" end));
            ("size", nullable (size d));
            ("resolution", nullable (resolution d)) ].

Definition props_of_pageData (pd : PageData) : list (string * Json) :=
  assign_all
    (defined [ ("pageTitle", JString <$> pageTitle pd);
               ("pageDescription", JString <$> pageDescription pd) ])
    (map (fun kv => (fst kv, JString (snd kv))) (fields pd) ++
     [ ("downloads", JArray (map json_of_asset (downloads pd))) ])%list.

(** Lines 235-246 *)
Definition build_metadata (row : InputRecord) (folder finalUrl : string)
    (pageData : PageData) (downloadedAt : string) : Json :=
  JObject
    (assign_all
       [ ("date", JString (Date row));
         ("folder", JString folder);
         ("originalUrl", JString (URL row));
         ("finalUrl", JString finalUrl);
         ("csvName", JString (Name row));
         ("csvCaption", JString (Caption row));
         ("csvYear", JString (Year row));
         ("csvImage", JString (Image row)) ]
       (props_of_pageData pageData ++
        [ ("downloadedAt", JString downloadedAt) ])%list).

Definition is_asset_name (f : string) : bool :=
  endsWith f ".jpg" || endsWith f ".pdf".

(** Lines 186-200: the resume check.  Whatever is raised inside is swallowed
    and the record is processed. *)
Definition alreadyProcessed (folderPath : string) : M bool :=
  try_catch
    (access (file_in folderPath "metadata.json");;
     files ← readdir folderPath;
     let hasImages := existsb is_asset_name files in
     ret hasImages)
    (fun _ => ret false).

(** Lines 203-229: navigation and extraction, with the one-step fallback
    through the asset link when the page lists no download. *)
Definition navigateAndExtract (env : Env) (row : InputRecord)
  : M (string * PageData) :=
  goto env (URL row);;
  delay 500;;
  finalUrl ← page_url;
  pageData ← evaluate doc_metadata;
  pageData ←
    (if (length (downloads pageData) =? 0)%nat then
       downloadImageLink ← evaluate doc_assetLink;
       match downloadImageLink with
       | Some link =>
           goto env link;;
           delay 500;;
           evaluate doc_metadata
       | None => ret pageData
       end
     else ret pageData);
  ret (finalUrl, pageData).

(** Lines 234-282: the metadata object, the downloads, the metadata file. *)
Definition downloadAndPersist (env : Env) (row : InputRecord)
    (folder folderPath finalUrl : string) (pageData : PageData)
  : M RowResult :=
  downloadedAt ← now env;
  let metadata := build_metadata row folder finalUrl pageData downloadedAt in
  downloadAssets env folderPath (downloads pageData) 0;;
  writeFile env (file_in folderPath "metadata.json") (JsonDoc metadata);;
  ret Processed.

(** Lines 202-282: the body of the [try]. *)
Definition processRow_try (env : Env) (row : InputRecord)
    (folder folderPath : string) : M RowResult :=
  '(finalUrl, pageData) ← navigateAndExtract env row;
  mkdir env folderPath;;
  downloadAndPersist env row folder folderPath finalUrl pageData.

(** Lines 178-287.  The date key is computed before any [try]: what it raises
    leaves [processRow] as an exception.  ([index] and [total] only feed the
    progress line and are left out.) *)
Definition processRow (env : Env) (row : InputRecord) : M RowResult :=
  match parseDateToFolder (Date row) with
  | Threw msg => throw msg
  | Returned folder =>
      let folderPath := path_join DUMPS_DIR folder in
      done ← alreadyProcessed folderPath;
      if done : bool then ret Skipped
      else try_catch (processRow_try env row folder folderPath)
                     (fun msg => ret (Failed msg))
  end.

Record Stats : Type := {
  processed : nat;
  skipped_count : nat;
  failed : nat
}.

Definition count_result (stats : Stats) (result : RowResult) : Stats :=
  if success result then
    if skipped result then
      {| processed := processed stats;
         skipped_count := S (skipped_count stats);
         failed := failed stats |}
    else
      {| processed := S (processed stats);
         skipped_count := skipped_count stats;
         failed := failed stats |}
  else
    {| processed := processed stats;
       skipped_count := skipped_count stats;
       failed := S (failed stats) |}.

(** Lines 314-331: the batch loop, from record [i] on. *)
Fixpoint main_loop (env : Env) (records : list InputRecord) (stats : Stats)
  : M Stats :=
  match records with
  | [] => ret stats
  | row :: rest =>
      result ← processRow env row;
      let stats := count_result stats result in
      (if negb (skipped result) && negb (length rest =? 0)%nat
       then delay DELAY_MS else ret tt);;
      main_loop env rest stats
  end.

(** The loop as [main] starts it (line 311).  Reading the CSV, creating the
    root directory and launching and closing the browser surround it. *)
Definition stage1 (env : Env) (records : list InputRecord) : M Stats :=
  main_loop env records {| processed := 0; skipped_count := 0; failed := 0 |}.

(** ** Stage 2: the enrichment script *)

Module Enrich.

Definition DELAY_MS : nat := 500.

Fixpoint lookup_prop (props : list (string * Json)) (key : string)
  : option Json :=
  match props with
  | [] => None
  | (k, v) :: rest => if String.eqb k key then Some v else lookup_prop rest key
  end.

(** [v.key] for the property names the script reads, none of which is a
    member of a built-in prototype: [None] is [undefined]; reading a property
    of [null] raises a TypeError. *)
Definition get (v : Json) (key : string) : Outcome (option Json) :=
  match v with
  | JNull =>
      Threw ("Cannot read properties of null (reading '" ++ key ++ "')")
  | JObject props => Returned (lookup_prop props key)
  | _ => Returned None
  end.

(** The same read where [v] is already known not to be [null]. *)
Definition prop (v : Json) (key : string) : option Json :=
  match v with
  | JObject props => lookup_prop props key
  | _ => None
  end.

Definition truthy (v : option Json) : bool :=
  match v with
  | None | Some JNull => false
  | Some (JBool b) => b
  | Some (JNumber n) => negb (n =? 0)%Z
  | Some (JString s) => negb (String.eqb s "")
  | Some (JArray _) | Some (JObject _) => true
  end.

(** [a || b] *)
Definition js_or (a b : option Json) : option Json :=
  if truthy a then a else b.

(** [path.basename(p)] for a path without a trailing separator. *)
Definition path_basename (p : string) : string := List.last (split "/" p) "".

(** Lines 114-167 *)
Definition build_enriched (metadata : Json) (folderName : string)
    (videoContent : VideoContent) (enrichedAt : string) : Json :=
  JObject (defined
    [ ("date", prop metadata "date");
      ("folder", Some (JString folderName));
      ("title", js_or (js_or (JString <$> title videoContent)
                             (prop metadata "pageTitle"))
                      (prop metadata "csvName"));
      ("shortCaption", prop metadata "csvCaption");
      ("fullDescription", Some (JString (fullDescription videoContent)));
      ("paragraphs",
       Some (JArray (map JString (descriptionParagraphs videoContent))));
      ("quickFacts", Some (JObject (defined
         [ ("objectName", prop metadata "objectName");
           ("objectType", prop metadata "objectDescription");
           ("constellation", prop metadata "constellation");
           ("distance", prop metadata "distance");
           ("instrument", prop metadata "instrument");
           ("releaseDate", prop metadata "releaseDate");
           ("yearCaptured", prop metadata "csvYear") ])));
      ("tags", Some (JArray (map JString (relatedTerms videoContent))));
      ("scienceRelease", Some (nullable (scienceRelease videoContent)));
      ("technical", Some (JObject (defined
         [ ("filters", prop metadata "filters");
           ("exposureDates", prop metadata "exposureDates");
           ("colorInfo", Some (nullable (colorInfo videoContent))) ])));
      ("credit", prop metadata "credit");
      ("images", Some (JObject (defined
         [ ("fullResolution", Some (JString "full.jpg"));
           ("thumbnail", Some (JString "thumb_1000.jpg"));
           ("webUrl", JString <$> mainImageUrl videoContent) ])));
      ("urls", Some (JObject (defined
         [ ("original", prop metadata "originalUrl");
           ("final", prop metadata "finalUrl") ])));
      ("enrichedAt", Some (JString enrichedAt)) ]).

(** Lines 102-175: the body of the [try], entered with a truthy
    [metadata.finalUrl]. *)
Definition processFolder_try (env : Env) (folderPath : string)
    (metadata : Json) : M RowResult :=
  match prop metadata "finalUrl" with
  | Some (JString finalUrl) =>
      goto env finalUrl;;
      delay 300;;
      videoContent ← evaluate doc_video;
      enrichedAt ← now env;
      let enrichedData :=
        build_enriched metadata (path_basename folderPath) videoContent
                       enrichedAt in
      writeFile env (file_in folderPath "video-content.json")
                (JsonDoc enrichedData);;
      match prop enrichedData "title" with
      | Some (JString _) | None => ret Processed
      | Some other =>
          if truthy (Some other)
          then throw "(enrichedData.title || '').substring is not a function"
          else ret Processed
      end
  | _ => throw "metadata.finalUrl.replace is not a function"
  end.

(** Lines 68-180.  The test of [metadata.finalUrl] on line 97 stands outside
    every [try]. *)
Definition processFolder (env : Env) (folderPath : string) : M RowResult :=
  enriched ← try_catch
               (access (file_in folderPath "video-content.json");; ret true)
               (fun _ => ret false);
  if enriched : bool then ret Skipped
  else
    content ← settle (readJson (file_in folderPath "metadata.json"));
    match content with
    | Threw _ => ret (Failed "No metadata")
    | Returned metadata =>
        finalUrl ← (fun w => (get metadata "finalUrl", w, []));
        if negb (truthy finalUrl) then ret (Failed "No finalUrl")
        else try_catch (processFolder_try env folderPath metadata)
                       (fun msg => ret (Failed msg))
    end.

(** Lines 210-223: the batch loop over the folders found. *)
Fixpoint main_loop (env : Env) (folders : list string) (stats : Stats)
  : M Stats :=
  match folders with
  | [] => ret stats
  | folderPath :: rest =>
      result ← processFolder env folderPath;
      let stats := count_result stats result in
      (if negb (skipped result) then delay DELAY_MS else ret tt);;
      main_loop env rest stats
  end.

End Enrich.

(** ** The code that runs inside the page

    The functions handed to [page.evaluate] query the document and then
    compute on the texts they found.  The queries are the browser's; what is
    embedded here is the computation, on the texts the queries returned.
    Texts are taken in UTF-8. *)

Module JsText.

Definition bytes (codes : list nat) : string :=
  string_of_list_ascii (map ascii_of_nat codes).

(** The characters that [trim] removes and [\s] matches: ECMAScript's
    WhiteSpace and LineTerminator. *)
Definition white_space : list string :=
  [ bytes [9]; bytes [10]; bytes [11]; bytes [12]; bytes [13]; bytes [32];
    bytes [194; 160]; bytes [225; 154; 128];
    bytes [226; 128; 128]; bytes [226; 128; 129]; bytes [226; 128; 130];
    bytes [226; 128; 131]; bytes [226; 128; 132]; bytes [226; 128; 133];
    bytes [226; 128; 134]; bytes [226; 128; 135]; bytes [226; 128; 136];
    bytes [226; 128; 137]; bytes [226; 128; 138];
    bytes [226; 128; 168]; bytes [226; 128; 169]; bytes [226; 128; 175];
    bytes [226; 129; 159]; bytes [227; 128; 128]; bytes [239; 187; 191] ].

(** [s] without the prefix [p], if it starts with it. *)
Fixpoint drop_prefix (p s : string) : option string :=
  match p, s with
  | EmptyString, _ => Some s
  | String a p', String b s' =>
      if Ascii.eqb a b then drop_prefix p' s' else None
  | String _ _, EmptyString => None
  end.

(** [s] without the first of [ps] it starts with. *)
Fixpoint drop_any (ps : list string) (s : string) : option string :=
  match ps with
  | [] => None
  | p :: ps' =>
      match drop_prefix p s with
      | Some r => Some r
      | None => drop_any ps' s
      end
  end.

(** Greedy [\s*]: every step removes a character, so [length s] steps are
    enough. *)
Fixpoint skip_fuel (ps : list string) (fuel : nat) (s : string) : string :=
  match fuel with
  | 0 => s
  | S fuel' =>
      match drop_any ps s with
      | Some r => skip_fuel ps fuel' r
      | None => s
      end
  end.

Definition skip_white (s : string) : string :=
  skip_fuel white_space (String.length s) s.

Definition reverse (s : string) : string :=
  string_of_list_ascii (rev (list_ascii_of_string s)).

(** [s.trimStart()], [s.trimEnd()], [s.trim()] *)
Definition trimStart (s : string) : string := skip_white s.

Definition trimEnd (s : string) : string :=
  reverse (skip_fuel (map reverse white_space) (String.length s) (reverse s)).

Definition trim (s : string) : string := trimEnd (trimStart s).

(** [s.toLowerCase()] on a text whose upper-case letters are all among A to
    Z.  Elsewhere JavaScript changes further characters, none of them into
    an ASCII letter other than i and k: the tests [includes] makes below on
    the result come out the same on every text, the comparison of two
    lowered texts only on texts of this kind. *)
Definition lower (c : ascii) : ascii :=
  let k := nat_of_ascii c in
  if (65 <=? k)%nat && (k <=? 90)%nat then ascii_of_nat (k + 32) else c.

Fixpoint toLowerCase (s : string) : string :=
  match s with
  | EmptyString => EmptyString
  | String c r => String (lower c) (toLowerCase r)
  end.

(** [s.includes(pattern)] *)
Fixpoint includes (s pattern : string) : bool :=
  if String.prefix pattern s then true
  else match s with
       | EmptyString => false
       | String _ r => includes r pattern
       end.

(** The longest run of decimal digits at the start of [s], and the rest. *)
Fixpoint digits_prefix (s : string) : string * string :=
  match s with
  | EmptyString => (EmptyString, EmptyString)
  | String c r =>
      if is_digit c
      then let (d, rest) := digits_prefix r in (String c d, rest)
      else (EmptyString, s)
  end.

(** [a.indexOf(v)] on an array of strings; [None] stands for -1. *)
Fixpoint indexOf (a : list string) (v : string) : option nat :=
  match a with
  | [] => None
  | x :: rest =>
      if String.eqb x v then Some 0 else option_map S (indexOf rest v)
  end.

(** [a.filter((v, i) => keep v i)], the elements numbered from [i]. *)
Fixpoint filter_from {A : Type} (keep : A -> nat -> bool) (i : nat)
    (a : list A) : list A :=
  match a with
  | [] => []
  | v :: rest =>
      if keep v i then v :: filter_from keep (S i) rest
      else filter_from keep (S i) rest
  end.

(** [String(n)] for a non-negative integer below 10^21. *)
Definition ofN (n : N) : string := NilZero.string_of_uint (N.to_uint n).

(** [(bytes / divisor).toFixed(digits)] for an integer [bytes] below 2^53
    and a [divisor] that is a power of two.  The quotient is then exact, and
    [toFixed] prints the integer [n] for which [n / 10^digits] is nearest to
    it -- the larger one of two -- with a point before its last [digits]
    digits.  From 2^53 on not every integer is a number, and from 10^21 on
    [toFixed] turns to exponent notation: there the model gives no answer
    ([None]). *)
Definition toFixed_ratio (bytes divisor : N) (digits : nat) : option string :=
  let scale := (10 ^ N.of_nat digits)%N in
  let n := ((2 * bytes * scale + divisor) / (2 * divisor))%N in
  if (bytes <? 2 ^ 53)%N then
    Some match digits with
         | 0 => ofN n
         | _ => ofN (n / scale) ++ "." ++
                padStart digits "0" (ofN (n mod scale))
         end
  else None.

End JsText.

Import JsText.

(** *** Stage 1: the size printed after a download (download.js, lines 40-45) *)

(** [bytes] is the length of a buffer, an integer below 2^53; the text is
    [None] where [toFixed_ratio] gives none. *)
Definition formatBytes (bytes : N) : option string :=
  if (bytes <? 1024)%N then Some (ofN bytes ++ " B")
  else if (bytes <? 1024 * 1024)%N
  then (fun figure => figure ++ " KB") <$> toFixed_ratio bytes 1024 1
  else (fun figure => figure ++ " MB") <$> toFixed_ratio bytes (1024 * 1024) 2.

(** *** Stage 1: the extractor (download.js, lines 74-175) *)

Module Extract.

(** One [li] of the list after the Downloads heading: the [href] of its
    first link, if it has a link, and its text. *)
Record DownloadItem : Type := {
  link_href : option string;
  textContent : string
}.

(** [[^)]*] up to the next [)]. *)
Fixpoint until_close (s : string) : option string :=
  match s with
  | EmptyString => None
  | String c r =>
      if Ascii.eqb c ")" then Some EmptyString
      else option_map (String c) (until_close r)
  end.

(** Line 123: [textContent.match(/\(([^)]+)\)/)], its first group. *)
Fixpoint sizeMatch (s : string) : option string :=
  match s with
  | EmptyString => None
  | String c r =>
      if Ascii.eqb c "(" then
        match until_close r with
        | Some (String d inner) => Some (String d inner)
        | _ => sizeMatch r
        end
      else sizeMatch r
  end.

(** The two characters of the class [[x×]]. *)
Definition times_sign : list string := [ "x"; bytes [195; 151] ].

(** [/(\d+)\s*[x×]\s*(\d+)/] tried at the start of [s]: its two groups.
    White space is neither a digit nor a sign, and the sign is not a digit,
    so the greedy choice is the only one. *)
Definition resMatch_here (s : string) : option (string * string) :=
  match digits_prefix s with
  | (EmptyString, _) => None
  | (width, r1) =>
      match drop_any times_sign (skip_white r1) with
      | Some r2 =>
          match digits_prefix (skip_white r2) with
          | (EmptyString, _) => None
          | (height, _) => Some (width, height)
          end
      | None => None
      end
  end.

(** Line 124: the leftmost match in [s]. *)
Fixpoint resMatch (s : string) : option (string * string) :=
  match resMatch_here s with
  | Some groups => Some groups
  | None =>
      match s with
      | EmptyString => None
      | String _ r => resMatch r
      end
  end.

(** Lines 116-133: the descriptor pushed for an item, if one is. *)
Definition describe (item : DownloadItem) : option AssetDescriptor :=
  match link_href item with
  | Some (String c r) =>
      let isPdf := includes (toLowerCase (textContent item)) "pdf" in
      Some {| url := String c r;
              type := if isPdf then pdf else jpg;
              size := sizeMatch (textContent item);
              resolution :=
                match resMatch (textContent item) with
                | Some (width, height) => Some (width ++ "x" ++ height)
                | None => None
                end |}
  | _ => None
  end.

Definition extract_downloads (items : list DownloadItem)
  : list AssetDescriptor :=
  omap describe items.

(** Lines 148-158: the property a label is stored under. *)
Definition classify (label : string) : option string :=
  if includes label "object name" then Some "objectName"
  else if includes label "object description" then Some "objectDescription"
  else if includes label "release date" then Some "releaseDate"
  else if includes label "r.a. position" then Some "raPosition"
  else if includes label "dec. position" then Some "decPosition"
  else if includes label "constellation" then Some "constellation"
  else if includes label "distance" then Some "distance"
  else if includes label "instrument" then Some "instrument"
  else if includes label "exposure date" then Some "exposureDates"
  else if includes label "filter" then Some "filters"
  else if includes label "credit" then Some "credit"
  else None.

(** Lines 142-147: what an [li] with the given [div] texts contributes. *)
Definition reading (divs : list string) : option (string * string) :=
  if (2 <=? length divs)%nat then
    let label := toLowerCase (trim (nth 0 divs "")) in
    let value := trim (List.last divs "") in
    match label, value with
    | String _ _, String _ _ =>
        if String.eqb label (toLowerCase value) then None
        else option_map (fun name => (name, value)) (classify label)
    | _, _ => None
    end
  else None.

(** [metadata.name = value] on an object of texts. *)
Fixpoint set_field (name value : string) (o : list (string * string))
  : list (string * string) :=
  match o with
  | [] => [(name, value)]
  | (k, v) :: rest =>
      if String.eqb k name then (k, value) :: rest
      else (k, v) :: set_field name value rest
  end.

(** Lines 138-162: the [metadata] object after the loop over the [li]s. *)
Definition extract_fields (listItems : list (list string))
  : list (string * string) :=
  fold_left (fun metadata divs =>
               match reading divs with
               | Some (name, value) => set_field name value metadata
               | None => metadata
               end) listItems [].

(** What the queries of [extractMetadata] found in a document. *)
Record Page : Type := {
  h1 : option string;
  article_p : option string;
  listItems : list (list string);
  downloadItems : list DownloadItem
}.

(** Lines 164-173. *)
Definition extractMetadata (p : Page) : PageData :=
  {| pageTitle := option_map trim (h1 p);
     pageDescription := option_map trim (article_p p);
     fields := extract_fields (listItems p);
     downloads := extract_downloads (downloadItems p) |}.

End Extract.

(** *** Stage 2: the related terms (lines 21-25) *)

Module Content.

Record Anchor : Type := { href : string; anchor_text : string }.

(** Line 25: [.filter((v, i, a) => a.indexOf(v) === i)] *)
Definition unique (a : list string) : list string :=
  filter_from (fun v i => match indexOf a v with
                          | Some j => (j =? i)%nat
                          | None => false
                          end) 0 a.

Definition is_term (a : Anchor) : bool :=
  includes (href a) "/category/" || includes (href a) "/universe/".

Definition related_terms (anchors : list Anchor) : list string :=
  unique (map (fun a => trim (anchor_text a)) (List.filter is_term anchors)).

End Content.

(** * Vocabulary of the statements *)

(** The English month names in calendar order, and the month a number names. *)
Definition month_names : list string :=
  [ "January"; "February"; "March"; "April"; "May"; "June"; "July"; "August";
    "September"; "October"; "November"; "December" ].

Definition month_name (k : nat) : string := nth (k - 1) month_names "".

(** A number below one hundred written with two digits. *)
Definition two_digits (n : nat) : string :=
  if (n <? 10)%nat then "0" ++ ofNat n else ofNat n.

(** The name the width thresholds give an image. *)
Definition name_for_width (width : Z) : string :=
  if (2000 <=? width)%Z then "full.jpg"
  else if (800 <=? width)%Z then "thumb_1000.jpg"
  else if (300 <=? width)%Z then "thumb_400.jpg"
  else "thumb_200.jpg".

(** How many fetches a run of events holds, and the waits in it, in order. *)
Definition fetches (evs : list Event) : nat :=
  length (List.filter
            (fun e => match e with EvFetch _ => true | _ => false end) evs).

Definition delays (evs : list Event) : list nat :=
  omap (fun e => match e with EvDelay ms => Some ms | _ => None end) evs.

(** What the specification calls a complete record folder: it holds
    [metadata.json] and at least one entry whose name ends in [.jpg] or
    [.pdf]. *)
Definition folder_complete (disk : gmap string (gmap string FileData))
    (folderPath : string) : Prop :=
  exists entries,
    disk !! folderPath = Some entries /\
    is_Some (entries !! "metadata.json") /\
    exists f front,
      is_Some (entries !! f) /\ (f = front ++ ".jpg" \/ f = front ++ ".pdf").

(** How many entries of a download log are successes. *)
Definition successes (log : list (string * bool)) : nat :=
  length (List.filter snd log).

(** An image without resolution information: the one kind of asset that is
    given the generic, numbered name. *)
Definition generic_named (d : AssetDescriptor) : Prop :=
  type d = jpg /\ (resolution d = None \/ resolution d = Some "").

(** Completeness as a test, and the records of a batch it holds for. *)
Definition folder_complete_b (disk : gmap string (gmap string FileData))
    (folderPath : string) : bool :=
  match disk !! folderPath with
  | Some entries =>
      match entries !! "metadata.json" with
      | Some _ => existsb is_asset_name (map fst (map_to_list entries))
      | None => false
      end
  | None => false
  end.

Definition row_complete (disk : gmap string (gmap string FileData))
    (row : InputRecord) : bool :=
  match parseDateToFolder (Date row) with
  | Returned folder => folder_complete_b disk (path_join DUMPS_DIR folder)
  | Threw _ => false
  end.

(** The date of the record yields a folder key. *)
Definition has_key (row : InputRecord) : Prop :=
  exists folder, parseDateToFolder (Date row) = Returned folder.

Definition tally (stats : Stats) : nat :=
  processed stats + skipped_count stats + failed stats.

(** The content of the entry [name] of directory [dir], if there is one. *)
Definition file_at (disk : gmap string (gmap string FileData))
    (dir name : string) : option FileData :=
  match disk !! dir with
  | Some entries => entries !! name
  | None => None
  end.

(** ** Relations on runs *)

(** A relation between the world before, the world after and the events
    emitted is kept by a computation when every run satisfies it. *)
Definition keeps (R : World -> World -> list Event -> Prop)
    {A} (m : M A) : Prop :=
  forall w, R w (m w).1.2 (m w).2.

(** Nothing is ever removed from the disk: directories stay, and so do the
    entries in them. *)
Definition disk_le (d1 d2 : gmap string (gmap string FileData)) : Prop :=
  forall dir entries,
    d1 !! dir = Some entries ->
    exists entries',
      d2 !! dir = Some entries' /\
      forall f, is_Some (entries !! f) -> is_Some (entries' !! f).

(** The footprint of the work on one record folder [F]: other directories
    are untouched, nothing is removed, and every write goes into [F]. *)
Definition within (F : string) (w w' : World) (evs : list Event) : Prop :=
  (forall dir, dir <> F -> fs w' !! dir = fs w !! dir) /\
  disk_le (fs w) (fs w') /\
  (forall p, In (EvWriteFile p) evs -> dirname p = F).

(** Code that leaves the disk alone stays within any footprint. *)
Definition reads_only (w w' : World) (evs : list Event) : Prop :=
  fs w' = fs w /\ forall p, ~ In (EvWriteFile p) evs.

(** What a computation can return, whatever the world it runs in. *)
Definition returns_only {A} (P : A -> Prop) (m : M A) : Prop :=
  forall w a w' evs, m w = (Returned a, w', evs) -> P a.

(** ** Sample inputs *)

Module Sample.

Definition blank : Document :=
  {| doc_url := "about:blank";
     doc_metadata := Returned {| pageTitle := None; pageDescription := None;
                                 fields := []; downloads := [] |};
     doc_assetLink := Returned None;
     doc_video := Threw "Execution context was destroyed" |}.

Definition full_image : AssetDescriptor :=
  {| url := "https://example.org/full.jpg"; type := jpg;
     size := Some "12 MB"; resolution := Some "3000x2400" |}.

Definition document_pdf : AssetDescriptor :=
  {| url := "https://example.org/print.pdf"; type := pdf;
     size := None; resolution := None |}.

Definition plain_image (source : string) : AssetDescriptor :=
  {| url := source; type := jpg; size := None; resolution := None |}.

Definition narrative : VideoContent :=
  {| title := Some "A spiral galaxy"; fullDescription := "";
     descriptionParagraphs := []; relatedTerms := [];
     scienceRelease := None; colorInfo := None; mainImageUrl := None |}.

(** The page that navigation to any URL ends on. *)
Definition landing : Document :=
  {| doc_url := "https://example.org/Y";
     doc_metadata :=
       Returned {| pageTitle := Some "A spiral galaxy";
                   pageDescription := None;
                   fields := [("objectName", "M 101")];
                   downloads := [full_image; document_pdf] |};
     doc_assetLink := Returned None;
     doc_video := Returned narrative |}.

(** Everything answers. *)
Definition online : Env :=
  {| goto_outcome := fun _ _ => Returned landing;
     fetch_outcome := fun _ _ => Response true 200 (BodyBytes []);
     disk_fault := fun _ => None;
     torn := fun _ => None;
     clock := fun _ => "2021-03-05T00:00:00.000Z" |}.

(** Pages load, but every asset fetch is refused. *)
Definition assets_down : Env :=
  {| goto_outcome := fun _ _ => Returned landing;
     fetch_outcome := fun _ _ => Response false 503 (BodyBytes []);
     disk_fault := fun _ => None;
     torn := fun _ => None;
     clock := fun _ => "2021-03-05T00:00:00.000Z" |}.

(** Nothing can be reached. *)
Definition offline : Env :=
  {| goto_outcome := fun _ _ => Threw "net::ERR_INTERNET_DISCONNECTED";
     fetch_outcome := fun _ _ => FetchRejects "fetch failed";
     disk_fault := fun _ => None;
     torn := fun _ => None;
     clock := fun _ => "2021-03-05T00:00:00.000Z" |}.

(** Only the source [good] can be fetched. *)
Definition only (good : string) : Env :=
  {| goto_outcome := fun _ _ => Returned landing;
     fetch_outcome := fun _ source =>
       if String.eqb source good then Response true 200 (BodyBytes [])
       else FetchRejects "fetch failed";
     disk_fault := fun _ => None;
     torn := fun _ => None;
     clock := fun _ => "2021-03-05T00:00:00.000Z" |}.

Definition march_5 : InputRecord :=
  {| Date := "March 5 2021"; URL := "https://example.org/X";
     Name := "Spiral"; Caption := "A galaxy"; Year := "2021";
     Image := "spiral.jpg" |}.

Definition july_4 : InputRecord :=
  {| Date := "July 4 2019"; URL := "https://example.org/Z";
     Name := "Nebula"; Caption := "A nebula"; Year := "2019";
     Image := "nebula.jpg" |}.

Definition no_stats : Stats :=
  {| processed := 0; skipped_count := 0; failed := 0 |}.

Definition fresh : World := {| fs := ∅; page := blank; tick := 0 |}.

Definition on_disk (disk : gmap string (gmap string FileData)) : World :=
  {| fs := disk; page := blank; tick := 0 |}.

(** A finished record folder. *)
Definition finished : World :=
  on_disk {[ "./dumps/03-05" :=
               {[ "metadata.json" := JsonDoc (JObject []);
                  "full.jpg" := Binary [] ]} ]}.

(** A folder whose metadata document is the JSON literal [null]. *)
Definition null_metadata : World :=
  on_disk {[ "./dumps/03-05" := {[ "metadata.json" := JsonDoc JNull ]};
             "./dumps/07-04" :=
               {[ "metadata.json" :=
                    JsonDoc (JObject
                      [("finalUrl", JString "https://example.org/Y")]) ]} ]}.

(** A folder whose metadata document has no [finalUrl]. *)
Definition no_final_url : World :=
  on_disk {[ "./dumps/03-05" :=
               {[ "metadata.json" :=
                    JsonDoc (JObject [("date", JString "March 5 2021")]) ]} ]}.

(** A folder whose [metadata.json] is not JSON. *)
Definition torn_metadata : World :=
  on_disk {[ "./dumps/03-05" := {[ "metadata.json" := Binary [] ]} ]}.

End Sample.

(** ** Further vocabulary *)

(** The names stage 1 gives the files of a record folder. *)
Definition canonical_name (name : string) : Prop :=
  name = "metadata.json" \/ name = "image.pdf" \/ name = "full.jpg" \/
  name = "thumb_1000.jpg" \/ name = "thumb_400.jpg" \/
  name = "thumb_200.jpg" \/ exists n, name = "image_" ++ ofNat n ++ ".jpg".

(** A run touches only the files in [S]: every other file, present or not,
    is afterwards what it was, no directory disappears, and every write is
    aimed at a file in [S]. *)
Definition touches_only (S : string -> string -> Prop)
    (w w' : World) (evs : list Event) : Prop :=
  (forall dir name, ~ S dir name ->
     file_at (fs w') dir name = file_at (fs w) dir name) /\
  (forall dir, is_Some (fs w !! dir) -> is_Some (fs w' !! dir)) /\
  (forall p, In (EvWriteFile p) evs -> S (dirname p) (basename p)).

(** How many navigations a run of events holds. *)
Definition gotos (evs : list Event) : nat :=
  length (List.filter
            (fun e => match e with EvGoto _ => true | _ => false end) evs).

(** The names of the successful downloads of a log. *)
Definition stored_names (log : list (string * bool)) : list string :=
  map fst (List.filter snd log).

(** The property names the extractor can assign among the page fields
    (download.js, lines 149-159). *)
Definition field_names : list string :=
  [ "objectName"; "objectDescription"; "releaseDate"; "raPosition";
    "decPosition"; "constellation"; "distance"; "instrument";
    "exposureDates"; "filters"; "credit" ].

Definition well_named (pd : PageData) : Prop :=
  Forall (fun kv => In (fst kv) field_names) (fields pd).

(** A run without any navigation. *)
Definition no_goto (w w' : World) (evs : list Event) : Prop := gotos evs = 0.

(** A folder that stage 2 cannot get past: not enriched yet, and its
    metadata document is the JSON literal [null]. *)
Definition null_state (disk : gmap string (gmap string FileData))
    (folderPath : string) : Prop :=
  file_at disk folderPath "video-content.json" = None /\
  file_at disk folderPath "metadata.json" = Some (JsonDoc JNull).

(** The one file stage 2 writes for a folder. *)
Definition enriched_file (folderPath : string) (dir name : string) : Prop :=
  dir = folderPath /\ name = "video-content.json".

(** ** Vocabulary for the code inside the page and for the pacing *)

(** [o.name] on an object of texts. *)
Fixpoint get_field (o : list (string * string)) (name : string)
  : option string :=
  match o with
  | [] => None
  | (k, v) :: rest => if String.eqb k name then Some v else get_field rest name
  end.

(** No item of the list is read as the field [name]. *)
Definition unread (name : string) (listItems : list (list string)) : Prop :=
  Forall (fun divs => forall value,
            Extract.reading divs <> Some (name, value)) listItems.

(** The elements of [l], in order, that occur neither in [seen] nor earlier
    in [l]. *)
Fixpoint first_seen (seen l : list string) : list string :=
  match l with
  | [] => []
  | x :: rest =>
      if existsb (String.eqb x) seen then first_seen (seen ++ [x]) rest
      else x :: first_seen (seen ++ [x]) rest
  end.

(** How many pauses between records a run of events holds: the waits of
    [DELAY_MS].  (The other waits of stage 1 last 500 ms, or a multiple of
    it.) *)
Definition pauses (evs : list Event) : nat :=
  length (List.filter
            (fun e => match e with
                      | EvDelay ms => (ms =? DELAY_MS)%nat
                      | _ => false
                      end) evs).

Definition no_pause (w w' : World) (evs : list Event) : Prop := pauses evs = 0.

(** A text with no white-space character at either end. *)
Definition trimmed (s : string) : Prop :=
  drop_any white_space s = None /\
  drop_any (map reverse white_space) (reverse s) = None.

(** ** The destination of a download *)

(** The disk with [content] stored at [p], where the directory of [p]
    exists; the disk itself where it does not. *)
Definition put (disk : gmap string (gmap string FileData)) (p : Path)
    (content : FileData) : gmap string (gmap string FileData) :=
  match disk !! dirname p with
  | Some entries => <[dirname p := <[basename p := content]> entries]> disk
  | None => disk
  end.

(** An attempt of [downloadFile] started at tick [t] goes through: the fetch
    answers OK and delivers a body, and the write that follows it, one tick
    later, is accepted.  (Every call that reaches outside takes one tick and
    leaves one event: the [i]-th event of a run started at tick [t] is made
    at tick [t + i].) *)
Definition attempt_ok (env : Env) (source : string) (destPath : Path)
    (disk : gmap string (gmap string FileData)) (t : nat) : bool :=
  match fetch_outcome env t source with
  | Response true _ (BodyBytes _) =>
      match disk_fault env (S t), disk !! dirname destPath with
      | None, Some _ => true
      | _, _ => false
      end
  | _ => false
  end.

(** ** Sample faults *)

Module Faults.

(** Every fetch delivers three bytes, and every write is refused when the
    disk is full, after the first byte. *)
Definition disk_full : Env :=
  {| goto_outcome := fun _ _ => Returned Sample.landing;
     fetch_outcome := fun _ _ =>
       Response true 200 (BodyBytes [Byte.x01; Byte.x02; Byte.x03]);
     disk_fault := fun _ => Some "ENOSPC: no space left on device";
     torn := fun _ => Some (Binary [Byte.x01]);
     clock := fun _ => "2021-03-05T00:00:00.000Z" |}.

(** The folder of a record, just made. *)
Definition made : World := Sample.on_disk {[ "./dumps/03-05" := ∅ ]}.

Definition full_jpg : Path := file_in "./dumps/03-05" "full.jpg".

End Faults.

(** A record as a row with an empty date cell gives it. *)
Definition undated : InputRecord :=
  {| Date := ""; URL := "https://example.org/U"; Name := "Undated";
     Caption := ""; Year := ""; Image := "" |}.

(** ** Sample passes over a record with two images without resolution *)

Module Gallery.

Definition a_jpg : string := "https://example.org/a.jpg".
Definition b_jpg : string := "https://example.org/b.jpg".
Definition a_bytes : list Byte.byte := [Byte.x01; Byte.x02; Byte.x03].
Definition b_bytes : list Byte.byte := [Byte.x0a; Byte.x0b].

(** The downloads of the record: two images without resolution, and a pdf
    between them. *)
Definition listed : list AssetDescriptor :=
  [ Sample.plain_image a_jpg; Sample.document_pdf; Sample.plain_image b_jpg ].

Definition page : Document :=
  {| doc_url := "https://example.org/gallery";
     doc_metadata :=
       Returned {| pageTitle := Some "Two views"; pageDescription := None;
                   fields := []; downloads := listed |};
     doc_assetLink := Returned None;
     doc_video := Returned Sample.narrative |}.

(** Everything can be fetched. *)
Definition every (source : string) : FetchOutcome :=
  if String.eqb source a_jpg then Response true 200 (BodyBytes a_bytes)
  else if String.eqb source b_jpg then Response true 200 (BodyBytes b_bytes)
  else Response true 200 (BodyBytes []).

(** The two images can be fetched; the pdf cannot. *)
Definition both (source : string) : FetchOutcome :=
  if String.eqb source a_jpg then Response true 200 (BodyBytes a_bytes)
  else if String.eqb source b_jpg then Response true 200 (BodyBytes b_bytes)
  else FetchRejects "fetch failed".

(** Only the second image can be fetched. *)
Definition second_only (source : string) : FetchOutcome :=
  if String.eqb source b_jpg then Response true 200 (BodyBytes b_bytes)
  else FetchRejects "fetch failed".

(** The writes made before tick 8 are refused, each after the first byte:
    in a loop started at tick 0 these are the three writes of the first
    asset. *)
Definition first_writes_refused : Env :=
  {| goto_outcome := fun _ _ => Returned page;
     fetch_outcome := fun _ => both;
     disk_fault := fun t => if (t <? 8)%nat then Some "EIO: i/o error"
                            else None;
     torn := fun _ => Some (Binary [Byte.x01]);
     clock := fun _ => "2021-03-05T00:00:00.000Z" |}.

(** Everything is fetched and stored, and the write made at tick 9 is
    refused before the file is opened: in a pass started at tick 0 over the
    record this is the write of [metadata.json]. *)
Definition metadata_refused : Env :=
  {| goto_outcome := fun _ _ => Returned page;
     fetch_outcome := fun _ => every;
     disk_fault := fun t => if (t =? 9)%nat then Some "EIO: i/o error"
                            else None;
     torn := fun _ => None;
     clock := fun _ => "2021-03-05T00:00:00.000Z" |}.

(** Later only the second image can still be fetched. *)
Definition first_unreachable : Env :=
  {| goto_outcome := fun _ _ => Returned page;
     fetch_outcome := fun _ => second_only;
     disk_fault := fun _ => None;
     torn := fun _ => None;
     clock := fun _ => "2021-03-06T00:00:00.000Z" |}.

Definition folder : string := "./dumps/03-05".

End Gallery.

(** ** The resolution pattern, said without the matcher *)

(** A run of white-space characters. *)
Inductive white_run : string -> Prop :=
| white_run_nil : white_run ""
| white_run_cons p sp :
    In p white_space -> white_run sp -> white_run (p ++ sp).

Definition starts_with_digit (s : string) : bool :=
  match s with
  | String c _ => is_digit c
  | EmptyString => false
  end.

(** [s] starts with a match of [/(\d+)\s*[x×]\s*(\d+)/] whose groups are
    [width] and [height], the second one taken as long as it can be: digits,
    white space, a sign, white space, digits, and no digit after them. *)
Definition resolution_at (s width height : string) : Prop :=
  exists sp1 sign sp2 rest,
    s = width ++ sp1 ++ sign ++ sp2 ++ height ++ rest /\
    width <> "" /\ all_digits width = true /\
    white_run sp1 /\ In sign Extract.times_sign /\ white_run sp2 /\
    height <> "" /\ all_digits height = true /\
    starts_with_digit rest = false.

(** The first place of [text] where such a match starts has these groups. *)
Definition first_resolution (text width height : string) : Prop :=
  exists before s,
    text = before ++ s /\ resolution_at s width height /\
    forall before' s' w h,
      text = before' ++ s' ->
      String.length before' < String.length before ->
      ~ resolution_at s' w h.

(** No place of [text] starts such a match. *)
Definition no_resolution (text : string) : Prop :=
  forall before s w h, text = before ++ s -> ~ resolution_at s w h.

(** * Properties *)

(** ** Strings *)

Section StringFacts.

Lemma no_char_cons c d s :
  no_char c (String d s) = negb (Ascii.eqb d c) && no_char c s.
Proof. reflexivity. Qed.

Lemma split_nonempty sep s : split sep s <> [].
Proof.
  destruct s as [|c s]; simpl; [discriminate|].
  destruct (Ascii.eqb c sep); [discriminate|].
  destruct (split sep s); discriminate.
Qed.

Lemma split_no_sep sep w : no_char sep w = true -> split sep w = [w].
Proof.
  induction w as [|c w IH]; [reflexivity|].
  rewrite no_char_cons. intros [Hc Hw]%andb_true_iff.
  simpl. apply negb_true_iff in Hc. rewrite Hc, (IH Hw). reflexivity.
Qed.

Lemma split_app_sep sep w s :
  no_char sep w = true ->
  split sep (w ++ String sep s) = w :: split sep s.
Proof.
  induction w as [|c w IH]; simpl.
  - intros _. rewrite Ascii.eqb_refl. reflexivity.
  - fold (no_char sep (String c w)). rewrite no_char_cons.
    intros [Hc Hw]%andb_true_iff. apply negb_true_iff in Hc.
    rewrite Hc, (IH Hw). reflexivity.
Qed.

(** Splitting undoes joining when no piece holds the separator. *)
Lemma split_join sep ws :
  ws <> [] -> Forall (fun w => no_char sep w = true) ws ->
  split sep (join sep ws) = ws.
Proof.
  induction ws as [|w ws IH]; [congruence|].
  intros _ Hall. inversion Hall as [|? ? Hw Hws]; subst.
  destruct ws as [|w' ws'].
  - simpl. apply split_no_sep, Hw.
  - change (join sep (w :: w' :: ws'))
      with (w ++ String sep (join sep (w' :: ws'))).
    rewrite split_app_sep by exact Hw.
    rewrite IH; [reflexivity|discriminate|exact Hws].
Qed.

(** A check over a range of numbers, run once and used at each of them. *)
Lemma range_check (P : nat -> bool) lo n :
  forallb P (seq lo n) = true ->
  forall k, lo <= k < lo + n -> P k = true.
Proof.
  intros Hall k Hk. rewrite forallb_forall in Hall.
  apply Hall, in_seq. lia.
Qed.

Lemma length_append s t :
  String.length (s ++ t) = String.length s + String.length t.
Proof. induction s as [|c s IH]; simpl; [reflexivity|now rewrite IH]. Qed.

Lemma substring_full s : substring 0 (String.length s) s = s.
Proof. induction s as [|c s IH]; simpl; [reflexivity|now rewrite IH]. Qed.

Lemma substring_skip front s n :
  substring (String.length front) n (front ++ s) = substring 0 n s.
Proof. induction front as [|c front IH]; simpl; [reflexivity|exact IH]. Qed.

Lemma substring_cut s n :
  n <= String.length s ->
  s = substring 0 n s ++ substring n (String.length s - n) s.
Proof.
  revert n. induction s as [|c s IH]; intros [|n] Hn; simpl in *;
    try reflexivity; try lia.
  - now rewrite substring_full.
  - change (String c s = String c (substring 0 n s ++
                                   substring n (String.length s - n) s)).
    f_equal. apply IH. lia.
Qed.

Lemma endsWith_spec s suffix :
  endsWith s suffix = true <-> exists front, s = front ++ suffix.
Proof.
  unfold endsWith. rewrite andb_true_iff, Nat.leb_le, String.eqb_eq. split.
  - intros [Hlen Hsub].
    exists (substring 0 (String.length s - String.length suffix) s).
    set (k := String.length s - String.length suffix) in *.
    etransitivity; [apply (substring_cut s k); lia|].
    f_equal. rewrite <- Hsub. f_equal. lia.
  - intros [front ->]. rewrite length_append. split; [lia|].
    replace (String.length front + String.length suffix - String.length suffix)
      with (String.length front) by lia.
    rewrite substring_skip. apply substring_full.
Qed.

End StringFacts.

(** ** The date key *)

Lemma month_name_facts k :
  1 <= k <= 12 ->
  no_char " " (month_name k) = true /\
  template (MONTHS_get MONTHS (month_name k)) = two_digits k.
Proof.
  intros Hk.
  pose (check := fun k =>
    no_char " " (month_name k) &&
    String.eqb (template (MONTHS_get MONTHS (month_name k))) (two_digits k)).
  assert (Hc : check k = true).
  { apply (range_check check 1 12); [vm_compute; reflexivity|lia]. }
  unfold check in Hc. apply andb_true_iff in Hc as [H1 H2].
  apply String.eqb_eq in H2. auto.
Qed.

Lemma day_facts d :
  1 <= d <= 31 ->
  no_char " " (ofNat d) = true /\
  padStart 2 "0" (ofNat d) = two_digits d /\
  String.length (two_digits d) = 2.
Proof.
  intros Hd.
  pose (check := fun d =>
    no_char " " (ofNat d) &&
    String.eqb (padStart 2 "0" (ofNat d)) (two_digits d) &&
    (String.length (two_digits d) =? 2)%nat).
  assert (Hc : check d = true).
  { apply (range_check check 1 31); [vm_compute; reflexivity|lia]. }
  unfold check in Hc. apply andb_true_iff in Hc as [Hc H3].
  apply andb_true_iff in Hc as [H1 H2].
  apply String.eqb_eq in H2. apply Nat.eqb_eq in H3. auto.
Qed.

(** C7.  For a date text made of an English month name, a day of the month
    written in decimal and any further words (the year), separated by single
    spaces, the folder key is the two-digit number of the month, a dash, and
    the day padded to two digits: five characters, month between 01 and 12.
    The key is a function of the date text alone. *)
Theorem parseDateToFolder_month_day (k d : nat) (rest : list string) :
  1 <= k <= 12 ->
  1 <= d <= 31 ->
  Forall (fun w => no_char " " w = true) rest ->
  parseDateToFolder (join " " (month_name k :: ofNat d :: rest))
    = Returned (two_digits k ++ "-" ++ two_digits d) /\
  String.length (two_digits k ++ "-" ++ two_digits d) = 5.
Proof.
  intros Hk Hd Hrest.
  destruct (month_name_facts k Hk) as [Hm1 Hm2].
  destruct (day_facts d Hd) as [Hd1 [Hd2 Hd3]].
  split.
  - unfold parseDateToFolder.
    rewrite split_join; [|discriminate|repeat constructor; assumption].
    cbn [nth nth_error]. rewrite Hm2, Hd2. reflexivity.
  - rewrite length_append. cbn [String.length String.append].
    rewrite length_append in *. cbn [String.length] in *.
    assert (Hk2 : String.length (two_digits k) = 2).
    { pose (check := fun k => (String.length (two_digits k) =? 2)%nat).
      assert (Hc : check k = true)
        by (apply (range_check check 1 12); [vm_compute; reflexivity|lia]).
      now apply Nat.eqb_eq in Hc. }
    lia.
Qed.

Lemma parseDateToFolder_month_day_witness :
  parseDateToFolder "January 1 2019" = Returned "01-01" /\
  String.length "01-01" = 5.
Proof.
  apply (parseDateToFolder_month_day 1 1 ["2019"]); [lia|lia|].
  repeat constructor.
Defined.

Example parseDateToFolder_new_year :
  parseDateToFolder "January 1 2019" = Returned "01-01".
Proof. reflexivity. Qed.

Example parseDateToFolder_new_years_eve :
  parseDateToFolder "December 31 2020" = Returned "12-31".
Proof. reflexivity. Qed.

(** A date text of a single word has no day to pad: the call raises. *)
Example parseDateToFolder_one_word :
  parseDateToFolder "January"
    = Threw "Cannot read properties of undefined (reading 'padStart')".
Proof. reflexivity. Qed.

(** ** Asset names *)

Section ParseInt.

Lemma digit_code c :
  is_digit c = true -> 48 <= nat_of_ascii c <= 57.
Proof.
  unfold is_digit. intros [H1 H2]%andb_true_iff.
  apply Nat.leb_le in H1, H2. lia.
Qed.

Lemma digit_is_not c (other : ascii) :
  is_digit c = true ->
  (nat_of_ascii other <? 48)%nat || (57 <? nat_of_ascii other)%nat = true ->
  Ascii.eqb c other = false.
Proof.
  intros Hc Hother. apply digit_code in Hc.
  destruct (Ascii.eqb c other) eqn:E; [|reflexivity].
  apply Ascii.eqb_eq in E. subst other.
  apply orb_true_iff in Hother as [H|H]; apply Nat.ltb_lt in H; lia.
Qed.

Lemma digit_value_decimal c :
  is_digit c = true ->
  digit_value 10 c = Some (Z.of_nat (nat_of_ascii c) - 48)%Z.
Proof.
  intros Hc. apply digit_code in Hc. unfold digit_value.
  destruct (Z.leb_spec 48 (Z.of_nat (nat_of_ascii c))); [|lia].
  destruct (Z.leb_spec (Z.of_nat (nat_of_ascii c)) 57); [|lia].
  cbn [andb].
  destruct (Z.ltb_spec (Z.of_nat (nat_of_ascii c) - 48) 10); [reflexivity|lia].
Qed.

Lemma read_digits_decimal s acc :
  all_digits s = true ->
  read_digits 10 (Some acc) s
    = Some (fold_left
              (fun acc c => (acc * 10 + (Z.of_nat (nat_of_ascii c) - 48))%Z)
              (list_ascii_of_string s) acc).
Proof.
  revert acc. induction s as [|c s IH]; intros acc; [reflexivity|].
  unfold all_digits. cbn [list_ascii_of_string forallb].
  intros [Hc Hs]%andb_true_iff.
  cbn [read_digits]. rewrite (digit_value_decimal c Hc).
  cbn [default fold_left]. apply IH, Hs.
Qed.

(** On a non-empty string of decimal digits [parseInt] is the number the
    digits denote: there is no white space, sign or radix prefix to strip. *)
Lemma parseInt_digits s :
  s <> "" -> all_digits s = true -> parseInt s = Some (decimal_value s).
Proof.
  destruct s as [|c s]; [congruence|]. intros _ Hall.
  pose proof Hall as Hall'.
  unfold all_digits in Hall'. cbn [list_ascii_of_string forallb] in Hall'.
  apply andb_true_iff in Hall' as [Hc Hs].
  unfold parseInt.
  assert (Hsp : is_space c = false).
  { apply digit_code in Hc. unfold is_space.
    destruct (Nat.eqb_spec (nat_of_ascii c) 32); [lia|].
    destruct (Nat.leb_spec (nat_of_ascii c) 13); [lia|].
    now rewrite andb_false_r. }
  cbn [skip_spaces]. rewrite Hsp.
  unfold strip_sign.
  rewrite (digit_is_not c "-" Hc eq_refl), (digit_is_not c "+" Hc eq_refl).
  assert (Hradix : strip_radix (String c s) = (10%Z, String c s)).
  { unfold strip_radix. destruct s as [|d s]; [reflexivity|].
    unfold all_digits in Hs. cbn [list_ascii_of_string forallb] in Hs.
    apply andb_true_iff in Hs as [Hd _].
    rewrite (digit_is_not d "x" Hd eq_refl), (digit_is_not d "X" Hd eq_refl).
    now rewrite andb_false_r. }
  rewrite Hradix.
  cbn [read_digits]. rewrite (digit_value_decimal c Hc). cbn [default].
  rewrite (read_digits_decimal s _ Hs).
  unfold decimal_value. cbn [list_ascii_of_string fold_left].
  f_equal. lia.
Qed.

Lemma all_digits_no_x s : all_digits s = true -> no_char "x" s = true.
Proof.
  unfold all_digits, no_char.
  induction (list_ascii_of_string s) as [|c l IH]; [reflexivity|].
  cbn [forallb]. intros [Hc Hl]%andb_true_iff.
  rewrite (digit_is_not c "x" Hc eq_refl). cbn. apply IH, Hl.
Qed.

(** [decimal_value] reads back what [String(n)] prints. *)
Lemma decimal_value_ofNat n : decimal_value (ofNat n) = Z.of_nat n.
Proof.
  unfold ofNat. rewrite <- (DecimalNat.Unsigned.of_to n) at 2.
  generalize (Nat.to_uint n) as d. intros d.
  assert (Hgen : forall d acc,
    fold_left (fun acc c => (acc * 10 + (Z.of_nat (nat_of_ascii c) - 48))%Z)
              (list_ascii_of_string (NilEmpty.string_of_uint d))
              (Z.of_nat acc)
    = Z.of_nat (Nat.of_uint_acc d acc)).
  { clear. induction d as [|d IH|d IH|d IH|d IH|d IH|d IH|d IH|d IH|d IH|d IH];
      intros acc; [reflexivity|..];
      cbn [NilEmpty.string_of_uint list_ascii_of_string fold_left
           Nat.of_uint_acc];
      rewrite <- IH; f_equal; rewrite Nat.tail_mul_spec;
      match goal with
      | |- context [nat_of_ascii ?c] =>
          let k := eval vm_compute in (nat_of_ascii c) in
          change (nat_of_ascii c) with k
      end; lia. }
  unfold decimal_value, Nat.of_uint.
  destruct d; try apply (Hgen _ 0). reflexivity.
Qed.

End ParseInt.

Lemma asset_filename_width source sz width rest count :
  width <> "" -> all_digits width = true ->
  asset_filename {| url := source; type := jpg; size := sz;
                    resolution := Some (width ++ "x" ++ rest) |} count
    = name_for_width (decimal_value width).
Proof.
  intros Hne Hall. unfold asset_filename. cbn [type resolution].
  destruct width as [|c w]; [congruence|].
  change (String c w ++ "x" ++ rest)
    with (String c (w ++ String "x" rest)).
  cbv iota beta.
  change (String c (w ++ String "x" rest))
    with (String c w ++ String "x" rest).
  rewrite split_app_sep by (apply all_digits_no_x, Hall).
  cbn [nth]. rewrite (parseInt_digits (String c w)) by (congruence || exact Hall).
  reflexivity.
Qed.

(** C3.  The destination name of an asset: a pdf is always [image.pdf],
    whatever its resolution; a jpg whose resolution text starts with the
    decimal width [W] followed by [x] is named by the thresholds 2000, 800
    and 300 on [W]; a jpg without resolution gets the generic name numbered
    by the running count.  The four sample resolutions of the specification
    land on the four names. *)
Theorem asset_filename_classification :
  (forall source sz res count,
     asset_filename {| url := source; type := pdf; size := sz;
                       resolution := res |} count = "image.pdf") /\
  (forall source sz width rest count,
     width <> "" -> all_digits width = true ->
     let name := asset_filename {| url := source; type := jpg; size := sz;
                   resolution := Some (width ++ "x" ++ rest) |} count in
     let W := decimal_value width in
     ((2000 <= W)%Z -> name = "full.jpg") /\
     ((800 <= W < 2000)%Z -> name = "thumb_1000.jpg") /\
     ((300 <= W < 800)%Z -> name = "thumb_400.jpg") /\
     ((W < 300)%Z -> name = "thumb_200.jpg")) /\
  (forall source sz count,
     asset_filename {| url := source; type := jpg; size := sz;
                       resolution := None |} count
       = "image_" ++ ofNat count ++ ".jpg") /\
  (forall source sz count,
     let named res := asset_filename {| url := source; type := jpg; size := sz;
                                        resolution := Some res |} count in
     named "2400x3000" = "full.jpg" /\
     named "1000x800" = "thumb_1000.jpg" /\
     named "500x400" = "thumb_400.jpg" /\
     named "150x150" = "thumb_200.jpg").
Proof.
  split; [reflexivity|]. split; [|split; [reflexivity|]].
  - intros source sz width rest count Hne Hall name W. subst name.
    rewrite (asset_filename_width source sz width rest count Hne Hall).
    fold W. unfold name_for_width.
    repeat split; intros HW;
      repeat match goal with
             | |- context [(?a <=? ?b)%Z] => destruct (Z.leb_spec a b); try lia
             end; reflexivity.
  - intros source sz count named. subst named. repeat split; reflexivity.
Qed.

Lemma asset_filename_classification_witness :
  asset_filename {| url := "https://example.org/a.jpg"; type := jpg;
                    size := None; resolution := Some "0900x600" |} 0
    = "thumb_1000.jpg".
Proof.
  destruct asset_filename_classification as [_ [Hwidth _]].
  destruct (Hwidth "https://example.org/a.jpg" None "0900" "600" 0)
    as (_ & Hband & _); [discriminate|reflexivity|].
  apply Hband. vm_compute. split; [discriminate|reflexivity].
Defined.

(** ** The retrying downloader *)

Ltac run_step :=
  unfold mbind, M_bind, mret, M_ret, bind, ret, throw, try_catch, settle,
         delay, emit in *.

Lemma fetches_app evs1 evs2 :
  fetches (evs1 ++ evs2) = fetches evs1 + fetches evs2.
Proof. unfold fetches. now rewrite List.filter_app, length_app. Qed.

Lemma delays_app evs1 evs2 :
  delays (evs1 ++ evs2) = (delays evs1 ++ delays evs2)%list.
Proof. unfold delays. apply omap_app. Qed.

Lemma put_put disk p a b : put (put disk p a) p b = put disk p b.
Proof.
  unfold put. destruct (disk !! dirname p) as [entries|] eqn:Hdir.
  - rewrite lookup_insert_eq, insert_insert_eq, insert_insert_eq. reflexivity.
  - now rewrite Hdir.
Qed.

Lemma put_dir disk p a dir :
  is_Some (put disk p a !! dir) <-> is_Some (disk !! dir).
Proof.
  unfold put. destruct (disk !! dirname p) as [entries|] eqn:Hdir;
    [|reflexivity].
  destruct (decide (dir = dirname p)) as [->|Hne].
  - rewrite lookup_insert_eq, Hdir. split; eauto.
  - now rewrite lookup_insert_ne.
Qed.

Lemma put_other disk p a dir name :
  ~ (dir = dirname p /\ name = basename p) ->
  file_at (put disk p a) dir name = file_at disk dir name.
Proof.
  intros Hne. unfold put, file_at.
  destruct (disk !! dirname p) as [entries|] eqn:Hdir; [|reflexivity].
  destruct (decide (dir = dirname p)) as [->|Hd].
  - rewrite lookup_insert_eq, Hdir.
    rewrite lookup_insert_ne; [reflexivity|]. intros <-. tauto.
  - now rewrite lookup_insert_ne.
Qed.

Lemma attempt_ok_put env source destPath disk a t :
  attempt_ok env source destPath (put disk destPath a) t
    = attempt_ok env source destPath disk t.
Proof.
  unfold attempt_ok.
  destruct (fetch_outcome env t source) as [|[] status [bytes|]];
    try reflexivity.
  destruct (disk_fault env (S t)); [reflexivity|].
  pose proof (put_dir disk destPath a (dirname destPath)) as [H1 H2].
  destruct (put disk destPath a !! dirname destPath),
           (disk !! dirname destPath); try reflexivity.
  - destruct H1 as [x [=]]. eauto.
  - destruct H2 as [x [=]]. eauto.
Qed.

(** One attempt either goes through and stores the fetched bytes, or it
    raises: after the fetch alone, leaving the disk as it was, or after a
    refused write, which leaves the destination as [torn] says. *)
Lemma downloadAttempt_cases env source destPath w :
  (attempt_ok env source destPath (fs w) (tick w) = true /\
   exists bytes status w1,
     downloadAttempt env source destPath w
       = (Returned tt, w1, [EvFetch source; EvWriteFile destPath]) /\
     fetch_outcome env (tick w) source
       = Response true status (BodyBytes bytes) /\
     tick w1 = S (S (tick w)) /\
     fs w1 = put (fs w) destPath (Binary bytes)) \/
  (attempt_ok env source destPath (fs w) (tick w) = false /\
   exists msg w1 evs,
     downloadAttempt env source destPath w = (Threw msg, w1, evs) /\
     tick w1 = tick w + length evs /\
     ((evs = [EvFetch source] /\ fs w1 = fs w) \/
      (evs = [EvFetch source; EvWriteFile destPath] /\
       (fs w1 = fs w \/
        exists fault leftover,
          disk_fault env (S (tick w)) = Some fault /\
          torn env (S (tick w)) = Some leftover /\
          fs w1 = put (fs w) destPath leftover)))).
Proof.
  unfold downloadAttempt, fetchBuffer, writeFile, attempt_ok, put. run_step.
  destruct (fetch_outcome env (tick w) source) as [msg|ok status body].
  - right. split; [reflexivity|]. do 3 eexists. split; [reflexivity|].
    cbn. split; [lia|]. left. auto.
  - destruct ok; cbn [negb].
    2:{ right. split; [reflexivity|]. do 3 eexists. split; [reflexivity|].
        cbn. split; [lia|]. left. auto. }
    destruct body as [bytes|msg].
    2:{ right. split; [reflexivity|]. do 3 eexists. split; [reflexivity|].
        cbn. split; [lia|]. left. auto. }
    cbn [fs tick page].
    destruct (disk_fault env (S (tick w))) as [fault|] eqn:Hfault.
    + right. split; [reflexivity|].
      destruct (torn env (S (tick w))) as [leftover|] eqn:Htorn.
      * destruct (fs w !! dirname destPath) as [entries|] eqn:Hdir;
          do 3 eexists; (split; [reflexivity|]); cbn; (split; [lia|]);
          right; (split; [reflexivity|]); [right; eauto|now left].
      * do 3 eexists. split; [reflexivity|]. cbn. split; [lia|].
        right. split; [reflexivity|]. now left.
    + destruct (fs w !! dirname destPath) as [entries|] eqn:Hdir.
      * left. split; [reflexivity|]. exists bytes, status. eexists.
        repeat split; reflexivity.
      * right. split; [reflexivity|]. do 3 eexists. split; [reflexivity|].
        cbn. split; [lia|]. right. auto.
Qed.

Lemma downloadFile_loop_spec env source destPath retries :
  forall left attempt w,
    attempt + left = S retries ->
    exists b w' evs,
      downloadFile_loop env source destPath retries attempt left w
        = (Returned b, w', evs) /\
      fetches evs <= left /\
      (1 <= left -> 1 <= fetches evs) /\
      delays evs = map (fun k => 500 * k) (seq attempt (fetches evs - 1)) /\
      tick w' = tick w + length evs /\
      (forall e, In e evs ->
         e = EvFetch source \/ e = EvWriteFile destPath \/
         exists ms, e = EvDelay ms) /\
      (forall i,
         evs !! i = Some (EvFetch source) ->
         attempt_ok env source destPath (fs w) (tick w + i) = true ->
         b = true /\ S (S i) = length evs) /\
      (b = true ->
         exists before bytes status,
           evs = (before ++ [EvFetch source; EvWriteFile destPath])%list /\
           fetch_outcome env (tick w + length before) source
             = Response true status (BodyBytes bytes) /\
           attempt_ok env source destPath (fs w) (tick w + length before)
             = true /\
           fs w' = put (fs w) destPath (Binary bytes)) /\
      (b = false ->
         fetches evs = left /\
         (fs w' = fs w \/
          exists i fault leftover,
            evs !! i = Some (EvWriteFile destPath) /\
            disk_fault env (tick w + i) = Some fault /\
            torn env (tick w + i) = Some leftover /\
            fs w' = put (fs w) destPath leftover)).
Proof.
  induction left as [|left IH]; intros attempt w Hsum.
  - exists false, w, []. cbn. repeat split; auto; try lia; try discriminate.
  - cbn [downloadFile_loop]. run_step.
    destruct (downloadAttempt_cases env source destPath w)
      as [(Hok & bytes & status & w1 & Hrun & Hfetch & Htick & Hfs)
         |(Hok & msg & w1 & evs1 & Hrun & Htick & Hshape)]; rewrite Hrun.
    + exists true, w1. eexists. split; [reflexivity|].
      split; [cbn; lia|]. split; [cbn; lia|]. split; [reflexivity|].
      split; [cbn; lia|]. split; [|split; [|split]].
      * intros e He. cbn in He. intuition eauto.
      * intros [|[|[|i]]] Hi Hoki; try discriminate. auto.
      * intros _. exists [], bytes, status. cbn [length app].
        rewrite Nat.add_0_r. auto.
      * discriminate.
    + assert (Hev1 : fetches evs1 = 1 /\ delays evs1 = [] /\
                     1 <= length evs1 /\
                     (forall e, In e evs1 ->
                        e = EvFetch source \/ e = EvWriteFile destPath) /\
                     (forall i, evs1 !! i = Some (EvFetch source) -> i = 0)).
      { destruct Hshape as [[-> _]|[-> _]]; cbn; repeat split; auto.
        - intros e [<-|[]]. auto.
        - intros [|[|i]]; auto; discriminate.
        - intros e [<-|[<-|[]]]; auto.
        - intros [|[|[|i]]]; auto; discriminate. }
      destruct Hev1 as (Hf1 & Hd1 & Hlen1 & Hin1 & Hfirst).
      assert (Hdisk1 : fs w1 = fs w \/
                exists i fault leftover,
                  evs1 !! i = Some (EvWriteFile destPath) /\
                  disk_fault env (tick w + i) = Some fault /\
                  torn env (tick w + i) = Some leftover /\
                  fs w1 = put (fs w) destPath leftover).
      { destruct Hshape as [[_ ->]|[-> [->|(fault & leftover & Hfa & Hto & ->)]]];
          auto.
        right. exists 1, fault, leftover. rewrite Nat.add_1_r. auto. }
      assert (Hok1 : forall t, attempt_ok env source destPath (fs w1) t
                               = attempt_ok env source destPath (fs w) t).
      { intros t. destruct Hdisk1 as [->|(i & fault & leftover & _ & _ & _ & ->)];
          [reflexivity|apply attempt_ok_put]. }
      destruct (Nat.eqb_spec attempt retries) as [Heq|Hne].
      * exists false, w1. eexists. split; [reflexivity|].
        rewrite !app_nil_r, Hf1, Hd1. cbn [map seq Nat.sub].
        split; [lia|]. split; [lia|]. split; [reflexivity|].
        split; [exact Htick|]. split; [|split; [|split]].
        -- intros e He. destruct (Hin1 e He); auto.
        -- intros i Hi Hoki. apply Hfirst in Hi as ->.
           rewrite Nat.add_0_r in Hoki. congruence.
        -- discriminate.
        -- intros _. split; [lia|exact Hdisk1].
      * destruct (IH (S attempt)
                    {| fs := fs w1; page := page w1; tick := S (tick w1) |}
                    ltac:(lia))
          as (b & w' & evs & Hrec & Hle & Hge & Hdel & Htk & Hin & Hstop
              & Htrue & Hfalse).
        rewrite Hrec. exists b, w'. eexists. split; [reflexivity|].
        cbn [fs tick] in *.
        rewrite !fetches_app, !delays_app, Hf1, Hd1, Hdel.
        change (fetches [EvDelay (500 * attempt)]) with 0.
        change (delays [EvDelay (500 * attempt)]) with [500 * attempt].
        assert (1 <= fetches evs) by (apply Hge; lia).
        split; [lia|]. split; [lia|]. split; [|split; [|split; [|split; [|split]]]].
        -- replace (1 + (0 + fetches evs) - 1) with (S (fetches evs - 1))
             by lia.
           reflexivity.
        -- rewrite !length_app. cbn [length]. lia.
        -- intros e He. rewrite !in_app_iff in He.
           destruct He as [He|[[<-|[]]|He]]; eauto.
           destruct (Hin1 e He); auto.
        -- intros i Hi Hoki.
           apply lookup_app_Some in Hi as [Hi|[Hge1 Hi]].
           { apply Hfirst in Hi as ->. rewrite Nat.add_0_r in Hoki. congruence. }
           apply lookup_app_Some in Hi as [Hi|[Hge2 Hi]].
           { destruct (i - length evs1) as [|k]; discriminate. }
           cbn [length] in Hge2, Hi.
           destruct (Hstop _ Hi) as [-> Hlast].
           { rewrite Hok1. rewrite <- Hoki. f_equal. lia. }
           split; [reflexivity|]. rewrite !length_app. cbn [length]. lia.
        -- intros Hb.
           destruct (Htrue Hb) as (before & bytes & status & -> & Hfetch
                                   & Hokb & Hfs').
           exists (evs1 ++ [EvDelay (500 * attempt)] ++ before)%list,
                  bytes, status.
           rewrite !length_app. cbn [length].
           replace (tick w + (length evs1 + (1 + length before)))
             with (S (tick w1) + length before) by lia.
           split; [now rewrite <- !app_assoc|]. split; [exact Hfetch|].
           split; [now rewrite <- Hok1|].
           rewrite Hfs'.
           destruct Hdisk1 as [->|(i & fault & leftover & _ & _ & _ & ->)];
             [reflexivity|apply put_put].
        -- intros Hb. destruct (Hfalse Hb) as [-> Hdisk]. split; [lia|].
           destruct Hdisk as [->|(i & fault & leftover & Hi & Hfa & Hto & ->)].
           ++ destruct Hdisk1 as [->|(i & fault & leftover & Hi & Hfa & Hto & ->)];
                [now left|].
              right. exists i, fault, leftover.
              split; [|auto]. apply lookup_app_Some. now left.
           ++ right. exists (length evs1 + S i), fault, leftover.
              split; [|split; [|split]].
              ** apply lookup_app_Some. right. split; [lia|].
                 replace (length evs1 + S i - length evs1) with (S i) by lia.
                 exact Hi.
              ** rewrite <- Hfa. f_equal. lia.
              ** rewrite <- Hto. f_equal. lia.
              ** destruct Hdisk1 as [->|(i' & fault' & leftover' & _ & _ & _ & ->)];
                   [reflexivity|apply put_put].
Qed.

(** C2, as amended.  [downloadFile] always returns a boolean and never
    raises.  It makes at most [retries] fetches (three by default), all of
    the given source; the waits between them are 500 ms times the number of
    the attempt that just failed, one after every attempt but the last one
    made.  It stops at the first success: an attempt whose fetch answers OK
    with a body and whose write is accepted is the last thing it does, and
    makes it return [true] with the fetched bytes at the destination; so
    when it returns [false], none of the [retries] attempts it made was
    such.  On [false] every file but the destination is what it was, and
    the disk as a whole is what it was unless a write was refused that left
    something at the destination: then the destination holds that
    leftover. *)
Theorem downloadFile_retry_contract env source destPath retries w :
  MAX_RETRIES = 3 /\
  exists b w' evs,
    downloadFile env source destPath retries w = (Returned b, w', evs) /\
    fetches evs <= retries /\
    (forall e, In e evs ->
       e = EvFetch source \/ e = EvWriteFile destPath \/
       exists ms, e = EvDelay ms) /\
    delays evs = map (fun k => 500 * k) (seq 1 (fetches evs - 1)) /\
    (forall i,
       evs !! i = Some (EvFetch source) ->
       attempt_ok env source destPath (fs w) (tick w + i) = true ->
       b = true /\ S (S i) = length evs) /\
    (b = true ->
       exists before bytes status,
         evs = (before ++ [EvFetch source; EvWriteFile destPath])%list /\
         fetch_outcome env (tick w + length before) source
           = Response true status (BodyBytes bytes) /\
         attempt_ok env source destPath (fs w) (tick w + length before)
           = true /\
         fs w' = put (fs w) destPath (Binary bytes)) /\
    (b = false ->
       fetches evs = retries /\
       (forall dir name,
          ~ (dir = dirname destPath /\ name = basename destPath) ->
          file_at (fs w') dir name = file_at (fs w) dir name) /\
       (fs w' = fs w \/
        exists i fault leftover,
          evs !! i = Some (EvWriteFile destPath) /\
          disk_fault env (tick w + i) = Some fault /\
          torn env (tick w + i) = Some leftover /\
          fs w' = put (fs w) destPath leftover)).
Proof.
  split; [reflexivity|]. unfold downloadFile.
  destruct (downloadFile_loop_spec env source destPath retries retries 1 w
              eq_refl)
    as (b & w' & evs & Hrun & Hle & _ & Hdel & _ & Hin & Hstop & Htrue
        & Hfalse).
  exists b, w', evs. split; [exact Hrun|]. split; [exact Hle|].
  split; [exact Hin|]. split; [exact Hdel|]. split; [exact Hstop|].
  split; [exact Htrue|].
  intros Hb. destruct (Hfalse Hb) as [Hall Hdisk].
  split; [exact Hall|]. split; [|exact Hdisk].
  intros dir name Hother.
  destruct Hdisk as [->|(i & fault & leftover & _ & _ & _ & ->)];
    [reflexivity|now apply put_other].
Qed.

(** The claim as first stated fails where the disk fills up: every attempt
    fetches the bytes and has its write refused after the file was opened;
    [downloadFile] answers [false], and the destination, absent before, now
    holds the first byte. *)
Lemma downloadFile_leaves_partial_file :
  let run := downloadFile Faults.disk_full "https://example.org/full.jpg"
                          Faults.full_jpg MAX_RETRIES Faults.made in
  run.1.1 = Returned false /\
  file_at (fs Faults.made) "./dumps/03-05" "full.jpg" = None /\
  file_at (fs run.1.2) "./dumps/03-05" "full.jpg"
    = Some (Binary [Byte.x01]) /\
  ~ (run.1.1 = Returned false -> fs run.1.2 = fs Faults.made).
Proof.
  assert (Hrun : (downloadFile Faults.disk_full "https://example.org/full.jpg"
                    Faults.full_jpg MAX_RETRIES Faults.made).1.1
                 = Returned false) by reflexivity.
  assert (Hafter : file_at
            (fs (downloadFile Faults.disk_full "https://example.org/full.jpg"
                   Faults.full_jpg MAX_RETRIES Faults.made).1.2)
            "./dumps/03-05" "full.jpg" = Some (Binary [Byte.x01]))
    by reflexivity.
  cbv zeta. repeat split; try assumption; try reflexivity.
  intros Hsame. rewrite (Hsame Hrun) in Hafter. discriminate.
Qed.

(** ** The resume check *)

Lemma is_asset_name_spec f :
  is_asset_name f = true <->
  exists front, f = front ++ ".jpg" \/ f = front ++ ".pdf".
Proof.
  unfold is_asset_name. rewrite orb_true_iff, !endsWith_spec.
  split.
  - intros [[front H]|[front H]]; exists front; auto.
  - intros [front [H|H]]; [left|right]; exists front; exact H.
Qed.

Lemma has_asset_spec (entries : gmap string FileData) :
  existsb is_asset_name (map fst (map_to_list entries)) = true <->
  exists f front,
    is_Some (entries !! f) /\ (f = front ++ ".jpg" \/ f = front ++ ".pdf").
Proof.
  rewrite existsb_exists. split.
  - intros (f & Hin & Hname). apply in_map_iff in Hin as ([f' data] & <- & Hin).
    apply list_elem_of_In, elem_of_map_to_list in Hin.
    apply is_asset_name_spec in Hname as [front Hname].
    exists f', front. split; [eexists; exact Hin|exact Hname].
  - intros (f & front & [data Hdata] & Hname).
    exists f. split.
    + apply in_map_iff. exists (f, data). split; [reflexivity|].
      apply list_elem_of_In, elem_of_map_to_list, Hdata.
    + apply is_asset_name_spec. exists front. exact Hname.
Qed.

(** The check reads the disk and nothing else; it answers [true] exactly on
    a complete folder. *)
Lemma alreadyProcessed_spec folderPath w :
  exists b,
    alreadyProcessed folderPath w = (Returned b, w, []) /\
    (b = true <-> folder_complete (fs w) folderPath).
Proof.
  unfold alreadyProcessed, access, readdir, folder_complete. run_step.
  cbn [dirname basename file_in].
  destruct (fs w !! folderPath) as [entries|] eqn:Hdir.
  - destruct (entries !! "metadata.json") as [data|] eqn:Hmeta.
    + rewrite Hdir. eexists. split; [reflexivity|].
      rewrite has_asset_spec. split.
      * intros Hasset. exists entries. split; [reflexivity|].
        split; [eexists; exact Hmeta|exact Hasset].
      * intros (entries' & [= <-] & _ & Hasset). exact Hasset.
    + exists false. split; [reflexivity|]. split; [discriminate|].
      intros (entries' & [= <-] & [data Hdata] & _). congruence.
  - exists false. split; [reflexivity|]. split; [discriminate|].
    intros (entries' & [=] & _).
Qed.

(** ** Reasoning about effectful code

    Relations that hold of the empty run and compose along sequencing are
    kept by [bind], [try_catch] and [settle]. *)

Section Keeps.

Variable R : World -> World -> list Event -> Prop.
Hypothesis R_unit : forall w, R w w [].
Hypothesis R_compose : forall w1 w2 w3 evs1 evs2,
  R w1 w2 evs1 -> R w2 w3 evs2 -> R w1 w3 (evs1 ++ evs2).

Lemma keeps_ret {A} (a : A) : keeps R (ret a).
Proof. intros w. apply R_unit. Qed.

Lemma keeps_throw {A} msg : keeps R (@throw A msg).
Proof. intros w. apply R_unit. Qed.

Lemma keeps_bind {A B} (m : M A) (k : A -> M B) :
  keeps R m -> (forall a, keeps R (k a)) -> keeps R (bind m k).
Proof.
  intros Hm Hk w. unfold bind. specialize (Hm w).
  destruct (m w) as [[[a|msg] w1] evs1]; cbn in *; [|exact Hm].
  specialize (Hk a w1). destruct (k a w1) as [[r w2] evs2]; cbn in *.
  eapply R_compose; eassumption.
Qed.

Lemma keeps_try_catch {A} (m : M A) handler :
  keeps R m -> (forall msg, keeps R (handler msg)) ->
  keeps R (try_catch m handler).
Proof.
  intros Hm Hh w. unfold try_catch. specialize (Hm w).
  destruct (m w) as [[[a|msg] w1] evs1]; cbn in *; [exact Hm|].
  specialize (Hh msg w1). destruct (handler msg w1) as [[r w2] evs2]; cbn in *.
  eapply R_compose; eassumption.
Qed.

Lemma keeps_settle {A} (m : M A) : keeps R m -> keeps R (settle m).
Proof.
  intros Hm w. unfold settle. specialize (Hm w).
  destruct (m w) as [[r w1] evs1]; exact Hm.
Qed.

Lemma keeps_reads {A} (f : World -> Outcome A) :
  keeps R (fun w => (f w, w, [])).
Proof. intros w. apply R_unit. Qed.

End Keeps.

Lemma disk_le_refl d : disk_le d d.
Proof. intros dir entries H. eauto. Qed.

Lemma disk_le_trans d1 d2 d3 : disk_le d1 d2 -> disk_le d2 d3 -> disk_le d1 d3.
Proof.
  intros H12 H23 dir entries H1.
  destruct (H12 _ _ H1) as (e2 & H2 & Hsub12).
  destruct (H23 _ _ H2) as (e3 & H3 & Hsub23). eauto.
Qed.

Lemma folder_complete_mono d1 d2 folderPath :
  disk_le d1 d2 -> folder_complete d1 folderPath ->
  folder_complete d2 folderPath.
Proof.
  intros Hle (entries & Hdir & Hmeta & f & front & Hf & Hname).
  destruct (Hle _ _ Hdir) as (entries' & Hdir' & Hsub).
  exists entries'. split; [exact Hdir'|]. split; [auto|].
  exists f, front. auto.
Qed.

Lemma within_unit F w : within F w w [].
Proof. repeat split; auto using disk_le_refl. intros p []. Qed.

Lemma within_compose F w1 w2 w3 evs1 evs2 :
  within F w1 w2 evs1 -> within F w2 w3 evs2 -> within F w1 w3 (evs1 ++ evs2).
Proof.
  intros (Ha1 & Hb1 & Hc1) (Ha2 & Hb2 & Hc2). repeat split.
  - intros dir Hdir. rewrite Ha2, Ha1; auto.
  - eapply disk_le_trans; eassumption.
  - intros p [H|H]%in_app_iff; auto.
Qed.

Lemma reads_only_unit w : reads_only w w [].
Proof. split; [reflexivity|]. intros p []. Qed.

Lemma reads_only_compose w1 w2 w3 evs1 evs2 :
  reads_only w1 w2 evs1 -> reads_only w2 w3 evs2 ->
  reads_only w1 w3 (evs1 ++ evs2).
Proof.
  intros [Ha1 Hb1] [Ha2 Hb2]. split; [congruence|].
  intros p [H|H]%in_app_iff; [eapply Hb1|eapply Hb2]; eassumption.
Qed.

Lemma reads_only_within F w w' evs : reads_only w w' evs -> within F w w' evs.
Proof.
  intros [Hfs Hev]. repeat split.
  - intros dir _. now rewrite Hfs.
  - rewrite Hfs. apply disk_le_refl.
  - intros p Hp. destruct (Hev p Hp).
Qed.

Lemma keeps_weaken (R1 R2 : World -> World -> list Event -> Prop) {A}
    (m : M A) :
  (forall w w' evs, R1 w w' evs -> R2 w w' evs) -> keeps R1 m -> keeps R2 m.
Proof. intros Himp Hm w. apply Himp, Hm. Qed.

(** *** The primitives *)

Ltac solve_reads_only :=
  intros w; cbv beta delta [goto emit delay page_url evaluate now access
    readdir readJson fetchBuffer]; cbn beta iota zeta;
  repeat match goal with
         | |- context [match ?x with _ => _ end] => destruct x; cbn
         | |- context [if ?x then _ else _] => destruct x; cbn
         end;
  (split; [reflexivity|
          let q := fresh "q" in let H := fresh "H" in
          intros q H; cbn in H; intuition discriminate]).

Lemma goto_reads_only env target : keeps reads_only (goto env target).
Proof. solve_reads_only. Qed.

Lemma delay_reads_only ms : keeps reads_only (delay ms).
Proof. solve_reads_only. Qed.

Lemma page_url_reads_only : keeps reads_only page_url.
Proof. solve_reads_only. Qed.

Lemma evaluate_reads_only {A} (f : Document -> Outcome A) :
  keeps reads_only (evaluate f).
Proof. solve_reads_only. Qed.

Lemma now_reads_only env : keeps reads_only (now env).
Proof. solve_reads_only. Qed.

Lemma access_reads_only p : keeps reads_only (access p).
Proof. solve_reads_only. Qed.

Lemma readdir_reads_only dir : keeps reads_only (readdir dir).
Proof. solve_reads_only. Qed.

Lemma readJson_reads_only p : keeps reads_only (readJson p).
Proof. solve_reads_only. Qed.

Lemma fetchBuffer_reads_only env source :
  keeps reads_only (fetchBuffer env source).
Proof. solve_reads_only. Qed.

Lemma mkdir_within env F : keeps (within F) (mkdir env F).
Proof.
  intros w. unfold mkdir.
  destruct (disk_fault env (tick w)) as [msg|]; cbn.
  - repeat split; auto using disk_le_refl. intros p [H|[]]. discriminate.
  - destruct (fs w !! F) as [entries|] eqn:HF; cbn.
    + repeat split; auto using disk_le_refl. intros p [H|[]]. discriminate.
    + repeat split; cbn [fs].
      * intros dir Hdir. now rewrite lookup_insert_ne.
      * intros dir entries Hdir. exists entries. split; [|auto].
        rewrite lookup_insert_ne; [exact Hdir|congruence].
      * intros p [H|[]]. discriminate.
Qed.

Lemma writeFile_within env p data :
  keeps (within (dirname p)) (writeFile env p data).
Proof.
  intros w. unfold writeFile.
  assert (Hev : forall q, In (EvWriteFile q) [EvWriteFile p] ->
                          dirname q = dirname p).
  { intros q [[= ->]|[]]. reflexivity. }
  assert (Hput : forall (content : FileData) entries,
            fs w !! dirname p = Some entries ->
            within (dirname p) w
              {| fs := <[dirname p := <[basename p := content]> entries]> (fs w);
                 page := page w; tick := S (tick w) |}
              [EvWriteFile p]).
  { intros content entries HF. repeat split; auto; cbn [fs].
    - intros dir Hdir. now rewrite lookup_insert_ne.
    - intros dir entries' Hdir.
      destruct (decide (dir = dirname p)) as [->|Hne].
      + rewrite lookup_insert_eq. eexists. split; [reflexivity|].
        intros f Hf. assert (entries' = entries) as -> by congruence.
        destruct (decide (f = basename p)) as [->|Hnf].
        * rewrite lookup_insert_eq. eauto.
        * now rewrite lookup_insert_ne.
      + rewrite lookup_insert_ne by congruence. eauto. }
  destruct (disk_fault env (tick w)) as [msg|]; cbn.
  - destruct (torn env (tick w)) as [leftover|]; cbn;
      [destruct (fs w !! dirname p) as [entries|] eqn:HF; cbn|].
    + now apply Hput.
    + repeat split; auto using disk_le_refl.
    + repeat split; auto using disk_le_refl.
  - destruct (fs w !! dirname p) as [entries|] eqn:HF; cbn.
    + now apply Hput.
    + repeat split; auto using disk_le_refl.
Qed.

(** *** Compound code *)

Ltac unfold_bind := unfold mbind, M_bind, mret, M_ret.

Ltac keeps_reads_only :=
  unfold_bind;
  repeat first
    [ apply (keeps_bind reads_only reads_only_compose)
    | apply (keeps_try_catch reads_only reads_only_compose)
    | apply (keeps_settle reads_only)
    | apply (keeps_ret reads_only reads_only_unit)
    | apply (keeps_throw reads_only reads_only_unit)
    | apply goto_reads_only | apply delay_reads_only
    | apply page_url_reads_only | apply evaluate_reads_only
    | apply now_reads_only | apply access_reads_only
    | apply readdir_reads_only | apply readJson_reads_only
    | apply fetchBuffer_reads_only
    | lazymatch goal with
      | |- keeps _ _ => fail
      | |- forall _, _ => intro
      end
    | match goal with
      | |- keeps _ (match ?x with _ => _ end) => destruct x
      | |- keeps _ (if ?x then _ else _) => destruct x
      end ].

Ltac keeps_within F :=
  unfold_bind;
  repeat first
    [ apply (keeps_bind (within F) (within_compose F))
    | apply (keeps_try_catch (within F) (within_compose F))
    | apply (keeps_settle (within F))
    | apply (keeps_ret (within F) (within_unit F))
    | apply (keeps_throw (within F) (within_unit F))
    | apply (mkdir_within _ F)
    | apply (writeFile_within _ (file_in F _))
    | assumption
    | apply (keeps_weaken reads_only (within F) _ (reads_only_within F));
      solve [keeps_reads_only]
    | lazymatch goal with
      | |- keeps _ _ => fail
      | |- forall _, _ => intro
      end
    | match goal with
      | |- keeps _ (match ?x with _ => _ end) => destruct x
      | |- keeps _ (if ?x then _ else _) => destruct x
      end ].

Lemma alreadyProcessed_reads_only folderPath :
  keeps reads_only (alreadyProcessed folderPath).
Proof. unfold alreadyProcessed. keeps_reads_only. Qed.

Lemma navigateAndExtract_reads_only env row :
  keeps reads_only (navigateAndExtract env row).
Proof. unfold navigateAndExtract. keeps_reads_only. Qed.

Lemma downloadFile_within env source F name retries :
  keeps (within F) (downloadFile env source (file_in F name) retries).
Proof.
  unfold downloadFile. generalize 1 at 1. generalize retries at 2.
  intros left. induction left as [|left IH]; intros attempt;
    cbn [downloadFile_loop]; unfold downloadAttempt; keeps_within F.
  apply IH.
Qed.

Lemma downloadAssets_within env F pending :
  forall count, keeps (within F) (downloadAssets env F pending count).
Proof.
  induction pending as [|download rest IH]; intros count;
    cbn [downloadAssets]; keeps_within F.
  apply IH.
Qed.

Lemma processRow_try_within env row folder F :
  keeps (within F) (processRow_try env row folder F).
Proof.
  unfold processRow_try, downloadAndPersist. keeps_within F.
  apply downloadAssets_within.
Qed.

Lemma returns_only_bind {A B} (P : B -> Prop) (m : M A) (k : A -> M B) :
  (forall a, returns_only P (k a)) -> returns_only P (bind m k).
Proof.
  intros Hk w b w' evs. unfold bind.
  destruct (m w) as [[[a|msg] w1] evs1]; [|discriminate].
  destruct (k a w1) as [[r w2] evs2] eqn:Hrun. intros [= -> <- <-].
  eapply Hk, Hrun.
Qed.

Lemma returns_only_ret {A} (P : A -> Prop) a : P a -> returns_only P (ret a).
Proof. intros HP w a' w' evs [= <- _ _]. exact HP. Qed.

Lemma bind_goto_starts {B} env target (k : unit -> M B) w :
  exists r w' evs, bind (goto env target) k w = (r, w', EvGoto target :: evs).
Proof.
  unfold bind, goto.
  destruct (goto_outcome env (tick w) target) as [doc|msg]; [|eauto].
  match goal with
  | |- context [k tt ?w1] => destruct (k tt w1) as [[r w2] evs2]
  end.
  eauto.
Qed.

Lemma processRow_try_outcome env row folder folderPath w :
  exists r w' evs,
    processRow_try env row folder folderPath w
      = (r, w', EvGoto (URL row) :: evs) /\
    (r = Returned Processed \/ exists msg, r = Threw msg).
Proof.
  assert (Hret : returns_only (eq Processed)
                   (processRow_try env row folder folderPath)).
  { unfold processRow_try, downloadAndPersist. unfold_bind.
    apply returns_only_bind. intros [finalUrl pageData].
    repeat (apply returns_only_bind; intros ?).
    now apply returns_only_ret. }
  assert (Hstart : exists r w' evs,
            processRow_try env row folder folderPath w
              = (r, w', EvGoto (URL row) :: evs)).
  { unfold processRow_try, navigateAndExtract. unfold_bind.
    unfold bind at 1.
    match goal with
    | |- context [bind (goto env ?u) ?k w] =>
        destruct (bind_goto_starts env u k w) as (r & w1 & evs1 & ->)
    end.
    destruct r as [[finalUrl pageData]|msg]; [|eauto].
    match goal with
    | |- context [match ?m with _ => _ end] =>
        destruct m as [[r2 w2] evs2]
    end.
    eauto. }
  destruct Hstart as (r & w' & evs & Hrun). exists r, w', evs.
  split; [exact Hrun|].
  destruct r as [res|msg]; [left|right; eauto].
  f_equal. symmetry. eapply Hret, Hrun.
Qed.

(** The two ways a record with a folder key goes: skipped without a trace,
    or handed to the guarded body, whose first step is the navigation. *)
Lemma processRow_cases env row folder w :
  parseDateToFolder (Date row) = Returned folder ->
  let folderPath := path_join DUMPS_DIR folder in
  (folder_complete (fs w) folderPath /\
   processRow env row w = (Returned Skipped, w, [])) \/
  (~ folder_complete (fs w) folderPath /\
   exists res w' evs,
     processRow env row w = (Returned res, w', EvGoto (URL row) :: evs) /\
     res <> Skipped /\
     within folderPath w w' (EvGoto (URL row) :: evs)).
Proof.
  intros Hkey folderPath.
  pose proof (processRow_try_within env row folder folderPath w) as Hin.
  unfold processRow. rewrite Hkey. unfold_bind. unfold bind.
  destruct (alreadyProcessed_spec (path_join DUMPS_DIR folder) w)
    as (b & -> & Hb). fold folderPath in Hb |- *.
  destruct b.
  - left. split; [now apply Hb|reflexivity].
  - right. split; [intros Hc; apply Hb in Hc; discriminate|].
    unfold try_catch.
    destruct (processRow_try_outcome env row folder folderPath w)
      as (r & w' & evs & Hrun & [->|[msg ->]]);
      rewrite Hrun in *; cbn in Hin.
    + exists Processed, w', evs.
      split; [reflexivity|]. split; [discriminate|exact Hin].
    + exists (Failed msg), w', evs. cbn. rewrite app_nil_r.
      split; [reflexivity|]. split; [discriminate|exact Hin].
Qed.

(** C1.  A record whose date yields a folder key is skipped exactly when its
    folder holds [metadata.json] together with at least one entry ending in
    [.jpg] or [.pdf].  A skip leaves the world as it was and emits nothing:
    no navigation, no fetch, no write.  Otherwise -- in particular when only
    [metadata.json] is there -- the record is processed again, starting with
    the navigation to its URL. *)
Theorem processRow_skips_iff_complete env row folder w :
  parseDateToFolder (Date row) = Returned folder ->
  let folderPath := path_join DUMPS_DIR folder in
  ((exists w' evs, processRow env row w = (Returned Skipped, w', evs))
     <-> folder_complete (fs w) folderPath) /\
  (folder_complete (fs w) folderPath ->
     processRow env row w = (Returned Skipped, w, [])) /\
  (~ folder_complete (fs w) folderPath ->
     exists res w' evs,
       processRow env row w = (Returned res, w', EvGoto (URL row) :: evs) /\
       res <> Skipped).
Proof.
  intros Hkey folderPath.
  destruct (processRow_cases env row folder w Hkey)
    as [[Hc Hrun]|[Hc (res & w' & evs & Hrun & Hres & _)]];
    fold folderPath in Hc.
  - repeat split; eauto; tauto.
  - split; [split|split].
    + intros (w2 & evs2 & Hrun2). congruence.
    + tauto.
    + tauto.
    + intros _. eauto.
Qed.

(** ** The download loop of a record *)

Lemma downloadFile_returns env source destPath retries w :
  exists b w' evs, downloadFile env source destPath retries w
                     = (Returned b, w', evs).
Proof.
  unfold downloadFile.
  destruct (downloadFile_loop_spec env source destPath retries retries 1 w
              eq_refl)
    as (b & w' & evs & Hrun & _).
  eauto.
Qed.

(** The loop never raises; the count it returns is the start count plus the
    successes; and each asset is named with the count reached before it. *)
Lemma downloadAssets_spec env F pending :
  forall count w,
    exists total log w' evs,
      downloadAssets env F pending count w = (Returned (total, log), w', evs) /\
      length log = length pending /\
      total = count + successes log /\
      forall i d,
        pending !! i = Some d ->
        exists ok,
          log !! i
            = Some (asset_filename d (count + successes (take i log)), ok).
Proof.
  induction pending as [|download rest IH]; intros count w.
  - exists count, [], w, []. cbn. repeat split; auto.
    intros i d H. destruct i; discriminate.
  - cbn [downloadAssets]. unfold_bind. unfold bind at 1.
    destruct (downloadFile_returns env (url download)
                (file_in F (asset_filename download count)) MAX_RETRIES w)
      as (b & w1 & evs1 & ->).
    unfold bind at 1.
    destruct (IH (if b then S count else count) w1)
      as (total & log & w2 & evs2 & -> & Hlen & Htotal & Hnames).
    cbn [ret].
    exists total, ((asset_filename download count, b) :: log), w2.
    eexists. split; [reflexivity|].
    split; [cbn; lia|]. split.
    + unfold successes in *. cbn [List.filter snd]. destruct b; cbn; lia.
    + intros [|i] d Hd.
      * injection Hd as <-. exists b. cbn. now rewrite Nat.add_0_r.
      * destruct (Hnames i d Hd) as (ok & Hlog). exists ok.
        change (((asset_filename download count, b) :: log) !! S i)
          with (log !! i).
        rewrite Hlog. do 3 f_equal. rewrite firstn_cons.
        unfold successes. cbn [List.filter snd].
        destruct b; cbn; lia.
Qed.

Lemma mkdir_creates env F w w' evs :
  mkdir env F w = (Returned tt, w', evs) -> is_Some (fs w' !! F).
Proof.
  unfold mkdir. destruct (disk_fault env (tick w)); [discriminate|].
  intros [= <- _]. cbn.
  destruct (fs w !! F) eqn:HF; [rewrite HF; eauto|].
  rewrite lookup_insert_eq. eauto.
Qed.

(** ** Persisting the metadata *)

(** C5.  Take a record that is not skipped, whose navigation and extraction
    returned and whose folder was created.  Whatever the network answers to
    the asset fetches -- all of them may fail --, the last thing the record
    does is write [metadata.json]; unless the disk refuses that very write,
    the file then holds the metadata built before the downloads and the
    record counts as processed. *)
Theorem metadata_persisted_unconditionally
    env row folder w finalUrl pageData w1 evs1 w2 evs2 :
  parseDateToFolder (Date row) = Returned folder ->
  let folderPath := path_join DUMPS_DIR folder in
  ~ folder_complete (fs w) folderPath ->
  navigateAndExtract env row w = (Returned (finalUrl, pageData), w1, evs1) ->
  mkdir env folderPath w1 = (Returned tt, w2, evs2) ->
  exists res w' evs3,
    processRow env row w
      = (Returned res, w',
         evs1 ++ evs2 ++ evs3 ++
         [EvWriteFile (file_in folderPath "metadata.json")])%list /\
    (disk_fault env (pred (tick w')) = None ->
       res = Processed /\
       exists entries,
         fs w' !! folderPath = Some entries /\
         entries !! "metadata.json"
           = Some (JsonDoc (build_metadata row folder finalUrl pageData
                                           (clock env (tick w2))))) /\
    (forall msg, disk_fault env (pred (tick w')) = Some msg ->
       res = Failed msg).
Proof.
  intros Hkey folderPath Hincomplete Hnav Hmkdir.
  unfold processRow. rewrite Hkey. unfold_bind. unfold bind at 1.
  destruct (alreadyProcessed_spec folderPath w) as (b & Hcheck & Hb).
  fold folderPath. rewrite Hcheck.
  destruct b; [destruct Hincomplete; now apply Hb|].
  unfold try_catch, processRow_try. unfold_bind. unfold bind at 1.
  rewrite Hnav. unfold bind at 1. rewrite Hmkdir.
  unfold downloadAndPersist. unfold_bind. unfold bind at 1, now.
  unfold bind at 1.
  destruct (downloadAssets_spec env folderPath (downloads pageData) 0 w2)
    as (total & log & w3 & evs3 & Hloop & _).
  pose proof (downloadAssets_within env folderPath (downloads pageData) 0 w2)
    as Hwithin.
  rewrite Hloop in *. cbn in Hwithin. destruct Hwithin as (_ & Hle & _).
  destruct (mkdir_creates _ _ _ _ _ Hmkdir) as [entries2 Hdir2].
  destruct (Hle _ _ Hdir2) as (entries3 & Hdir3 & _).
  unfold bind, writeFile, ret. cbn [dirname basename file_in].
  rewrite Hdir3.
  destruct (disk_fault env (tick w3)) as [msg|] eqn:Hfault.
  - exists (Failed msg). destruct (torn env (tick w3)) as [leftover|];
      eexists; exists evs3; (split;
        [cbn; rewrite ?app_nil_r, <- ?app_assoc; reflexivity|]);
      cbn; rewrite Hfault; (split; [discriminate|]); now intros msg' [= ->].
  - exists Processed. eexists. exists evs3. split.
    + cbn. rewrite ?app_nil_r, <- ?app_assoc. reflexivity.
    + cbn. rewrite Hfault. split; [|discriminate]. intros _.
      split; [reflexivity|]. eexists. rewrite lookup_insert_eq.
      split; [reflexivity|]. now rewrite lookup_insert_eq.
Qed.

(** ** The number in a generic name *)

Lemma ofNat_inj n m : ofNat n = ofNat m -> n = m.
Proof.
  intros H. apply Nat2Z.inj. rewrite <- !decimal_value_ofNat. now rewrite H.
Qed.

Lemma append_inv_tail a b t : a ++ t = b ++ t -> a = b.
Proof.
  revert b. induction a as [|c a IH]; intros [|d b] H.
  - reflexivity.
  - exfalso. apply (f_equal String.length) in H.
    change (String.length t = S (String.length (b ++ t))) in H.
    rewrite length_append in H. lia.
  - exfalso. apply (f_equal String.length) in H.
    change (S (String.length (a ++ t)) = String.length t) in H.
    rewrite length_append in H. lia.
  - change (String c (a ++ t) = String d (b ++ t)) in H.
    injection H as -> H. f_equal. apply IH, H.
Qed.

Lemma generic_name_inj n m :
  "image_" ++ ofNat n ++ ".jpg" = "image_" ++ ofNat m ++ ".jpg" -> n = m.
Proof.
  intros H. cbn in H. injection H as H.
  apply ofNat_inj, (append_inv_tail _ _ ".jpg"), H.
Qed.

Lemma asset_filename_generic d count :
  generic_named d -> asset_filename d count = "image_" ++ ofNat count ++ ".jpg".
Proof.
  intros [Htype Hres]. unfold asset_filename. rewrite Htype.
  destruct Hres as [-> | ->]; reflexivity.
Qed.

Lemma successes_take_lt (log : list (string * bool)) :
  forall i j name,
    i < j -> log !! i = Some (name, true) ->
    successes (take i log) < successes (take j log).
Proof.
  induction log as [|entry log IH]; intros [|i] [|j] name Hij Hi;
    try discriminate; try lia.
  - injection Hi as ->. unfold successes. cbn. lia.
  - change ((entry :: log) !! S i) with (log !! i) in Hi.
    rewrite !firstn_cons. unfold successes in *. cbn [List.filter].
    specialize (IH i j name ltac:(lia) Hi).
    destruct (snd entry); cbn; lia.
Qed.

(** C9.  The number in a generic name is the count of downloads that
    succeeded earlier in the pass, not the position in the list.  So two
    images without resolution are given the same name exactly when no
    download succeeded from the earlier one on up to the later one -- the
    earlier one itself failed, as did those between them --, and the later
    one then writes over whatever the earlier one left under that name: in
    one pass that is the leftover of a refused write, a file the earlier one
    stored being out of reach of the later ones of the same pass; on a later
    pass over the record, where the count starts again, it is the file the
    earlier one had stored.  Both are shown on a record that lists two such
    images with a pdf between them: in the one pass the first image and the
    pdf fail and the second image is written over the leftover of the
    first; in the second of two passes they fail again and the second image
    is written over the file the first image stored in the first pass. *)
Theorem generic_name_counts_successes :
  (forall env F pending w,
     exists total log w' evs,
       downloadAssets env F pending 0 w = (Returned (total, log), w', evs) /\
       length log = length pending /\
       (forall i d,
          pending !! i = Some d -> generic_named d ->
          exists ok,
            log !! i
              = Some ("image_" ++ ofNat (successes (take i log)) ++ ".jpg",
                      ok)) /\
       (forall i j di dj ni nj oki okj,
          i < j ->
          pending !! i = Some di -> generic_named di ->
          pending !! j = Some dj -> generic_named dj ->
          log !! i = Some (ni, oki) -> log !! j = Some (nj, okj) ->
          (ni = nj <-> successes (take i log) = successes (take j log)) /\
          (ni = nj -> oki = false))) /\
  (let first := downloadAssets Gallery.first_writes_refused Gallery.folder
                  (take 1 Gallery.listed) 0 Faults.made in
   let run := downloadAssets Gallery.first_writes_refused Gallery.folder
                Gallery.listed 0 Faults.made in
   first.1.1 = Returned (0, [("image_0.jpg", false)]) /\
   file_at (fs first.1.2) Gallery.folder "image_0.jpg"
     = Some (Binary [Byte.x01]) /\
   run.1.1 = Returned (1, [ ("image_0.jpg", false); ("image.pdf", false);
                            ("image_0.jpg", true) ]) /\
   file_at (fs run.1.2) Gallery.folder "image_0.jpg"
     = Some (Binary Gallery.b_bytes)) /\
  (let pass1 := processRow Gallery.metadata_refused Sample.march_5
                  Sample.fresh in
   let pass2 := processRow Gallery.first_unreachable Sample.march_5
                  pass1.1.2 in
   pass1.1.1 = Returned (Failed "EIO: i/o error") /\
   file_at (fs pass1.1.2) Gallery.folder "image_0.jpg"
     = Some (Binary Gallery.a_bytes) /\
   file_at (fs pass1.1.2) Gallery.folder "image_2.jpg"
     = Some (Binary Gallery.b_bytes) /\
   pass2.1.1 = Returned Processed /\
   fetches pass2.2 = 7 /\
   file_at (fs pass2.1.2) Gallery.folder "image_0.jpg"
     = Some (Binary Gallery.b_bytes)).
Proof.
  split; [|split; [repeat split; reflexivity|repeat split; reflexivity]].
  intros env F pending w.
  destruct (downloadAssets_spec env F pending 0 w)
    as (total & log & w' & evs & Hrun & Hlen & _ & Hnames).
  exists total, log, w', evs. split; [exact Hrun|]. split; [exact Hlen|].
  assert (Hgen : forall i d,
            pending !! i = Some d -> generic_named d ->
            exists ok,
              log !! i
                = Some ("image_" ++ ofNat (successes (take i log)) ++ ".jpg",
                        ok)).
  { intros i d Hd Hg. destruct (Hnames i d Hd) as (ok & Hlog).
    exists ok. now rewrite Hlog, (asset_filename_generic d _ Hg). }
  split; [exact Hgen|].
  intros i j di dj ni nj oki okj Hij Hdi Hgi Hdj Hgj Hli Hlj.
  destruct (Hgen i di Hdi Hgi) as (oki' & Hli').
  destruct (Hgen j dj Hdj Hgj) as (okj' & Hlj').
  rewrite Hli in Hli'. rewrite Hlj in Hlj'.
  injection Hli' as Hni _. injection Hlj' as Hnj _.
  assert (Hiff : ni = nj <->
                 successes (take i log) = successes (take j log)).
  { rewrite Hni, Hnj. split.
    - apply generic_name_inj.
    - now intros ->. }
  split; [exact Hiff|].
  intros Heq. apply Hiff in Heq.
  destruct oki; [exfalso|reflexivity].
  pose proof (successes_take_lt log i j ni Hij Hli) as Hlt. lia.
Qed.

(** ** The batch loop *)

Lemma folder_complete_b_spec disk folderPath :
  folder_complete_b disk folderPath = true <-> folder_complete disk folderPath.
Proof.
  unfold folder_complete_b, folder_complete.
  destruct (disk !! folderPath) as [entries|] eqn:Hdir.
  - destruct (entries !! "metadata.json") as [data|] eqn:Hmeta.
    + rewrite has_asset_spec. split.
      * intros H. exists entries. rewrite Hmeta. eauto.
      * intros (entries' & [= <-] & _ & H). exact H.
    + split; [discriminate|].
      intros (entries' & [= <-] & [data Hdata] & _). congruence.
  - split; [discriminate|]. intros (entries' & [=] & _).
Qed.

Lemma row_complete_mono d1 d2 row :
  disk_le d1 d2 -> row_complete d1 row = true -> row_complete d2 row = true.
Proof.
  unfold row_complete. intros Hle.
  destruct (parseDateToFolder (Date row)); [|discriminate].
  rewrite !folder_complete_b_spec. now apply folder_complete_mono.
Qed.

Lemma count_complete_mono d1 d2 records :
  disk_le d1 d2 ->
  length (List.filter (row_complete d1) records)
    <= length (List.filter (row_complete d2) records).
Proof.
  intros Hle. induction records as [|row rest IH]; [reflexivity|].
  cbn [List.filter].
  destruct (row_complete d1 row) eqn:H1.
  - rewrite (row_complete_mono d1 d2 row Hle H1). cbn. lia.
  - destruct (row_complete d2 row); cbn; lia.
Qed.

Lemma tally_count stats result :
  tally (count_result stats result) = S (tally stats).
Proof. unfold tally, count_result. destruct result; cbn; lia. Qed.

(** The loop over records that all have a folder key: it returns, it has
    counted every record once, it removed nothing from the disk, it left the
    folders that were complete at the start alone, and it skipped at least
    the records that were complete at the start. *)
Lemma main_loop_spec env records :
  Forall has_key records ->
  forall stats w,
    exists stats' w' evs,
      main_loop env records stats w = (Returned stats', w', evs) /\
      tally stats' = tally stats + length records /\
      disk_le (fs w) (fs w') /\
      (forall F, folder_complete (fs w) F ->
         fs w' !! F = fs w !! F /\
         forall p, In (EvWriteFile p) evs -> dirname p <> F) /\
      skipped_count stats
        + length (List.filter (row_complete (fs w)) records)
        <= skipped_count stats' /\
      (forallb (row_complete (fs w)) records = true ->
         w' = w /\ evs = [] /\
         processed stats' = processed stats /\ failed stats' = failed stats).
Proof.
  induction 1 as [|row rest [folder Hkey] _ IH]; intros stats w.
  - exists stats, w, []. cbn. repeat split; auto using disk_le_refl; try lia.
  - cbn [main_loop]. unfold_bind. unfold bind at 1.
    assert (Hrc : row_complete (fs w) row = true <->
                  folder_complete (fs w) (path_join DUMPS_DIR folder)).
    { unfold row_complete. rewrite Hkey. apply folder_complete_b_spec. }
    destruct (processRow_cases env row folder w Hkey)
      as [[Hc ->]|[Hc (res & w1 & evs1 & -> & Hres & Hin)]].
    + (* skipped: no wait, on with the rest *)
      cbn [skipped negb andb]. unfold bind at 1, ret at 1.
      destruct (IH (count_result stats Skipped) w)
        as (stats' & w' & evs & -> & Htally & Hle & Hkeep & Hskip & Hall).
      exists stats', w', evs. split; [reflexivity|].
      rewrite tally_count in Htally. cbn [length List.filter forallb].
      apply Hrc in Hc. rewrite Hc. cbn [length andb] in *.
      split; [lia|]. split; [exact Hle|]. split; [exact Hkeep|].
      split; [cbn in Hskip; lia|].
      intros Hrest. destruct (Hall Hrest) as (-> & -> & Hp & Hf).
      cbn in Hp, Hf. auto.
    + (* processed or failed: a wait unless this was the last record *)
      assert (Hnot : row_complete (fs w) row = false).
      { destruct (row_complete (fs w) row) eqn:E; [|reflexivity].
        destruct Hc. now apply Hrc. }
      destruct Hin as (Hother & Hle1 & Hwrites).
      assert (Hsk : skipped res = false)
        by (destruct res; [destruct Hres|..]; reflexivity).
      rewrite Hsk. cbn [negb andb].
      set (pause := if negb (length rest =? 0)%nat then delay DELAY_MS
                    else ret tt).
      assert (Hpause : exists w2 evs2,
                pause w1 = (Returned tt, w2, evs2) /\ fs w2 = fs w1 /\
                forall p, ~ In (EvWriteFile p) evs2).
      { unfold pause. destruct (negb (length rest =? 0)%nat).
        - do 2 eexists. split; [reflexivity|]. split; [reflexivity|].
          intros p [H|[]]. discriminate.
        - do 2 eexists. split; [reflexivity|]. split; [reflexivity|].
          intros p []. }
      destruct Hpause as (w2 & evs2 & Hp & Hfs2 & Hev2).
      unfold bind at 1. rewrite Hp.
      destruct (IH (count_result stats res) w2)
        as (stats' & w' & evs & -> & Htally & Hle & Hkeep & Hskip & Hall).
      exists stats', w'. eexists. split; [reflexivity|].
      rewrite tally_count in Htally. rewrite Hfs2 in *.
      cbn [length List.filter forallb]. rewrite Hnot. cbn [andb].
      pose proof (count_complete_mono (fs w) (fs w1) rest Hle1) as Hcount.
      assert (Hsame : skipped_count (count_result stats res)
                      = skipped_count stats).
      { unfold count_result. destruct res; [destruct Hres|..]; reflexivity. }
      split; [lia|]. split; [eapply disk_le_trans; eassumption|].
      split; [|split; [lia|discriminate]].
      intros F HF.
      assert (Hne : F <> path_join DUMPS_DIR folder) by congruence.
      destruct (Hkeep F (folder_complete_mono _ _ _ Hle1 HF)) as [Hsame' Hw'].
      split.
      * rewrite Hsame'. apply Hother, Hne.
      * intros p [Hp1|[Hp2|Hp3]%in_app_iff]%in_app_iff.
        -- rewrite (Hwrites p Hp1). congruence.
        -- destruct (Hev2 p Hp2).
        -- now apply Hw'.
Qed.

Lemma bind_returned {A B} (m : M A) (k : A -> M B) w b w' evs :
  bind m k w = (Returned b, w', evs) ->
  exists a w1 evs1 evs2,
    m w = (Returned a, w1, evs1) /\ k a w1 = (Returned b, w', evs2) /\
    evs = (evs1 ++ evs2)%list.
Proof.
  unfold bind. destruct (m w) as [[[a|msg] w1] evs1]; [|discriminate].
  destruct (k a w1) as [[r w2] evs2] eqn:Hk. intros [= -> -> <-].
  exists a, w1, evs1, evs2. auto.
Qed.

Lemma main_loop_returns_keys env records :
  forall stats w stats' w' evs,
    main_loop env records stats w = (Returned stats', w', evs) ->
    Forall has_key records.
Proof.
  induction records as [|row rest IH]; intros stats w stats' w' evs Hrun;
    [constructor|].
  cbn [main_loop] in Hrun. unfold mbind, M_bind in Hrun.
  apply bind_returned in Hrun as (res & w1 & evs1 & evs2 & Hrow & Hrun & _).
  apply bind_returned in Hrun as (u & w2 & evs3 & evs4 & _ & Hrest & _).
  constructor; [|eapply IH, Hrest].
  unfold processRow in Hrow. unfold has_key.
  destruct (parseDateToFolder (Date row)) as [folder|msg]; [eauto|].
  discriminate.
Qed.

Lemma processRow_guard env row folder w :
  parseDateToFolder (Date row) = Returned folder ->
  ~ folder_complete (fs w) (path_join DUMPS_DIR folder) ->
  processRow env row w
    = try_catch (processRow_try env row folder (path_join DUMPS_DIR folder))
                (fun msg => ret (Failed msg)) w.
Proof.
  intros Hkey Hc. unfold processRow. rewrite Hkey. unfold_bind.
  unfold bind.
  destruct (alreadyProcessed_spec (path_join DUMPS_DIR folder) w)
    as (b & -> & Hb).
  destruct b; [destruct Hc; now apply Hb|].
  destruct (try_catch _ _ w) as [[r w'] evs]. reflexivity.
Qed.

(** What is contained.  In a batch whose records all have a folder key:
    whatever is raised by the navigation and extraction, by the creation of
    the folder, or by the downloads and the writing of the metadata,
    [processRow] returns the failure result carrying the message; after a
    failure the loop goes on with the remaining records and one more failure
    counted; and the whole loop returns with processed + skipped + failed
    equal to the number of records. *)
Theorem record_errors_contained env records w :
  Forall has_key records ->
  (forall row folder w0,
     parseDateToFolder (Date row) = Returned folder ->
     let F := path_join DUMPS_DIR folder in
     ~ folder_complete (fs w0) F ->
     (forall msg w1 evs1,
        navigateAndExtract env row w0 = (Threw msg, w1, evs1) ->
        processRow env row w0 = (Returned (Failed msg), w1, evs1)) /\
     (forall finalUrl pageData w1 evs1 msg w2 evs2,
        navigateAndExtract env row w0
          = (Returned (finalUrl, pageData), w1, evs1) ->
        mkdir env F w1 = (Threw msg, w2, evs2) ->
        processRow env row w0
          = (Returned (Failed msg), w2, (evs1 ++ evs2)%list)) /\
     (forall finalUrl pageData w1 evs1 w2 evs2 msg w3 evs3,
        navigateAndExtract env row w0
          = (Returned (finalUrl, pageData), w1, evs1) ->
        mkdir env F w1 = (Returned tt, w2, evs2) ->
        downloadAndPersist env row folder F finalUrl pageData w2
          = (Threw msg, w3, evs3) ->
        processRow env row w0
          = (Returned (Failed msg), w3, (evs1 ++ evs2 ++ evs3)%list))) /\
  (forall row rest stats w0 msg w1 evs1,
     processRow env row w0 = (Returned (Failed msg), w1, evs1) ->
     main_loop env (row :: rest) stats w0
       = let '(r, w', evs') :=
           ((if negb (length rest =? 0)%nat then delay DELAY_MS else ret tt);;
            main_loop env rest
              {| processed := processed stats;
                 skipped_count := skipped_count stats;
                 failed := S (failed stats) |}) w1 in
         (r, w', (evs1 ++ evs')%list)) /\
  exists stats w' evs,
    stage1 env records w = (Returned stats, w', evs) /\
    processed stats + skipped_count stats + failed stats = length records.
Proof.
  intros Hkeys. split; [|split].
  - intros row folder w0 Hkey F Hc. repeat split.
    + intros msg w1 evs1 Hnav.
      rewrite (processRow_guard env row folder w0 Hkey Hc).
      unfold try_catch, processRow_try. unfold_bind. unfold bind.
      rewrite Hnav. cbn. now rewrite app_nil_r.
    + intros finalUrl pageData w1 evs1 msg w2 evs2 Hnav Hmk.
      rewrite (processRow_guard env row folder w0 Hkey Hc).
      unfold try_catch, processRow_try. unfold_bind. unfold bind.
      rewrite Hnav. fold F. rewrite Hmk. cbn. now rewrite app_nil_r.
    + intros finalUrl pageData w1 evs1 w2 evs2 msg w3 evs3 Hnav Hmk Hdp.
      rewrite (processRow_guard env row folder w0 Hkey Hc).
      unfold try_catch, processRow_try. unfold_bind. unfold bind.
      rewrite Hnav. fold F. rewrite Hmk, Hdp. cbn. now rewrite app_nil_r.
  - intros row rest stats w0 msg w1 evs1 Hrun.
    cbn [main_loop]. unfold_bind. unfold bind at 1. rewrite Hrun.
    reflexivity.
  - destruct (main_loop_spec env records Hkeys
                {| processed := 0; skipped_count := 0; failed := 0 |} w)
      as (stats & w' & evs & Hrun & Htally & _).
    exists stats, w', evs. split; [exact Hrun|exact Htally].
Qed.

(** ** A record without a folder key *)

Lemma parseDateToFolder_raises dateStr msg :
  parseDateToFolder dateStr = Threw msg ->
  msg = "Cannot read properties of undefined (reading 'padStart')".
Proof.
  unfold parseDateToFolder.
  destruct (nth_error (split " " dateStr) 1); now intros [=].
Qed.

Lemma processRow_returns_or_raises env row w :
  (exists res w' evs, processRow env row w = (Returned res, w', evs)) \/
  processRow env row w
    = (Threw "Cannot read properties of undefined (reading 'padStart')", w, []).
Proof.
  destruct (parseDateToFolder (Date row)) as [folder|msg] eqn:Hkey.
  - left.
    destruct (processRow_cases env row folder w Hkey)
      as [[_ Hrun]|(_ & res & w' & evs & Hrun & _)]; eauto.
  - right. unfold processRow. rewrite Hkey.
    now rewrite (parseDateToFolder_raises _ _ Hkey).
Qed.

(** C8.  The errors of a record are not all contained.  The folder key is
    computed on line 179, before the [try] of lines 202-286: a record whose
    date text holds no space -- an empty date cell, a single word -- makes
    [processRow] itself raise.  Wherever such a record stands in the batch,
    the loop ends there with the exception: no failure is counted, the
    records after it are not processed, and no counts are returned. *)
Theorem keyless_record_aborts_batch :
  (forall env row w,
     no_char " " (Date row) = true ->
     processRow env row w
       = (Threw "Cannot read properties of undefined (reading 'padStart')",
          w, [])) /\
  (forall env records stats w,
     Exists (fun row => no_char " " (Date row) = true) records ->
     exists w' evs,
       main_loop env records stats w
         = (Threw "Cannot read properties of undefined (reading 'padStart')",
            w', evs)) /\
  stage1 Sample.online [undated; Sample.march_5] Sample.fresh
    = (Threw "Cannot read properties of undefined (reading 'padStart')",
       Sample.fresh, []) /\
  (let run := stage1 Sample.online [Sample.march_5; undated; Sample.july_4]
                     Sample.fresh in
   run.1.1 = Threw "Cannot read properties of undefined (reading 'padStart')"
   /\ ~ In (EvGoto (URL Sample.july_4)) run.2).
Proof.
  assert (Hrow : forall env row w,
            no_char " " (Date row) = true ->
            processRow env row w
              = (Threw "Cannot read properties of undefined (reading 'padStart')",
                 w, [])).
  { intros env row w Hno. unfold processRow, parseDateToFolder.
    now rewrite (split_no_sep _ _ Hno). }
  split; [exact Hrow|]. split; [|split; [reflexivity|]].
  2:{ split; [reflexivity|]. vm_compute. intuition discriminate. }
  intros env records. induction records as [|row rest IH];
    intros stats w Hex; [inversion Hex|].
  cbn [main_loop]. unfold_bind. unfold bind at 1.
  destruct (processRow_returns_or_raises env row w)
    as [(res & w1 & evs1 & Hrun)|Hrun].
  - assert (Hrest : Exists (fun row => no_char " " (Date row) = true) rest).
    { apply Exists_cons in Hex as [Hno|Hrest]; [|exact Hrest].
      rewrite (Hrow env row w Hno) in Hrun. discriminate. }
    rewrite Hrun.
    set (stats1 := count_result stats res).
    destruct (negb (skipped res) && negb (length rest =? 0)%nat).
    + unfold bind at 1, delay, emit.
      destruct (IH stats1 {| fs := fs w1; page := page w1;
                             tick := S (tick w1) |} Hrest)
        as (w' & evs & Hloop).
      unfold bind. rewrite Hloop. eauto.
    + unfold bind at 1, ret.
      destruct (IH stats1 w1 Hrest) as (w' & evs & Hloop).
      unfold bind. rewrite Hloop. eauto.
  - rewrite Hrun. eauto.
Qed.

(** C4.  Run stage 1 once, then again on the disk the first run left, with
    any answers from the browser and the network.  Every record whose folder
    was complete after the first run is skipped in the second, whenever its
    turn comes: nothing is fetched or written for it, its folder is left as
    it was, and it is counted as skipped; only records whose folder was not
    complete can be counted as processed or failed.  When every folder was
    complete the second run does nothing at all. *)
Theorem second_run_skips_completed env1 env2 records w0 stats1 w1 evs1 :
  stage1 env1 records w0 = (Returned stats1, w1, evs1) ->
  exists stats2 w2 evs2,
    stage1 env2 records w1 = (Returned stats2, w2, evs2) /\
    (forall row folder,
       In row records ->
       parseDateToFolder (Date row) = Returned folder ->
       let F := path_join DUMPS_DIR folder in
       folder_complete (fs w1) F ->
       (forall env w, disk_le (fs w1) (fs w) ->
          processRow env row w = (Returned Skipped, w, [])) /\
       fs w2 !! F = fs w1 !! F /\
       (forall p, In (EvWriteFile p) evs2 -> dirname p <> F)) /\
    length (List.filter (row_complete (fs w1)) records)
      <= skipped_count stats2 /\
    processed stats2 + failed stats2
      <= length (List.filter (fun row => negb (row_complete (fs w1) row))
                             records) /\
    (forallb (row_complete (fs w1)) records = true ->
       w2 = w1 /\ evs2 = [] /\
       stats2 = {| processed := 0; skipped_count := length records;
                   failed := 0 |}).
Proof.
  intros Hfirst. unfold stage1 in *.
  pose proof (main_loop_returns_keys _ _ _ _ _ _ _ Hfirst) as Hkeys.
  destruct (main_loop_spec env2 records Hkeys
              {| processed := 0; skipped_count := 0; failed := 0 |} w1)
    as (stats2 & w2 & evs2 & Hrun & Htally & Hle & Hkeep & Hskip & Hall).
  exists stats2, w2, evs2. split; [exact Hrun|].
  unfold tally in Htally. cbn in Htally, Hskip.
  pose proof (List.filter_length (row_complete (fs w1)) records) as Hsplit.
  split; [|split; [exact Hskip|split; [lia|]]].
  - intros row folder Hin Hkey Hc. split; [|apply Hkeep, Hc].
    intros env w Hdisk.
    destruct (processRow_cases env row folder w Hkey) as [[_ H]|[Hnot _]];
      [exact H|].
    destruct Hnot. eapply folder_complete_mono; eassumption.
  - intros Hcomplete. destruct (Hall Hcomplete) as (-> & -> & Hp & Hf).
    cbn in Hp, Hf. repeat split.
    destruct stats2 as [p s f]. cbn in *. f_equal; lia.
Qed.

(** ** Stage 2: the precondition on the metadata *)

Lemma enriched_check folderPath w :
  try_catch (bind (access (file_in folderPath "video-content.json"))
                  (fun _ => ret true))
            (fun _ => ret false) w
    = (Returned (bool_decide
                   (is_Some (file_at (fs w) folderPath "video-content.json"))),
       w, []).
Proof.
  unfold file_at, access. run_step. cbn [dirname basename file_in].
  destruct (fs w !! folderPath) as [entries|]; [|reflexivity].
  destruct (entries !! "video-content.json"); reflexivity.
Qed.

Lemma readJson_file_at p w :
  readJson p w
    = (match file_at (fs w) (dirname p) (basename p) with
       | Some (JsonDoc v) => Returned v
       | Some (Binary _) => Threw "Unexpected token in JSON"
       | None => Threw "ENOENT: no such file or directory"
       end, w, []).
Proof.
  unfold readJson, file_at.
  destruct (fs w !! dirname p) as [entries|]; [|reflexivity].
  destruct (entries !! basename p) as [[bytes|v]|]; reflexivity.
Qed.

(** What [processFolder] does up to the test of [metadata.finalUrl]. *)
Lemma processFolder_until_guard env folderPath w :
  file_at (fs w) folderPath "video-content.json" = None ->
  Enrich.processFolder env folderPath w
    = match file_at (fs w) folderPath "metadata.json" with
      | Some (JsonDoc metadata) =>
          match Enrich.get metadata "finalUrl" with
          | Threw msg => (Threw msg, w, [])
          | Returned finalUrl =>
              if negb (Enrich.truthy finalUrl)
              then (Returned (Failed "No finalUrl"), w, [])
              else try_catch (Enrich.processFolder_try env folderPath metadata)
                             (fun msg => ret (Failed msg)) w
          end
      | _ => (Returned (Failed "No metadata"), w, [])
      end.
Proof.
  intros Hfresh. unfold Enrich.processFolder. unfold_bind. unfold bind at 1.
  rewrite enriched_check, Hfresh. cbn [bool_decide decide_rel].
  rewrite bool_decide_eq_false_2 by (intros [? [=]]).
  unfold bind at 1, settle. rewrite readJson_file_at.
  cbn [dirname basename file_in].
  destruct (file_at (fs w) folderPath "metadata.json") as [[bytes|v]|];
    try reflexivity.
  unfold bind at 1.
  destruct (Enrich.get v "finalUrl") as [finalUrl|msg]; [|reflexivity].
  destruct (negb (Enrich.truthy finalUrl)); [reflexivity|].
  destruct (try_catch _ _ w) as [[r w'] evs]. reflexivity.
Qed.

(** A folder that is not enriched yet and whose metadata cannot serve: with
    no metadata document the record fails with [No metadata]; with a
    document other than [null] whose [finalUrl] is missing or falsy it fails
    with [No finalUrl].  Either way nothing is navigated to and nothing is
    written. *)
Lemma processFolder_precondition env folderPath w :
  file_at (fs w) folderPath "video-content.json" = None ->
  (file_at (fs w) folderPath "metadata.json" = None ->
   Enrich.processFolder env folderPath w
     = (Returned (Failed "No metadata"), w, [])) /\
  (forall metadata,
     file_at (fs w) folderPath "metadata.json" = Some (JsonDoc metadata) ->
     metadata <> JNull ->
     Enrich.truthy (Enrich.prop metadata "finalUrl") = false ->
     Enrich.processFolder env folderPath w
       = (Returned (Failed "No finalUrl"), w, [])).
Proof.
  intros Hfresh. rewrite (processFolder_until_guard env folderPath w Hfresh).
  split.
  - intros ->. reflexivity.
  - intros metadata -> Hnull Hfalsy.
    destruct metadata; try congruence; cbn in Hfalsy |- *;
      try reflexivity.
    now rewrite Hfalsy.
Qed.

(** The test of [metadata.finalUrl] reads a property of [null] when the
    metadata document is the JSON literal [null]: the TypeError leaves
    [processFolder], and with it the loop over the folders. *)
Lemma processFolder_null_raises env folderPath w :
  file_at (fs w) folderPath "video-content.json" = None ->
  file_at (fs w) folderPath "metadata.json" = Some (JsonDoc JNull) ->
  Enrich.processFolder env folderPath w
    = (Threw "Cannot read properties of null (reading 'finalUrl')", w, []).
Proof.
  intros Hfresh Hnull.
  rewrite (processFolder_until_guard env folderPath w Hfresh), Hnull.
  reflexivity.
Qed.

(** C6, where the code departs from it.  The folder [03-05] holds a
    [metadata.json] whose content is [null] -- present, and without any
    [finalUrl].  [processFolder] does not return the [No finalUrl] failure:
    it raises, no failure is counted, and the batch ends before the next
    folder is looked at.  (Nothing is navigated to or written.) *)
Theorem processFolder_null_metadata_aborts :
  Enrich.processFolder Sample.online "./dumps/03-05" Sample.null_metadata
    = (Threw "Cannot read properties of null (reading 'finalUrl')",
       Sample.null_metadata, []) /\
  Enrich.main_loop Sample.online ["./dumps/03-05"; "./dumps/07-04"]
                   Sample.no_stats Sample.null_metadata
    = (Threw "Cannot read properties of null (reading 'finalUrl')",
       Sample.null_metadata, []).
Proof. split; reflexivity. Qed.

Example processFolder_no_final_url :
  Enrich.processFolder Sample.online "./dumps/03-05" Sample.no_final_url
    = (Returned (Failed "No finalUrl"), Sample.no_final_url, []).
Proof. reflexivity. Qed.

(** C10.  A folder that is not enriched yet and whose [metadata.json] is
    there but is not JSON gets the very result of a folder without
    [metadata.json]: the failure [No metadata], the world as it was, no
    event -- so no navigation and no [video-content.json]. *)
Theorem unreadable_metadata_is_no_metadata env folderPath absent corrupt bytes :
  file_at (fs absent) folderPath "video-content.json" = None ->
  file_at (fs corrupt) folderPath "video-content.json" = None ->
  file_at (fs absent) folderPath "metadata.json" = None ->
  file_at (fs corrupt) folderPath "metadata.json" = Some (Binary bytes) ->
  Enrich.processFolder env folderPath absent
    = (Returned (Failed "No metadata"), absent, []) /\
  Enrich.processFolder env folderPath corrupt
    = (Returned (Failed "No metadata"), corrupt, []).
Proof.
  intros Ha Hc Hma Hmc.
  rewrite (processFolder_until_guard env folderPath absent Ha), Hma.
  rewrite (processFolder_until_guard env folderPath corrupt Hc), Hmc.
  split; reflexivity.
Qed.

Lemma unreadable_metadata_is_no_metadata_witness :
  Enrich.processFolder Sample.online "./dumps/03-05" Sample.fresh
    = (Returned (Failed "No metadata"), Sample.fresh, []) /\
  Enrich.processFolder Sample.online "./dumps/03-05" Sample.torn_metadata
    = (Returned (Failed "No metadata"), Sample.torn_metadata, []).
Proof.
  apply (unreadable_metadata_is_no_metadata Sample.online "./dumps/03-05"
           Sample.fresh Sample.torn_metadata []); reflexivity.
Defined.

(** ** The statements at sample inputs *)

Lemma processRow_skips_iff_complete_witness :
  parseDateToFolder (Date Sample.march_5) = Returned "03-05" /\
  processRow Sample.online Sample.march_5 Sample.finished
    = (Returned Skipped, Sample.finished, []).
Proof.
  split; [reflexivity|].
  destruct (processRow_skips_iff_complete Sample.online Sample.march_5
              "03-05" Sample.finished eq_refl) as (_ & Hskip & _).
  apply Hskip. eexists. split; [reflexivity|].
  split; [eexists; reflexivity|].
  exists "full.jpg", "full". split; [eexists; reflexivity|left; reflexivity].
Defined.

(** With only [metadata.json] in the folder the record is processed again. *)
Example processRow_reprocesses_metadata_only :
  let w := Sample.on_disk
             {[ "./dumps/03-05" :=
                  {[ "metadata.json" := JsonDoc (JObject []) ]} ]} in
  (processRow Sample.online Sample.march_5 w).1.1 = Returned Processed /\
  (processRow Sample.online Sample.march_5 w).2
    = [ EvGoto "https://example.org/X"; EvDelay 500;
        EvMkdir "./dumps/03-05";
        EvFetch "https://example.org/full.jpg";
        EvWriteFile (file_in "./dumps/03-05" "full.jpg");
        EvFetch "https://example.org/print.pdf";
        EvWriteFile (file_in "./dumps/03-05" "image.pdf");
        EvWriteFile (file_in "./dumps/03-05" "metadata.json") ].
Proof. split; reflexivity. Qed.

(** Three refused fetches, two waits, [false], and the disk as it was. *)
Example downloadFile_gives_up :
  downloadFile Sample.offline "https://example.org/a.jpg"
               (file_in "./dumps/03-05" "full.jpg") MAX_RETRIES
               (Sample.on_disk {[ "./dumps/03-05" := ∅ ]})
    = (Returned false,
       {| fs := {[ "./dumps/03-05" := ∅ ]}; page := Sample.blank; tick := 5 |},
       [ EvFetch "https://example.org/a.jpg"; EvDelay 500;
         EvFetch "https://example.org/a.jpg"; EvDelay 1000;
         EvFetch "https://example.org/a.jpg" ]).
Proof. reflexivity. Qed.

Lemma metadata_persisted_unconditionally_witness :
  exists res w' evs,
    processRow Sample.assets_down Sample.march_5 Sample.fresh
      = (Returned res, w', evs) /\
    res = Processed /\
    exists entries,
      fs w' !! "./dumps/03-05" = Some entries /\
      is_Some (entries !! "metadata.json").
Proof.
  assert (Hnot : ~ folder_complete (fs Sample.fresh)
                     (path_join DUMPS_DIR "03-05")).
  { intros (entries & Hdir & _). vm_compute in Hdir. discriminate. }
  destruct (metadata_persisted_unconditionally Sample.assets_down
              Sample.march_5 "03-05" Sample.fresh _ _ _ _ _ _
              eq_refl Hnot eq_refl eq_refl)
    as (res & w' & evs3 & Hrun & Hok & _).
  destruct (Hok eq_refl) as (Hres & entries & Hdir & Hmeta).
  exists res, w'. eexists. split; [exact Hrun|]. split; [exact Hres|].
  exists entries. split; [exact Hdir|]. eexists. exact Hmeta.
Defined.

(** Every fetch refused: six fetches, no asset on disk, and the metadata
    file written all the same. *)
Example metadata_written_when_all_downloads_fail :
  let run := processRow Sample.assets_down Sample.march_5 Sample.fresh in
  run.1.1 = Returned Processed /\
  fetches run.2 = 6 /\
  map fst (map_to_list (default ∅ (fs run.1.2 !! "./dumps/03-05")))
    = ["metadata.json"].
Proof. repeat split; reflexivity. Qed.

Lemma record_errors_contained_witness :
  exists stats w' evs,
    stage1 Sample.offline [Sample.march_5; Sample.july_4] Sample.fresh
      = (Returned stats, w', evs) /\
    processed stats + skipped_count stats + failed stats = 2.
Proof.
  apply (record_errors_contained Sample.offline
           [Sample.march_5; Sample.july_4] Sample.fresh).
  repeat constructor; eexists; reflexivity.
Defined.

(** Two records, nothing reachable: both fail, and the loop went through. *)
Example batch_survives_failures :
  (stage1 Sample.offline [Sample.march_5; Sample.july_4] Sample.fresh).1.1
    = Returned {| processed := 0; skipped_count := 0; failed := 2 |}.
Proof. reflexivity. Qed.

(** A record whose date is a single word raises before the guarded body:
    the loop ends there. *)
Example batch_aborts_on_keyless_date :
  (stage1 Sample.online
          [ {| Date := "January"; URL := ""; Name := ""; Caption := "";
               Year := ""; Image := "" |}; Sample.march_5 ]
          Sample.fresh).1.1
    = Threw "Cannot read properties of undefined (reading 'padStart')".
Proof. reflexivity. Qed.

Lemma second_run_skips_completed_witness :
  let after_first :=
    (stage1 Sample.online [Sample.march_5] Sample.fresh).1.2 in
  exists stats2 w2 evs2,
    stage1 Sample.offline [Sample.march_5] after_first
      = (Returned stats2, w2, evs2) /\
    w2 = after_first /\ evs2 = [] /\
    stats2 = {| processed := 0; skipped_count := 1; failed := 0 |}.
Proof.
  intros after_first.
  assert (Hfirst : stage1 Sample.online [Sample.march_5] Sample.fresh
            = (Returned {| processed := 1; skipped_count := 0; failed := 0 |},
               after_first,
               (stage1 Sample.online [Sample.march_5] Sample.fresh).2))
    by (vm_compute; reflexivity).
  destruct (second_run_skips_completed Sample.online Sample.offline
              [Sample.march_5] Sample.fresh _ _ _ Hfirst)
    as (stats2 & w2 & evs2 & Hrun & _ & _ & _ & Hall).
  exists stats2, w2, evs2. split; [exact Hrun|].
  apply Hall. vm_compute. reflexivity.
Defined.

(** The scenario of the specification: one record, a redirect from X to Y,
    a jpg of 3000x2400 and a pdf. *)
Example end_to_end_march_5 :
  let run := stage1 Sample.online [Sample.march_5] Sample.fresh in
  let folder := default ∅ (fs run.1.2 !! "./dumps/03-05") in
  run.1.1 = Returned {| processed := 1; skipped_count := 0; failed := 0 |} /\
  is_Some (folder !! "full.jpg") /\
  is_Some (folder !! "image.pdf") /\
  exists props,
    folder !! "metadata.json" = Some (JsonDoc (JObject props)) /\
    Enrich.lookup_prop props "finalUrl"
      = Some (JString "https://example.org/Y") /\
    exists items,
      Enrich.lookup_prop props "downloads" = Some (JArray items) /\
      length items = 2.
Proof.
  cbv zeta. split; [reflexivity|]. split; [eexists; reflexivity|].
  split; [eexists; reflexivity|].
  eexists. split; [reflexivity|]. split; [reflexivity|].
  eexists. split; reflexivity.
Qed.

(** The first image fails, the second is stored: both were named
    [image_0.jpg], and one file was written. *)
Example same_generic_name_after_failure :
  (downloadAssets (Sample.only "https://example.org/b.jpg") "./dumps/03-05"
     [ Sample.plain_image "https://example.org/a.jpg";
       Sample.plain_image "https://example.org/b.jpg" ] 0
     (Sample.on_disk {[ "./dumps/03-05" := ∅ ]})).1.1
    = Returned (1, [("image_0.jpg", false); ("image_0.jpg", true)]).
Proof. reflexivity. Qed.

(** The number is not the position: the image in second place is number 0
    when the pdf before it failed. *)
Example generic_name_is_not_position :
  (downloadAssets (Sample.only "https://example.org/b.jpg") "./dumps/03-05"
     [ Sample.document_pdf; Sample.plain_image "https://example.org/b.jpg" ] 0
     (Sample.on_disk {[ "./dumps/03-05" := ∅ ]})).1.1
    = Returned (1, [("image.pdf", false); ("image_0.jpg", true)]).
Proof. reflexivity. Qed.

(** * Further properties of the code *)

(** ** The date key: when it raises *)

Lemma split_single sep s :
  no_char sep s = true <-> exists w, split sep s = [w].
Proof.
  split.
  - intros H. exists s. apply split_no_sep, H.
  - induction s as [|c s IH]; [reflexivity|].
    intros [w Hw]. cbn [split] in Hw. rewrite no_char_cons.
    pose proof (split_nonempty sep s) as Hne.
    destruct (Ascii.eqb c sep) eqn:Hc.
    + injection Hw as _ Hw. congruence.
    + cbn [negb andb]. apply IH.
      destruct (split sep s) as [|w' ws]; [congruence|].
      injection Hw as _ ->. eauto.
Qed.

(** X1.  [parseDateToFolder] raises exactly on a date text without any
    space; on every other text it returns a key, whatever the words are. *)
Theorem parseDateToFolder_raises_iff_no_space dateStr :
  (no_char " " dateStr = true ->
   parseDateToFolder dateStr
     = Threw "Cannot read properties of undefined (reading 'padStart')") /\
  (no_char " " dateStr = false ->
   exists key, parseDateToFolder dateStr = Returned key) /\
  ((exists msg, parseDateToFolder dateStr = Threw msg)
     <-> no_char " " dateStr = true).
Proof.
  assert (Hyes : no_char " " dateStr = true ->
            parseDateToFolder dateStr
              = Threw "Cannot read properties of undefined (reading 'padStart')").
  { intros H. unfold parseDateToFolder. now rewrite (split_no_sep _ _ H). }
  assert (Hno : no_char " " dateStr = false ->
            exists key, parseDateToFolder dateStr = Returned key).
  { intros H. unfold parseDateToFolder.
    pose proof (split_nonempty " " dateStr) as Hne.
    destruct (split " " dateStr) as [|w [|w' ws]] eqn:Hs; [congruence| |].
    - assert (no_char " " dateStr = true) by (apply split_single; eauto).
      congruence.
    - cbn [nth_error]. eauto. }
  split; [exact Hyes|]. split; [exact Hno|]. split.
  - intros [msg Hthrow].
    destruct (no_char " " dateStr) eqn:E; [reflexivity|].
    destruct (Hno eq_refl) as [key Hkey]. congruence.
  - intros H. eauto.
Qed.

(** ** Which files a run touches *)

Section TouchesOnly.

Variable S : string -> string -> Prop.

Lemma touches_only_unit w : touches_only S w w [].
Proof. repeat split; auto. intros p []. Qed.

Lemma touches_only_compose w1 w2 w3 evs1 evs2 :
  touches_only S w1 w2 evs1 -> touches_only S w2 w3 evs2 ->
  touches_only S w1 w3 (evs1 ++ evs2).
Proof.
  intros (Ha1 & Hb1 & Hc1) (Ha2 & Hb2 & Hc2). repeat split.
  - intros dir name HS. rewrite Ha2, Ha1; auto.
  - auto.
  - intros p [H|H]%in_app_iff; auto.
Qed.

Lemma reads_only_touches w w' evs :
  reads_only w w' evs -> touches_only S w w' evs.
Proof.
  intros [Hfs Hev]. repeat split.
  - intros dir name _. now rewrite Hfs.
  - now rewrite Hfs.
  - intros p Hp. destruct (Hev p Hp).
Qed.

Lemma mkdir_touches env dir : keeps (touches_only S) (mkdir env dir).
Proof.
  intros w. unfold mkdir.
  assert (Hev : forall p, In (EvWriteFile p) [EvMkdir dir] ->
                          S (dirname p) (basename p)).
  { intros p [H|[]]. discriminate. }
  destruct (disk_fault env (tick w)) as [msg|]; cbn; [repeat split; auto|].
  destruct (fs w !! dir) as [entries|] eqn:Hdir; cbn; [repeat split; auto|].
  repeat split; auto; cbn [fs].
  - intros d name _. unfold file_at.
    destruct (decide (d = dir)) as [->|Hne].
    + now rewrite lookup_insert_eq, Hdir, lookup_empty.
    + now rewrite lookup_insert_ne.
  - intros d Hd. destruct (decide (d = dir)) as [->|Hne].
    + rewrite lookup_insert_eq. eauto.
    + now rewrite lookup_insert_ne.
Qed.

Lemma writeFile_touches env p data :
  S (dirname p) (basename p) -> keeps (touches_only S) (writeFile env p data).
Proof.
  intros HS w. unfold writeFile.
  assert (Hev : forall q, In (EvWriteFile q) [EvWriteFile p] ->
                          S (dirname q) (basename q)).
  { intros q [[= <-]|[]]. exact HS. }
  assert (Hput : forall (content : FileData) entries,
            fs w !! dirname p = Some entries ->
            touches_only S w
              {| fs := <[dirname p := <[basename p := content]> entries]> (fs w);
                 page := page w; tick := Datatypes.S (tick w) |}
              [EvWriteFile p]).
  { intros content entries Hdir. repeat split; auto; cbn [fs].
    - intros d name Hnot. unfold file_at.
      destruct (decide (d = dirname p)) as [->|Hne].
      + rewrite lookup_insert_eq, Hdir.
        rewrite lookup_insert_ne; [reflexivity|].
        intros <-. apply Hnot, HS.
      + now rewrite lookup_insert_ne.
    - intros d Hd. destruct (decide (d = dirname p)) as [->|Hne].
      + rewrite lookup_insert_eq. eauto.
      + now rewrite lookup_insert_ne. }
  destruct (disk_fault env (tick w)) as [msg|]; cbn.
  - destruct (torn env (tick w)) as [leftover|]; cbn;
      [destruct (fs w !! dirname p) as [entries|] eqn:Hdir; cbn|].
    + now apply Hput.
    + repeat split; auto.
    + repeat split; auto.
  - destruct (fs w !! dirname p) as [entries|] eqn:Hdir; cbn.
    + now apply Hput.
    + repeat split; auto.
Qed.

End TouchesOnly.

Ltac keeps_touches S :=
  unfold_bind;
  repeat first
    [ apply (keeps_bind (touches_only S) (touches_only_compose S))
    | apply (keeps_try_catch (touches_only S) (touches_only_compose S))
    | apply (keeps_settle (touches_only S))
    | apply (keeps_ret (touches_only S) (touches_only_unit S))
    | apply (keeps_throw (touches_only S) (touches_only_unit S))
    | apply (mkdir_touches S)
    | assumption
    | apply (keeps_weaken reads_only (touches_only S) _
               (reads_only_touches S));
      solve [keeps_reads_only]
    | lazymatch goal with
      | |- keeps _ _ => fail
      | |- forall _, _ => intro
      end
    | match goal with
      | |- keeps _ (match ?x with _ => _ end) => destruct x
      | |- keeps _ (if ?x then _ else _) => destruct x
      end ].

Lemma downloadFile_touches (S : string -> string -> Prop)
    env source destPath retries :
  S (dirname destPath) (basename destPath) ->
  keeps (touches_only S) (downloadFile env source destPath retries).
Proof.
  intros HS. unfold downloadFile. generalize 1 at 1. generalize retries at 2.
  intros left. induction left as [|left IH]; intros attempt;
    cbn [downloadFile_loop]; unfold downloadAttempt; keeps_touches S.
  - now apply writeFile_touches.
  - apply IH.
Qed.

Lemma asset_filename_canonical d count :
  canonical_name (asset_filename d count).
Proof.
  unfold asset_filename, canonical_name.
  destruct (type d); [tauto|].
  destruct (resolution d) as [[|c r]|];
    try (repeat right; eexists; reflexivity).
  repeat match goal with
         | |- context [if ?b then _ else _] => destruct b
         end; tauto.
Qed.

Lemma downloadAssets_touches (S : string -> string -> Prop) env F pending :
  (forall name, canonical_name name -> S F name) ->
  forall count, keeps (touches_only S) (downloadAssets env F pending count).
Proof.
  intros HS. induction pending as [|download rest IH]; intros count;
    cbn [downloadAssets]; keeps_touches S.
  all: try apply IH.
  all: apply writeFile_touches, HS, asset_filename_canonical.
Qed.

Lemma processRow_touches env row folder :
  parseDateToFolder (Date row) = Returned folder ->
  keeps (touches_only
           (fun dir name =>
              dir = path_join DUMPS_DIR folder /\ canonical_name name))
        (processRow env row).
Proof.
  intros Hkey. unfold processRow. rewrite Hkey.
  set (S := fun dir name => dir = path_join DUMPS_DIR folder /\
                            canonical_name name).
  assert (HS : forall name, canonical_name name ->
                 S (path_join DUMPS_DIR folder) name)
    by (intros name Hn; split; [reflexivity|exact Hn]).
  unfold processRow_try, downloadAndPersist, alreadyProcessed,
    navigateAndExtract.
  keeps_touches S.
  all: try (apply downloadAssets_touches, HS).
  all: try (apply writeFile_touches, HS; unfold canonical_name; tauto).
Qed.

(** X2.  Every file [processRow] writes, or tries to write, lies in the
    folder of the record and carries one of the fixed names
    ([metadata.json], [image.pdf], [full.jpg], the three thumbnails, or
    [image_<n>.jpg]); every other file on the disk, in this folder or in any
    other, is afterwards exactly what it was, and no directory is removed. *)
Theorem processRow_writes_only_canonical_files env row folder w :
  parseDateToFolder (Date row) = Returned folder ->
  let F := path_join DUMPS_DIR folder in
  let run := processRow env row w in
  (forall p, In (EvWriteFile p) run.2 ->
     dirname p = F /\ canonical_name (basename p)) /\
  (forall dir name,
     ~ (dir = F /\ canonical_name name) ->
     file_at (fs run.1.2) dir name = file_at (fs w) dir name) /\
  (forall dir, is_Some (fs w !! dir) -> is_Some (fs run.1.2 !! dir)).
Proof.
  intros Hkey F run.
  destruct (processRow_touches env row folder Hkey w) as (Ha & Hb & Hc).
  repeat split.
  - apply (Hc p H).
  - apply (Hc p H).
  - exact Ha.
  - exact Hb.
Qed.

Lemma processRow_writes_only_canonical_files_witness :
  let run := processRow Sample.online Sample.march_5 Sample.fresh in
  (forall p, In (EvWriteFile p) run.2 ->
     dirname p = "./dumps/03-05" /\ canonical_name (basename p)) /\
  (forall dir name,
     ~ (dir = "./dumps/03-05" /\ canonical_name name) ->
     file_at (fs run.1.2) dir name = file_at (fs Sample.fresh) dir name) /\
  (forall dir, is_Some (fs Sample.fresh !! dir) -> is_Some (fs run.1.2 !! dir)).
Proof.
  apply (processRow_writes_only_canonical_files Sample.online Sample.march_5
           "03-05" Sample.fresh).
  reflexivity.
Defined.

(** ** What the download loop leaves in the folder *)

Lemma union_swap (a b c : gset string) : (a ∪ b) ∪ c = b ∪ (a ∪ c).
Proof. now rewrite (comm_L (∪) a b), <- (assoc_L (∪)). Qed.

Lemma subseteq_union_more (d a b c : gset string) :
  d ⊆ a ∪ c -> d ⊆ a ∪ (b ∪ c).
Proof.
  rewrite !elem_of_subseteq. intros H x Hx. specialize (H x Hx).
  rewrite !elem_of_union in *. tauto.
Qed.

Lemma subseteq_union_less (d a b c : gset string) :
  a ∪ (b ∪ c) ⊆ d -> a ∪ c ⊆ d.
Proof.
  rewrite !elem_of_subseteq. intros H x Hx. apply H.
  rewrite !elem_of_union in *. tauto.
Qed.

Lemma downloadFile_effect env source F name w :
  exists b w' evs,
    downloadFile env source (file_in F name) MAX_RETRIES w
      = (Returned b, w', evs) /\
    1 <= fetches evs <= MAX_RETRIES /\
    tick w' = tick w + length evs /\
    (forall e, In e evs ->
       e = EvFetch source \/ e = EvWriteFile (file_in F name) \/
       exists ms, e = EvDelay ms) /\
    (b = true ->
       exists bytes entries,
         fs w !! F = Some entries /\
         fs w' = <[F := <[name := Binary bytes]> entries]> (fs w)) /\
    (b = false ->
       fs w' = fs w \/
       exists t fault leftover entries,
         tick w <= t < tick w' /\
         disk_fault env t = Some fault /\ torn env t = Some leftover /\
         fs w !! F = Some entries /\
         fs w' = <[F := <[name := leftover]> entries]> (fs w)).
Proof.
  unfold downloadFile.
  destruct (downloadFile_loop_spec env source (file_in F name) MAX_RETRIES
              MAX_RETRIES 1 w eq_refl)
    as (b & w' & evs & Hrun & Hle & Hge & _ & Htick & Hin & _ & Htrue
        & Hfalse).
  exists b, w', evs. split; [exact Hrun|].
  split; [split; [apply Hge; unfold MAX_RETRIES; lia|exact Hle]|].
  split; [exact Htick|]. split; [exact Hin|]. split.
  - intros Hb.
    destruct (Htrue Hb) as (before & bytes & status & _ & Hfetch & Hok & Hfs).
    unfold attempt_ok in Hok. rewrite Hfetch in Hok.
    destruct (disk_fault env _); [discriminate|].
    cbn [dirname file_in] in Hok.
    destruct (fs w !! F) as [entries|] eqn:Hdir; [|discriminate].
    exists bytes, entries. split; [reflexivity|].
    rewrite Hfs. unfold put. cbn [dirname basename file_in].
    now rewrite Hdir.
  - intros Hb. destruct (Hfalse Hb) as [_ Hdisk].
    destruct Hdisk as [Hsame|(i & fault & leftover & Hi & Hfa & Hto & Hfs)];
      [now left|].
    unfold put in Hfs. cbn [dirname basename file_in] in Hfs.
    destruct (fs w !! F) as [entries|] eqn:Hdir; [|now left].
    right. exists (tick w + i), fault, leftover, entries.
    apply lookup_lt_Some in Hi. repeat split; auto; lia.
Qed.

Lemma downloadAssets_effect env F pending :
  forall count w,
    exists total log w' evs blocks,
      downloadAssets env F pending count w = (Returned (total, log), w', evs) /\
      length log = length pending /\
      total = count + successes log /\
      evs = concat blocks /\
      Forall2 (fun d block =>
                 1 <= fetches block <= MAX_RETRIES /\
                 forall source, In (EvFetch source) block -> source = url d)
              pending blocks /\
      tick w <= tick w' /\
      (forall entries : gmap string FileData,
         fs w !! F = Some entries ->
         exists entries' : gmap string FileData,
           fs w' !! F = Some entries' /\
           dom entries ∪ list_to_set (stored_names log) ⊆ dom entries' /\
           dom entries' ⊆ dom entries ∪ list_to_set (map fst log) /\
           ((forall t, tick w <= t < tick w' -> torn env t = None) ->
            dom entries' = dom entries ∪ list_to_set (stored_names log))) /\
      (fs w !! F = None -> successes log = 0 /\ fs w' = fs w).
Proof.
  induction pending as [|download rest IH]; intros count w.
  - exists count, [], w, [], []. cbn. repeat split; auto; try lia.
    intros entries H. exists entries. split; [exact H|].
    rewrite !union_empty_r_L. auto.
  - cbn [downloadAssets]. unfold_bind. unfold bind at 1.
    destruct (downloadFile_effect env (url download) F
                (asset_filename download count) w)
      as (b & w1 & evs1 & -> & Hf & Htick1 & Hin1 & Htrue & Hfalse).
    unfold bind at 1.
    destruct (IH (if b then S count else count) w1)
      as (total & log & w2 & evs2 & blocks & -> & Hlen & Htotal & Hcat
          & Hblocks & Htick2 & Hsome & Hnone).
    cbn [ret].
    exists total, ((asset_filename download count, b) :: log), w2.
    eexists. exists (evs1 :: blocks). split; [reflexivity|].
    unfold successes, stored_names in *. cbn [List.filter snd length].
    split; [lia|]. split; [destruct b; cbn; lia|].
    split; [cbn [concat]; now rewrite app_nil_r, Hcat|].
    split.
    { constructor; [|exact Hblocks]. split; [exact Hf|].
      intros source Hs. destruct (Hin1 _ Hs) as [[= ->]|[[=]|[ms [=]]]].
      reflexivity. }
    split; [lia|].
    set (name := asset_filename download count) in *.
    assert (Hgrow : forall (content : FileData) entries0,
              fs w !! F = Some entries0 ->
              fs w1 = <[F := <[name := content]> entries0]> (fs w) ->
              exists entries' : gmap string FileData,
                fs w2 !! F = Some entries' /\
                dom entries0 ∪ ({[name]} ∪
                   list_to_set (map fst (List.filter snd log))) ⊆ dom entries' /\
                dom entries' ⊆ dom entries0 ∪ ({[name]} ∪
                   list_to_set (map fst log)) /\
                ((forall t, tick w1 <= t < tick w2 -> torn env t = None) ->
                 dom entries' = dom entries0 ∪ ({[name]} ∪
                   list_to_set (map fst (List.filter snd log))))).
    { intros content entries0 Hdir0 Hfs1.
      destruct (Hsome (<[name := content]> entries0))
        as (entries' & Hdir' & Hlow & Hup & Hexact).
      { rewrite Hfs1. apply lookup_insert_eq. }
      exists entries'. split; [exact Hdir'|].
      rewrite dom_insert_L, !union_swap in Hlow, Hup, Hexact. auto. }
    destruct b.
    + destruct (Htrue eq_refl) as (bytes & entries0 & Hdir0 & Hfs1).
      split.
      * intros entries Hdir. assert (entries = entries0) as -> by congruence.
        destruct (Hgrow _ _ Hdir0 Hfs1) as (entries' & Hdir' & Hlow & Hup & Hex).
        exists entries'. cbn [map fst list_to_set].
        split; [exact Hdir'|]. split; [exact Hlow|]. split; [exact Hup|].
        intros Hquiet. apply Hex. intros t Ht. apply Hquiet. lia.
      * intros Hdir. congruence.
    + destruct (Hfalse eq_refl)
        as [Hfs1|(t & fault & leftover & entries0 & Ht & Hfa & Hto & Hdir0 & Hfs1)].
      * rewrite Hfs1 in *. split.
        -- intros entries Hdir.
           destruct (Hsome entries Hdir) as (entries' & Hdir' & Hlow & Hup & Hex).
           exists entries'. cbn [map fst list_to_set].
           split; [exact Hdir'|]. split; [exact Hlow|].
           split; [now apply subseteq_union_more|].
           intros Hquiet. apply Hex. intros t Ht. apply Hquiet. lia.
        -- intros Hdir. destruct (Hnone Hdir) as [H0 Hfs]. cbn. auto.
      * split; [|intros Hdir; congruence].
        intros entries Hdir. assert (entries = entries0) as -> by congruence.
        destruct (Hgrow _ _ Hdir0 Hfs1) as (entries' & Hdir' & Hlow & Hup & Hex).
        exists entries'. cbn [map fst list_to_set].
        split; [exact Hdir'|].
        split; [now apply subseteq_union_less in Hlow|].
        split; [exact Hup|].
        intros Hquiet. exfalso.
        rewrite Hquiet in Hto by lia. discriminate.
Qed.

(** X3.  After the download loop the folder holds what it held before and
    the name of every download that succeeded; whatever else it holds is
    the name of a download that failed and whose refused write left a file
    behind, which the program does not remove.  Where no refused write
    leaves anything, the folder holds exactly what it held plus the names of
    the successes.  The count returned is the number of successes, so when
    two assets are given the same name it exceeds the number of files
    gained.  If the folder does not exist no download succeeds and the disk
    is unchanged. *)
Theorem downloadAssets_folder_contents env F pending count w :
  exists total log w' evs,
    downloadAssets env F pending count w = (Returned (total, log), w', evs) /\
    total = count + successes log /\
    (forall entries : gmap string FileData,
       fs w !! F = Some entries ->
       exists entries' : gmap string FileData,
         fs w' !! F = Some entries' /\
         dom entries ∪ list_to_set (stored_names log) ⊆ dom entries' /\
         dom entries' ⊆ dom entries ∪ list_to_set (map fst log) /\
         ((forall t, tick w <= t < tick w' -> torn env t = None) ->
          dom entries' = dom entries ∪ list_to_set (stored_names log))) /\
    (fs w !! F = None -> total = count /\ fs w' = fs w).
Proof.
  destruct (downloadAssets_effect env F pending count w)
    as (total & log & w' & evs & blocks & Hrun & _ & Htotal & _ & _ & _
        & Hsome & Hnone).
  exists total, log, w', evs. split; [exact Hrun|]. split; [exact Htotal|].
  split; [exact Hsome|].
  intros Hdir. destruct (Hnone Hdir) as [H0 Hfs]. split; [lia|exact Hfs].
Qed.

(** Two images at least 2000 wide: both downloads succeed and are counted,
    and the folder gains the single file [full.jpg]. *)
Example two_full_size_images_one_file :
  let wide := {| url := "https://example.org/wide.jpg"; type := jpg;
                 size := None; resolution := Some "4000x3200" |} in
  let run := downloadAssets Sample.online "./dumps/03-05"
               [Sample.full_image; wide] 0
               (Sample.on_disk {[ "./dumps/03-05" := ∅ ]}) in
  run.1.1 = Returned (2, [("full.jpg", true); ("full.jpg", true)]) /\
  map fst (map_to_list (default ∅ (fs run.1.2 !! "./dumps/03-05")))
    = ["full.jpg"].
Proof. split; reflexivity. Qed.

(** A download that fails can leave a file: with the disk full, the one
    image is not counted, and its name is in the folder all the same. *)
Example failed_download_leaves_a_file :
  let run := downloadAssets Faults.disk_full "./dumps/03-05"
               [Sample.full_image] 0 Faults.made in
  run.1.1 = Returned (0, [("full.jpg", false)]) /\
  file_at (fs run.1.2) "./dumps/03-05" "full.jpg" = Some (Binary [Byte.x01]).
Proof. split; reflexivity. Qed.

(** X4.  The download loop never raises and goes through every asset in
    turn: its events are, one asset after the other, the events of that
    asset's download, in which the asset's own URL is fetched at least once
    and at most [MAX_RETRIES] times and no other URL is fetched -- whatever
    happened to the assets before it. *)
Theorem downloadAssets_attempts_every_asset env F pending count w :
  exists total log w' evs blocks,
    downloadAssets env F pending count w = (Returned (total, log), w', evs) /\
    evs = concat blocks /\
    Forall2 (fun d block =>
               1 <= fetches block <= 3 /\
               forall source, In (EvFetch source) block -> source = url d)
            pending blocks /\
    length log = length pending /\
    length pending <= fetches evs <= 3 * length pending /\
    total <= count + length pending.
Proof.
  destruct (downloadAssets_effect env F pending count w)
    as (total & log & w' & evs & blocks & Hrun & Hlen & Htotal & Hcat
        & Hblocks & _).
  exists total, log, w', evs, blocks. split; [exact Hrun|].
  split; [exact Hcat|]. split; [exact Hblocks|]. split; [exact Hlen|].
  split.
  - rewrite Hcat. clear -Hblocks.
    induction Hblocks as [|d block pending blocks [Hf _] _ IH];
      [cbn; lia|].
    cbn [concat length]. rewrite fetches_app.
    unfold MAX_RETRIES in Hf. lia.
  - rewrite Htotal, <- Hlen. unfold successes.
    pose proof (List.filter_length_le snd log). lia.
Qed.

(** ** Objects built by assignment *)

Lemma lookup_prop_app l1 l2 key :
  Enrich.lookup_prop (l1 ++ l2) key
    = match Enrich.lookup_prop l1 key with
      | Some v => Some v
      | None => Enrich.lookup_prop l2 key
      end.
Proof.
  induction l1 as [|[k v] l1 IH]; [reflexivity|].
  cbn. destruct (String.eqb k key); [reflexivity|exact IH].
Qed.

Lemma lookup_prop_none props key :
  ~ In key (map fst props) -> Enrich.lookup_prop props key = None.
Proof.
  induction props as [|[k v] props IH]; [reflexivity|].
  cbn. intros Hnot. destruct (String.eqb_spec k key) as [->|Hne].
  - destruct Hnot. now left.
  - apply IH. tauto.
Qed.

Lemma lookup_prop_in props key v :
  Enrich.lookup_prop props key = Some v -> In key (map fst props).
Proof.
  induction props as [|[k v'] props IH]; [discriminate|].
  cbn. destruct (String.eqb_spec k key) as [->|Hne]; [now left|].
  intros H. right. apply IH, H.
Qed.

Lemma lookup_assign props k v key :
  Enrich.lookup_prop (assign props k v) key
    = if String.eqb k key then Some v else Enrich.lookup_prop props key.
Proof.
  induction props as [|[k' v'] props IH]; [reflexivity|].
  cbn [assign]. destruct (String.eqb_spec k' k) as [->|Hne].
  - cbn. destruct (String.eqb k key); reflexivity.
  - cbn. rewrite IH.
    destruct (String.eqb_spec k' key) as [->|Hne']; [|reflexivity].
    destruct (String.eqb_spec k key); [congruence|reflexivity].
Qed.

(** Reading a property of an object built by a run of assignments: the last
    assignment to that name, or else what the object held before. *)
Lemma lookup_assign_all extra :
  forall props key,
    Enrich.lookup_prop (assign_all props extra) key
      = match Enrich.lookup_prop (rev extra) key with
        | Some v => Some v
        | None => Enrich.lookup_prop props key
        end.
Proof.
  unfold assign_all.
  induction extra as [|[k v] extra IH]; intros props key; [reflexivity|].
  cbn [fold_left fst snd rev]. rewrite IH, lookup_prop_app, lookup_assign.
  destruct (Enrich.lookup_prop (rev extra) key); [reflexivity|].
  cbn. destruct (String.eqb k key); reflexivity.
Qed.

Lemma lookup_assign_all_other props extra key :
  ~ In key (map fst extra) ->
  Enrich.lookup_prop (assign_all props extra) key = Enrich.lookup_prop props key.
Proof.
  intros Hnot. rewrite lookup_assign_all, lookup_prop_none; [reflexivity|].
  rewrite map_rev, <- in_rev. exact Hnot.
Qed.

Lemma assign_all_keys props extra key :
  In key (map fst (assign_all props extra)) ->
  In key (map fst props) \/ In key (map fst extra).
Proof.
  intros Hin.
  destruct (Enrich.lookup_prop (assign_all props extra) key) as [v|] eqn:E.
  - rewrite lookup_assign_all in E.
    destruct (Enrich.lookup_prop (rev extra) key) as [v'|] eqn:E'.
    + right. apply lookup_prop_in in E'. now rewrite map_rev, <- in_rev in E'.
    + left. eapply lookup_prop_in, E.
  - exfalso. revert E. clear -Hin.
    induction (assign_all props extra) as [|[k v] l IH]; [destruct Hin|].
    cbn in *. destruct (String.eqb_spec k key); [discriminate|].
    destruct Hin; [congruence|auto].
Qed.

Lemma assign_keys_NoDup props k v :
  NoDup (map fst props) -> NoDup (map fst (assign props k v)).
Proof.
  induction props as [|[k' v'] props IH]; intros Hnd.
  - cbn. apply NoDup_singleton.
  - cbn [assign]. destruct (String.eqb_spec k' k) as [->|Hne]; [exact Hnd|].
    cbn in *. apply NoDup_cons in Hnd as [Hnot Hnd']. apply NoDup_cons.
    split; [|apply IH, Hnd'].
    rewrite list_elem_of_In in Hnot |- *. intros Hin.
    assert (Hor : In k' (map fst props) \/ In k' (map fst [(k, v)])).
    { apply (assign_all_keys props [(k, v)] k'). exact Hin. }
    destruct Hor as [H|[H|[]]]; [auto|cbn in H; congruence].
Qed.

Lemma assign_all_keys_NoDup extra :
  forall props, NoDup (map fst props) ->
                NoDup (map fst (assign_all props extra)).
Proof.
  unfold assign_all. induction extra as [|[k v] extra IH]; intros props Hnd;
    [exact Hnd|].
  cbn [fold_left]. apply IH, assign_keys_NoDup, Hnd.
Qed.

Lemma lookup_prop_rev props key :
  NoDup (map fst props) ->
  Enrich.lookup_prop (rev props) key = Enrich.lookup_prop props key.
Proof.
  induction props as [|[k v] props IH]; intros Hnd; [reflexivity|].
  cbn in Hnd. apply NoDup_cons in Hnd as [Hnot Hnd'].
  rewrite list_elem_of_In in Hnot.
  cbn [rev]. rewrite lookup_prop_app, (IH Hnd'). cbn.
  destruct (String.eqb_spec k key) as [->|Hne].
  - now rewrite (lookup_prop_none props key Hnot).
  - destruct (Enrich.lookup_prop props key); reflexivity.
Qed.

Lemma props_of_pageData_NoDup pd : NoDup (map fst (props_of_pageData pd)).
Proof.
  unfold props_of_pageData. apply assign_all_keys_NoDup.
  destruct (pageTitle pd), (pageDescription pd); cbn;
    repeat (apply NoDup_cons; split); try apply NoDup_nil_2;
    rewrite list_elem_of_In; cbn; intuition discriminate.
Qed.

Lemma props_of_pageData_keys pd key :
  In key (map fst (props_of_pageData pd)) ->
  key = "pageTitle" \/ key = "pageDescription" \/ key = "downloads" \/
  In key (map fst (fields pd)).
Proof.
  unfold props_of_pageData. intros [H|H]%assign_all_keys.
  - destruct (pageTitle pd), (pageDescription pd); cbn in H; intuition auto.
  - rewrite map_app, in_app_iff in H. destruct H as [H|[H|[]]].
    + right. right. right. rewrite map_map in H. exact H.
    + cbn in H. auto.
Qed.

Lemma props_of_pageData_downloads pd :
  Enrich.lookup_prop (props_of_pageData pd) "downloads"
    = Some (JArray (map json_of_asset (downloads pd))).
Proof.
  unfold props_of_pageData. rewrite lookup_assign_all, rev_app_distr.
  reflexivity.
Qed.

(** What stage 2 reads back from the metadata object of stage 1, when the
    page fields carry the names the extractor gives them. *)
Lemma build_metadata_props row folder finalUrl pd downloadedAt :
  well_named pd ->
  let metadata := build_metadata row folder finalUrl pd downloadedAt in
  Enrich.prop metadata "date" = Some (JString (Date row)) /\
  Enrich.prop metadata "folder" = Some (JString folder) /\
  Enrich.prop metadata "originalUrl" = Some (JString (URL row)) /\
  Enrich.prop metadata "finalUrl" = Some (JString finalUrl) /\
  Enrich.prop metadata "csvName" = Some (JString (Name row)) /\
  Enrich.prop metadata "downloads"
    = Some (JArray (map json_of_asset (downloads pd))) /\
  Enrich.prop metadata "downloadedAt" = Some (JString downloadedAt).
Proof.
  intros Hnames metadata. subst metadata. unfold build_metadata.
  cbn [Enrich.prop].
  assert (Hother : forall key,
            In key ["date"; "folder"; "originalUrl"; "finalUrl"; "csvName"] ->
            ~ In key (map fst (props_of_pageData pd ++
                               [("downloadedAt", JString downloadedAt)]))).
  { intros key Hkey Hin. rewrite map_app, in_app_iff in Hin.
    destruct Hin as [Hin|[<-|[]]].
    - apply props_of_pageData_keys in Hin.
      destruct Hin as [->|[->|[->|Hin]]];
        try (cbn in Hkey; intuition discriminate).
      apply in_map_iff in Hin as (kv & <- & Hkv).
      unfold well_named in Hnames. rewrite List.Forall_forall in Hnames.
      specialize (Hnames kv Hkv). unfold field_names in Hnames.
      cbn in Hkey, Hnames.
      repeat match goal with
             | H : _ \/ _ |- _ => destruct H
             | H : False |- _ => destruct H
             end; congruence.
    - cbn in Hkey. intuition discriminate. }
  repeat split;
    try (rewrite lookup_assign_all_other by (apply Hother; cbn; tauto);
         reflexivity).
  - rewrite lookup_assign_all, rev_app_distr. cbn [rev app Enrich.lookup_prop].
    cbn [String.eqb Ascii.eqb Bool.eqb].
    rewrite (lookup_prop_rev _ _ (props_of_pageData_NoDup pd)).
    now rewrite props_of_pageData_downloads.
  - rewrite lookup_assign_all, rev_app_distr. reflexivity.
Qed.

(** ** Navigation, and what the metadata file records *)

(** The two ways [navigateAndExtract] returns: from the first page, or --
    when that page lists no download and carries an asset link -- from the
    page behind the link.  The URL kept is the first page's in both. *)
Lemma navigateAndExtract_returned env row w finalUrl pd w1 evs1 :
  navigateAndExtract env row w = (Returned (finalUrl, pd), w1, evs1) ->
  exists doc,
    goto_outcome env (tick w) (URL row) = Returned doc /\
    finalUrl = doc_url doc /\
    fs w1 = fs w /\
    ((doc_metadata doc = Returned pd /\
      (downloads pd <> [] \/ doc_assetLink doc = Returned None) /\
      evs1 = [EvGoto (URL row); EvDelay 500]) \/
     (exists pd0 link doc2,
        doc_metadata doc = Returned pd0 /\ downloads pd0 = [] /\
        doc_assetLink doc = Returned (Some link) /\
        goto_outcome env (S (S (tick w))) link = Returned doc2 /\
        doc_metadata doc2 = Returned pd /\
        evs1 = [EvGoto (URL row); EvDelay 500; EvGoto link; EvDelay 500])).
Proof.
  unfold navigateAndExtract, goto, page_url, evaluate. run_step.
  destruct (goto_outcome env (tick w) (URL row)) as [doc|msg];
    [|intros [=]].
  cbn. destruct (doc_metadata doc) as [pd0|msg] eqn:Hmeta; [|intros [=]].
  destruct (downloads pd0) as [|d ds] eqn:Hdl; cbn.
  - destruct (doc_assetLink doc) as [[link|]|msg] eqn:Hlink; cbn;
      [| |intros [=]].
    + destruct (goto_outcome env (S (S (tick w))) link) as [doc2|msg] eqn:Hg2;
        cbn; [|intros [=]].
      destruct (doc_metadata doc2) as [pd2|msg] eqn:Hmeta2; cbn;
        [|intros [=]].
      intros [= <- <- <- <-]. exists doc. repeat split; auto.
      right. exists pd0, link, doc2. auto 10.
    + intros [= <- <- <- <-]. exists doc. repeat split; auto.
  - intros [= <- <- <- <-]. exists doc. repeat split; auto.
    left. rewrite Hdl. repeat split; auto.
Qed.

(** A record counted as processed went through all three phases, and its
    metadata file holds the object built from what they returned. *)
Lemma processRow_processed_inv env row folder w w' evs :
  parseDateToFolder (Date row) = Returned folder ->
  processRow env row w = (Returned Processed, w', evs) ->
  let F := path_join DUMPS_DIR folder in
  exists finalUrl pd w1 evs1 downloadedAt,
    navigateAndExtract env row w = (Returned (finalUrl, pd), w1, evs1) /\
    file_at (fs w') F "metadata.json"
      = Some (JsonDoc (build_metadata row folder finalUrl pd downloadedAt)).
Proof.
  intros Hkey Hrun F. unfold processRow in Hrun. rewrite Hkey in Hrun.
  unfold mbind, M_bind in Hrun. fold F in Hrun.
  apply bind_returned in Hrun as (b & w0 & evs0 & evs' & Hcheck & Hrun & _).
  destruct (alreadyProcessed_spec F w) as (b' & Hcheck' & _).
  rewrite Hcheck' in Hcheck. injection Hcheck as -> <- <-.
  destruct b; [discriminate|].
  unfold try_catch in Hrun.
  destruct (processRow_try env row folder F w) as [[[res|msg] w2] evs2] eqn:Htry;
    [|discriminate].
  injection Hrun as -> -> _.
  unfold processRow_try in Htry. unfold mbind, M_bind in Htry.
  apply bind_returned in Htry
    as ([finalUrl pd] & w1 & evs1 & evs3 & Hnav & Htry & _).
  apply bind_returned in Htry as ([] & w3 & evs4 & evs5 & Hmk & Htry & _).
  unfold downloadAndPersist in Htry. unfold mbind, M_bind in Htry.
  apply bind_returned in Htry as (ts & w4 & evs6 & evs7 & _ & Htry & _).
  apply bind_returned in Htry as (r & w5 & evs8 & evs9 & _ & Htry & _).
  apply bind_returned in Htry as ([] & w6 & evs10 & evs11 & Hwrite & Htry & _).
  injection Htry as <- _.
  exists finalUrl, pd, w1, evs1, ts. split; [exact Hnav|].
  unfold writeFile in Hwrite. cbn [dirname basename file_in] in Hwrite.
  destruct (disk_fault env (tick w5));
    [destruct (torn env (tick w5)), (fs w5 !! F); discriminate|].
  destruct (fs w5 !! F) as [entries|] eqn:Hdir; [|discriminate].
  injection Hwrite as <- _. unfold file_at. cbn [fs].
  now rewrite !lookup_insert_eq.
Qed.

(** X5.  When a record is counted as processed, its [metadata.json] holds an
    object whose [finalUrl] is the URL of the page the first navigation
    reached -- also when the downloads were taken from the asset page behind
    it --, whose [originalUrl], [date] and [folder] are those of the record,
    and whose [downloads] lists every asset that was considered, one entry
    per asset, whether or not its download succeeded.  (The page fields are
    assumed to carry the eleven names the extractor assigns.) *)
Theorem metadata_records_first_page env row folder w w' evs :
  parseDateToFolder (Date row) = Returned folder ->
  (forall t target doc pd,
     goto_outcome env t target = Returned doc ->
     doc_metadata doc = Returned pd -> well_named pd) ->
  processRow env row w = (Returned Processed, w', evs) ->
  exists doc metadata pd,
    goto_outcome env (tick w) (URL row) = Returned doc /\
    file_at (fs w') (path_join DUMPS_DIR folder) "metadata.json"
      = Some (JsonDoc metadata) /\
    Enrich.prop metadata "finalUrl" = Some (JString (doc_url doc)) /\
    Enrich.prop metadata "originalUrl" = Some (JString (URL row)) /\
    Enrich.prop metadata "date" = Some (JString (Date row)) /\
    Enrich.prop metadata "folder" = Some (JString folder) /\
    Enrich.prop metadata "downloads"
      = Some (JArray (map json_of_asset (downloads pd))) /\
    (doc_metadata doc = Returned pd \/
     exists link doc2,
       doc_assetLink doc = Returned (Some link) /\
       goto_outcome env (S (S (tick w))) link = Returned doc2 /\
       doc_metadata doc2 = Returned pd).
Proof.
  intros Hkey Hnames Hrun.
  destruct (processRow_processed_inv env row folder w w' evs Hkey Hrun)
    as (finalUrl & pd & w1 & evs1 & ts & Hnav & Hfile).
  destruct (navigateAndExtract_returned _ _ _ _ _ _ _ Hnav)
    as (doc & Hgoto & -> & _ & Hfrom).
  assert (Hwn : well_named pd).
  { destruct Hfrom as [(Hmeta & _)|(pd0 & link & doc2 & _ & _ & _ & Hg2 & Hm2 & _)];
      eauto. }
  destruct (build_metadata_props row folder (doc_url doc) pd ts Hwn)
    as (Hdate & Hfolder & Horig & Hfinal & _ & Hdl & _).
  exists doc, (build_metadata row folder (doc_url doc) pd ts), pd.
  repeat split; auto.
  destruct Hfrom as [(Hmeta & _)|(pd0 & link & doc2 & _ & _ & Hl & Hg2 & Hm2 & _)];
    [left; exact Hmeta|right; eauto].
Qed.

Lemma metadata_records_first_page_witness :
  let w' := (processRow Sample.online Sample.march_5 Sample.fresh).1.2 in
  exists metadata,
    file_at (fs w') "./dumps/03-05" "metadata.json" = Some (JsonDoc metadata) /\
    Enrich.prop metadata "finalUrl"
      = Some (JString "https://example.org/Y") /\
    Enrich.prop metadata "originalUrl"
      = Some (JString "https://example.org/X").
Proof.
  intros w'.
  destruct (metadata_records_first_page Sample.online Sample.march_5 "03-05"
              Sample.fresh w'
              (processRow Sample.online Sample.march_5 Sample.fresh).2)
    as (doc & metadata & pd & Hgoto & Hfile & Hfinal & Horig & _).
  - reflexivity.
  - intros t target doc pd [= <-] [= <-]. repeat constructor.
  - vm_compute. reflexivity.
  - injection Hgoto as <-. exists metadata. auto.
Defined.

(** The first page lists nothing and points to an asset page: the downloads
    come from the asset page, the recorded URL is still the first page's. *)
Example final_url_is_read_before_the_fallback :
  let news := {| doc_url := "https://example.org/news";
                 doc_metadata := Returned {| pageTitle := None;
                                             pageDescription := None;
                                             fields := []; downloads := [] |};
                 doc_assetLink := Returned (Some "https://example.org/asset/1");
                 doc_video := Threw "" |} in
  let env := {| goto_outcome := fun _ target =>
                  if String.eqb target "https://example.org/asset/1"
                  then Returned Sample.landing else Returned news;
                fetch_outcome := fun _ _ => Response true 200 (BodyBytes []);
                disk_fault := fun _ => None;
     torn := fun _ => None;
                clock := fun _ => "" |} in
  let run := processRow env Sample.march_5 Sample.fresh in
  run.1.1 = Returned Processed /\
  gotos run.2 = 2 /\
  exists metadata,
    file_at (fs run.1.2) "./dumps/03-05" "metadata.json"
      = Some (JsonDoc metadata) /\
    Enrich.prop metadata "finalUrl"
      = Some (JString "https://example.org/news") /\
    exists items,
      Enrich.prop metadata "downloads" = Some (JArray items) /\
      length items = 2.
Proof.
  cbv zeta. split; [reflexivity|]. split; [reflexivity|].
  eexists. split; [reflexivity|]. split; [reflexivity|].
  eexists. split; reflexivity.
Qed.

(** ** How often a record navigates *)

Lemma gotos_app evs1 evs2 : gotos (evs1 ++ evs2) = gotos evs1 + gotos evs2.
Proof. unfold gotos. now rewrite List.filter_app, length_app. Qed.

Lemma no_goto_unit w : no_goto w w [].
Proof. reflexivity. Qed.

Lemma no_goto_compose w1 w2 w3 evs1 evs2 :
  no_goto w1 w2 evs1 -> no_goto w2 w3 evs2 -> no_goto w1 w3 (evs1 ++ evs2).
Proof. unfold no_goto. intros H1 H2. rewrite gotos_app. lia. Qed.

Ltac solve_no_goto :=
  intros w; cbv beta delta [emit delay page_url evaluate now access
    readdir readJson fetchBuffer mkdir writeFile]; cbn beta iota zeta;
  repeat match goal with
         | |- context [match ?x with _ => _ end] => destruct x; cbn
         | |- context [if ?x then _ else _] => destruct x; cbn
         end;
  reflexivity.

Lemma delay_no_goto ms : keeps no_goto (delay ms).
Proof. solve_no_goto. Qed.

Lemma now_no_goto env : keeps no_goto (now env).
Proof. solve_no_goto. Qed.

Lemma fetchBuffer_no_goto env source : keeps no_goto (fetchBuffer env source).
Proof. solve_no_goto. Qed.

Lemma mkdir_no_goto env dir : keeps no_goto (mkdir env dir).
Proof. solve_no_goto. Qed.

Lemma writeFile_no_goto env p data : keeps no_goto (writeFile env p data).
Proof. solve_no_goto. Qed.

Ltac keeps_no_goto :=
  unfold_bind;
  repeat first
    [ apply (keeps_bind no_goto no_goto_compose)
    | apply (keeps_try_catch no_goto no_goto_compose)
    | apply (keeps_settle no_goto)
    | apply (keeps_ret no_goto no_goto_unit)
    | apply (keeps_throw no_goto no_goto_unit)
    | apply delay_no_goto | apply now_no_goto | apply fetchBuffer_no_goto
    | apply mkdir_no_goto | apply writeFile_no_goto
    | assumption
    | lazymatch goal with
      | |- keeps _ _ => fail
      | |- forall _, _ => intro
      end
    | match goal with
      | |- keeps _ (match ?x with _ => _ end) => destruct x
      | |- keeps _ (if ?x then _ else _) => destruct x
      end ].

Lemma downloadAssets_no_goto env F pending :
  forall count, keeps no_goto (downloadAssets env F pending count).
Proof.
  induction pending as [|download rest IH]; intros count;
    cbn [downloadAssets]; keeps_no_goto.
  apply IH.
Qed.

Lemma persist_no_goto env row folder F finalUrl pd :
  keeps no_goto
    (bind (mkdir env F)
          (fun _ => downloadAndPersist env row folder F finalUrl pd)).
Proof.
  unfold downloadAndPersist. keeps_no_goto. apply downloadAssets_no_goto.
Qed.

(** Whatever the outcome, navigation and extraction visit one page or two;
    two only when the first page lists no download and carries a link. *)
Lemma navigateAndExtract_gotos env row w :
  let evs := (navigateAndExtract env row w).2 in
  1 <= gotos evs <= 2 /\
  (forall doc,
     goto_outcome env (tick w) (URL row) = Returned doc ->
     (forall pd, doc_metadata doc = Returned pd -> downloads pd <> [] ->
        gotos evs = 1) /\
     (doc_assetLink doc = Returned None -> gotos evs = 1)).
Proof.
  unfold navigateAndExtract, goto, page_url, evaluate. run_step.
  destruct (goto_outcome env (tick w) (URL row)) as [doc|msg]; cbn;
    [|split; [lia|intros doc [=]]].
  assert (Hfin : forall n : nat,
            (n = 1 \/ (n = 2 /\ exists pd0 link,
                         doc_metadata doc = Returned pd0 /\
                         downloads pd0 = [] /\
                         doc_assetLink doc = Returned (Some link))) ->
            1 <= n <= 2 /\
            (forall doc',
               Returned doc = Returned doc' ->
               (forall pd, doc_metadata doc' = Returned pd ->
                  downloads pd <> [] -> n = 1) /\
               (doc_assetLink doc' = Returned None -> n = 1))).
  { intros n Hn. split; [lia|]. intros doc' [= <-].
    destruct Hn as [->|(-> & pd0 & link & Hm & Hd & Hl)];
      [split; auto|].
    split; [intros pd Hpd Hne; congruence|intros Hnone; congruence]. }
  destruct (doc_metadata doc) as [pd0|msg] eqn:Hmeta; cbn;
    [|apply Hfin; now left].
  destruct (downloads pd0) as [|d ds] eqn:Hdl; cbn; [|apply Hfin; now left].
  destruct (doc_assetLink doc) as [[link|]|msg] eqn:Hlink; cbn;
    [|apply Hfin; now left|apply Hfin; now left].
  destruct (goto_outcome env (S (S (tick w))) link) as [doc2|msg]; cbn.
  - destruct (doc_metadata doc2); cbn; apply Hfin; right; eauto 10.
  - apply Hfin; right; eauto 10.
Qed.

Lemma processRow_gotos env row w :
  gotos (processRow env row w).2 = 0 \/
  gotos (processRow env row w).2 = gotos (navigateAndExtract env row w).2.
Proof.
  remember (processRow env row w).2 as evs eqn:Hevs.
  unfold processRow in Hevs.
  destruct (parseDateToFolder (Date row)) as [folder|msg];
    [|subst evs; now left].
  unfold mbind, M_bind in Hevs. unfold bind at 1 in Hevs.
  destruct (alreadyProcessed_spec (path_join DUMPS_DIR folder) w)
    as (b & Hcheck & _).
  rewrite Hcheck in Hevs.
  destruct b; [subst evs; now left|]. right.
  unfold try_catch, processRow_try in Hevs. unfold mbind, M_bind in Hevs.
  unfold bind at 1 in Hevs.
  destruct (navigateAndExtract env row w) as [[[[finalUrl pd]|msg] w1] evs1];
    [|subst evs; cbn; rewrite ?app_nil_r; reflexivity].
  pose proof (persist_no_goto env row folder (path_join DUMPS_DIR folder)
                finalUrl pd w1) as Hrest.
  unfold no_goto in Hrest.
  destruct (bind (mkdir env (path_join DUMPS_DIR folder)) _ w1)
    as [[[res|msg] w2] evs2]; cbn [fst snd app ret] in Hrest, Hevs |- *;
    subst evs; rewrite ?app_nil_r, ?gotos_app, Hrest; lia.
Qed.

(** X6.  A record navigates at most twice, and once only when the first
    page lists at least one download or carries no asset link: the fallback
    through the asset link is taken a single time and never followed by
    another. *)
Theorem at_most_two_navigations env row w :
  let evs := (processRow env row w).2 in
  gotos evs <= 2 /\
  (forall doc,
     goto_outcome env (tick w) (URL row) = Returned doc ->
     (forall pd, doc_metadata doc = Returned pd -> downloads pd <> [] ->
        gotos evs <= 1) /\
     (doc_assetLink doc = Returned None -> gotos evs <= 1)).
Proof.
  intros evs. subst evs.
  destruct (navigateAndExtract_gotos env row w) as [Hb Hone].
  destruct (processRow_gotos env row w) as [H|H]; rewrite H.
  - split; [lia|]. intros doc _. split; intros; lia.
  - split; [lia|]. intros doc Hdoc. destruct (Hone doc Hdoc) as [H1 H2].
    split.
    + intros pd Hpd Hne. rewrite (H1 pd Hpd Hne). lia.
    + intros Hl. rewrite (H2 Hl). lia.
Qed.

(** ** Stage 2: what a pass over a folder touches, and when it returns *)

Lemma processFolder_touches env folderPath :
  keeps (touches_only (enriched_file folderPath))
        (Enrich.processFolder env folderPath).
Proof.
  unfold Enrich.processFolder, Enrich.processFolder_try.
  keeps_touches (enriched_file folderPath).
  all: try (apply writeFile_touches; split; reflexivity).
  all: apply (keeps_reads _ (touches_only_unit (enriched_file folderPath))).
Qed.

(** X8.  A pass of stage 2 over a folder writes nothing but the folder's
    [video-content.json]: [metadata.json], the assets and every file of every
    other folder are afterwards exactly what they were. *)
Theorem processFolder_writes_only_enriched_file env folderPath w :
  let run := Enrich.processFolder env folderPath w in
  (forall p, In (EvWriteFile p) run.2 ->
     p = file_in folderPath "video-content.json") /\
  (forall dir name,
     ~ (dir = folderPath /\ name = "video-content.json") ->
     file_at (fs run.1.2) dir name = file_at (fs w) dir name) /\
  (forall dir, is_Some (fs w !! dir) -> is_Some (fs run.1.2 !! dir)).
Proof.
  intros run.
  destruct (processFolder_touches env folderPath w) as (Ha & Hb & Hc).
  repeat split.
  - intros p Hp. destruct (Hc p Hp) as [Hd Hn]. destruct p as [d n].
    cbn in Hd, Hn. now subst.
  - exact Ha.
  - exact Hb.
Qed.

Lemma processFolder_enriched env folderPath w :
  is_Some (file_at (fs w) folderPath "video-content.json") ->
  Enrich.processFolder env folderPath w = (Returned Skipped, w, []).
Proof.
  intros Hsome. unfold Enrich.processFolder. unfold_bind. unfold bind at 1.
  rewrite enriched_check, bool_decide_eq_true_2 by exact Hsome.
  reflexivity.
Qed.

Lemma processFolder_try_returned env folderPath metadata w res w' evs :
  Enrich.processFolder_try env folderPath metadata w
    = (Returned res, w', evs) ->
  res = Processed /\
  is_Some (file_at (fs w') folderPath "video-content.json").
Proof.
  unfold Enrich.processFolder_try.
  destruct (Enrich.prop metadata "finalUrl") as [[| | |finalUrl| |]|];
    try discriminate.
  unfold mbind, M_bind. intros Hrun.
  apply bind_returned in Hrun as ([] & w1 & evs1 & evs2 & _ & Hrun & _).
  apply bind_returned in Hrun as ([] & w2 & evs3 & evs4 & _ & Hrun & _).
  apply bind_returned in Hrun as (vc & w3 & evs5 & evs6 & _ & Hrun & _).
  apply bind_returned in Hrun as (ts & w4 & evs7 & evs8 & _ & Hrun & _).
  apply bind_returned in Hrun as ([] & w5 & evs9 & evs10 & Hwrite & Hrun & _).
  assert (Hfile : is_Some (file_at (fs w5) folderPath "video-content.json")).
  { unfold writeFile in Hwrite. cbn [dirname basename file_in] in Hwrite.
    destruct (disk_fault env (tick w4));
      [destruct (torn env (tick w4)), (fs w4 !! folderPath); discriminate|].
    destruct (fs w4 !! folderPath) as [entries|]; [|discriminate].
    injection Hwrite as <- _. unfold file_at. cbn [fs].
    rewrite !lookup_insert_eq. eauto. }
  match type of Hrun with
  | context [match ?t with _ => _ end] => destruct t as [[| | | | |]|]
  end;
    repeat match type of Hrun with
           | context [if ?b then _ else _] => destruct b
           end;
    try discriminate; injection Hrun as <- <- _; auto.
Qed.

Lemma processFolder_success env folderPath w res w' evs :
  Enrich.processFolder env folderPath w = (Returned res, w', evs) ->
  res = Processed \/ res = Skipped ->
  is_Some (file_at (fs w') folderPath "video-content.json").
Proof.
  intros Hrun Hres.
  destruct (file_at (fs w) folderPath "video-content.json") as [data|] eqn:Hv.
  - rewrite processFolder_enriched in Hrun by (rewrite Hv; eauto).
    injection Hrun as _ <- _. rewrite Hv. eauto.
  - rewrite (processFolder_until_guard env folderPath w Hv) in Hrun.
    destruct (file_at (fs w) folderPath "metadata.json") as [[bytes|md]|];
      try (injection Hrun as <- _ _; destruct Hres; discriminate).
    destruct (Enrich.get md "finalUrl") as [finalUrl|msg]; [|discriminate].
    destruct (negb (Enrich.truthy finalUrl));
      [injection Hrun as <- _ _; destruct Hres; discriminate|].
    unfold try_catch in Hrun.
    destruct (Enrich.processFolder_try env folderPath md w)
      as [[[r|msg] w2] evs2] eqn:Htry.
    + injection Hrun as _ <- _.
      eapply processFolder_try_returned, Htry.
    + injection Hrun as <- _ _. destruct Hres; discriminate.
Qed.

(** X9.  Once a pass of stage 2 over a folder has succeeded -- processed or
    skipped --, every later pass over that folder is skipped: it leaves the
    world as it is and emits nothing, whatever the browser would answer. *)
Theorem enrichment_is_done_once env env' folderPath w res w' evs :
  Enrich.processFolder env folderPath w = (Returned res, w', evs) ->
  res = Processed \/ res = Skipped ->
  Enrich.processFolder env' folderPath w' = (Returned Skipped, w', []).
Proof.
  intros Hrun Hres. apply processFolder_enriched.
  eapply processFolder_success; eassumption.
Qed.

Lemma enrichment_is_done_once_witness :
  let first :=
    Enrich.processFolder Sample.online "./dumps/07-04" Sample.null_metadata in
  first.1.1 = Returned Processed /\
  Enrich.processFolder Sample.offline "./dumps/07-04" first.1.2
    = (Returned Skipped, first.1.2, []).
Proof.
  intros first. split; [reflexivity|].
  apply (enrichment_is_done_once Sample.online Sample.offline "./dumps/07-04"
           Sample.null_metadata Processed first.1.2 first.2).
  - vm_compute. reflexivity.
  - left. reflexivity.
Defined.

Lemma processFolder_raises_iff env folderPath w :
  (exists msg w' evs,
     Enrich.processFolder env folderPath w = (Threw msg, w', evs))
  <-> null_state (fs w) folderPath.
Proof.
  unfold null_state.
  destruct (file_at (fs w) folderPath "video-content.json") as [data|] eqn:Hv.
  - rewrite processFolder_enriched by (rewrite Hv; eauto). split.
    + intros (msg & w' & evs & [=]).
    + intros [[=] _].
  - rewrite (processFolder_until_guard env folderPath w Hv).
    destruct (file_at (fs w) folderPath "metadata.json") as [[bytes|md]|].
    + split; [intros (msg & w' & evs & [=])|intros [_ [=]]].
    + assert (Hcase : md = JNull \/
                (Enrich.get md "finalUrl"
                   = Returned (Enrich.prop md "finalUrl") /\ md <> JNull)).
      { destruct md; [left; reflexivity|right; split; [reflexivity|discriminate]..]. }
      destruct Hcase as [->|[Hget Hnn]].
      * cbn. split; [intros _; split; reflexivity|intros _; eauto].
      * rewrite Hget. split; [|intros [_ [= ->]]; congruence].
        intros (msg & w' & evs & Hrun). exfalso.
        destruct (negb (Enrich.truthy (Enrich.prop md "finalUrl")));
          [discriminate|].
        unfold try_catch in Hrun.
        destruct (Enrich.processFolder_try env folderPath md w)
          as [[[r|m'] w2] evs2]; discriminate.
    + split; [intros (msg & w' & evs & [=])|intros [_ [=]]].
Qed.

Lemma processFolder_keeps_null_state env folderPath w res w' evs :
  Enrich.processFolder env folderPath w = (Returned res, w', evs) ->
  forall G, null_state (fs w') G <-> null_state (fs w) G.
Proof.
  intros Hrun G.
  pose proof (processFolder_touches env folderPath w) as (Hother & _ & _).
  rewrite Hrun in Hother. cbn in Hother.
  assert (Hmeta : file_at (fs w') G "metadata.json"
                  = file_at (fs w) G "metadata.json").
  { apply Hother. intros [_ [=]]. }
  assert (Hnot : ~ null_state (fs w) folderPath).
  { intros Hnull. apply (processFolder_raises_iff env) in Hnull
      as (msg & w2 & evs2 & Hthrow). congruence. }
  unfold null_state in *. rewrite Hmeta.
  destruct (decide (G = folderPath)) as [->|Hne].
  - split; [|tauto]. intros [Hv' Hm].
    destruct (file_at (fs w) folderPath "video-content.json") as [data|] eqn:Hv;
      [|tauto].
    rewrite processFolder_enriched in Hrun by (rewrite Hv; eauto).
    injection Hrun as _ <- _. congruence.
  - rewrite (Hother G "video-content.json"); [reflexivity|].
    intros [-> _]. congruence.
Qed.

(** X10.  The loop of stage 2 returns exactly when none of the folders it is
    given is, at the start, unenriched with a [null] metadata document; and
    when it returns it has counted every folder once. *)
Theorem enrich_loop_returns_iff env folders stats w :
  ((exists stats' w' evs,
      Enrich.main_loop env folders stats w = (Returned stats', w', evs))
   <-> Forall (fun F => ~ null_state (fs w) F) folders) /\
  (forall stats' w' evs,
     Enrich.main_loop env folders stats w = (Returned stats', w', evs) ->
     tally stats' = tally stats + length folders).
Proof.
  revert stats w. induction folders as [|F rest IH]; intros stats w.
  - cbn. split; [split; [constructor|eauto]|].
    intros stats' w' evs [= <- _ _]. lia.
  - cbn [Enrich.main_loop]. unfold_bind.
    destruct (Enrich.processFolder env F w) as [[[res|msg] w1] evs1] eqn:Hrow.
    + set (pause := if negb (skipped res) then delay Enrich.DELAY_MS
                    else ret tt).
      assert (Hpause : exists w2 evs2,
                pause w1 = (Returned tt, w2, evs2) /\ fs w2 = fs w1).
      { unfold pause. destruct (negb (skipped res)); cbn; eauto. }
      destruct Hpause as (w2 & evs2 & Hp & Hfs2).
      assert (Hnot : ~ null_state (fs w) F).
      { intros Hnull. apply (processFolder_raises_iff env) in Hnull
          as (msg & w3 & evs3 & Hthrow). congruence. }
      assert (Hsame : forall G, null_state (fs w2) G <-> null_state (fs w) G).
      { intros G. rewrite Hfs2.
        eapply processFolder_keeps_null_state, Hrow. }
      destruct (IH (count_result stats res) w2) as [Hiff Htally].
      match goal with
      | |- context [bind ?m ?k w] =>
          assert (Hrun : bind m k w
                    = (let '(r, w', evs') :=
                         Enrich.main_loop env rest (count_result stats res) w2
                       in (r, w', (evs1 ++ evs2 ++ evs')%list)))
      end.
      { unfold bind at 1. rewrite Hrow. unfold bind at 1. fold pause.
        rewrite Hp.
        destruct (Enrich.main_loop env rest (count_result stats res) w2)
          as [[r w3] evs3]. reflexivity. }
      rewrite Hrun. clear Hrun.
      destruct (Enrich.main_loop env rest (count_result stats res) w2)
        as [[[stats2|msg] w3] evs3] eqn:Hrest; cbv beta iota.
      * split.
        -- split; [|eauto]. intros _. constructor; [exact Hnot|].
           eapply List.Forall_impl; [|apply Hiff; eauto].
           intros G HG. cbn in HG |- *. now rewrite <- Hsame.
        -- intros stats' w' evs [= <- _ _].
           specialize (Htally stats2 w3 evs3). rewrite tally_count in Htally.
           cbn [length]. rewrite Htally by reflexivity. lia.
      * split.
        -- split; [intros (s & w' & evs & [=])|].
           intros Hall. apply Forall_cons in Hall as [_ Hall]. exfalso.
           assert (Hrest' : Forall (fun G => ~ null_state (fs w2) G) rest).
           { eapply List.Forall_impl; [|exact Hall].
             intros G HG. cbn in HG. now rewrite Hsame. }
           apply Hiff in Hrest' as (s & w' & evs & [=]).
        -- intros stats' w' evs [=].
    + match goal with
      | |- context [bind ?m ?k w] =>
          assert (Hrun : bind m k w = (Threw msg, w1, evs1))
            by (unfold bind at 1; now rewrite Hrow)
      end.
      rewrite Hrun. clear Hrun. split.
      * split; [intros (s & w' & evs & [=])|].
        intros Hall. apply Forall_cons in Hall as [Hnot _]. exfalso.
        apply Hnot, (processFolder_raises_iff env). eauto.
      * intros stats' w' evs [=].
Qed.

(** ** From stage 1 to stage 2 *)

Lemma video_content_not_canonical : ~ canonical_name "video-content.json".
Proof.
  unfold canonical_name. intros H.
  repeat destruct H as [H|H]; try discriminate.
  destruct H as [n H]. cbn in H. discriminate.
Qed.

(** X7.  A folder that stage 1 has just processed passes the precondition of
    stage 2: with no [video-content.json] there before, stage 2 reads the
    metadata stage 1 wrote and its first step is the navigation to the URL
    stage 1 recorded, the one of the first page reached.  (Were that URL the
    empty text, stage 2 would fail the folder with [No finalUrl].) *)
Theorem stage1_output_is_accepted_by_stage2
    env1 env2 row folder w w1 evs1 :
  parseDateToFolder (Date row) = Returned folder ->
  (forall t target doc pd,
     goto_outcome env1 t target = Returned doc ->
     doc_metadata doc = Returned pd -> well_named pd) ->
  let F := path_join DUMPS_DIR folder in
  file_at (fs w) F "video-content.json" = None ->
  processRow env1 row w = (Returned Processed, w1, evs1) ->
  exists doc,
    goto_outcome env1 (tick w) (URL row) = Returned doc /\
    (doc_url doc <> "" ->
     exists r w2 evs2,
       Enrich.processFolder env2 F w1 = (r, w2, EvGoto (doc_url doc) :: evs2)) /\
    (doc_url doc = "" ->
     Enrich.processFolder env2 F w1 = (Returned (Failed "No finalUrl"), w1, [])).
Proof.
  intros Hkey Hnames F Hfresh Hrun.
  destruct (processRow_processed_inv env1 row folder w w1 evs1 Hkey Hrun)
    as (finalUrl & pd & w0 & evs0 & ts & Hnav & Hfile).
  destruct (navigateAndExtract_returned _ _ _ _ _ _ _ Hnav)
    as (doc & Hgoto & -> & _ & Hfrom).
  assert (Hwn : well_named pd).
  { destruct Hfrom as [(Hmeta & _)|(pd0 & link & doc2 & _ & _ & _ & Hg2 & Hm2 & _)];
      eauto. }
  destruct (build_metadata_props row folder (doc_url doc) pd ts Hwn)
    as (_ & _ & _ & Hfinal & _).
  assert (Hfresh1 : file_at (fs w1) F "video-content.json" = None).
  { pose proof (processRow_touches env1 row folder Hkey w) as (Hother & _ & _).
    rewrite Hrun in Hother. cbn in Hother. rewrite Hother; [exact Hfresh|].
    intros [_ Hc]. exact (video_content_not_canonical Hc). }
  fold F in Hfile.
  exists doc. split; [exact Hgoto|].
  rewrite (processFolder_until_guard env2 F w1 Hfresh1), Hfile.
  unfold build_metadata in Hfinal |- *. cbn [Enrich.get Enrich.prop] in *.
  rewrite Hfinal. cbn [Enrich.truthy].
  split.
  - intros Hne.
    destruct (String.eqb_spec (doc_url doc) "") as [Heq|_]; [congruence|].
    cbn [negb]. unfold try_catch, Enrich.processFolder_try.
    cbn [Enrich.prop]. rewrite Hfinal. unfold_bind.
    match goal with
    | |- context [bind (goto env2 ?u) ?k w1] =>
        destruct (bind_goto_starts env2 u k w1) as (r & w2 & evs2 & ->)
    end.
    destruct r as [res|msg]; [eauto|]. cbn. eauto.
  - intros ->. reflexivity.
Qed.

Lemma stage1_output_is_accepted_by_stage2_witness :
  let w1 := (processRow Sample.online Sample.march_5 Sample.fresh).1.2 in
  exists r w2 evs2,
    Enrich.processFolder Sample.offline "./dumps/03-05" w1
      = (r, w2, EvGoto "https://example.org/Y" :: evs2).
Proof.
  intros w1.
  destruct (stage1_output_is_accepted_by_stage2 Sample.online Sample.offline
              Sample.march_5 "03-05" Sample.fresh w1
              (processRow Sample.online Sample.march_5 Sample.fresh).2)
    as (doc & Hgoto & Hnav & _).
  - reflexivity.
  - intros t target doc pd [= <-] [= <-]. repeat constructor.
  - reflexivity.
  - vm_compute. reflexivity.
  - injection Hgoto as <-. apply Hnav. discriminate.
Defined.

(** ** Two records for the same day *)

Lemma parseDateToFolder_calendar k d rest :
  1 <= k <= 12 -> 1 <= d <= 31 ->
  Forall (fun w => no_char " " w = true) rest ->
  parseDateToFolder (join " " (month_name k :: ofNat d :: rest))
    = Returned (two_digits k ++ "-" ++ two_digits d).
Proof.
  intros Hk Hd Hrest.
  destruct (month_name_facts k Hk) as [Hm1 Hm2].
  destruct (day_facts d Hd) as [Hd1 [Hd2 _]].
  unfold parseDateToFolder.
  rewrite split_join; [|discriminate|repeat constructor; assumption].
  cbn [nth nth_error]. now rewrite Hm2, Hd2.
Qed.

Lemma folder_complete_from_files disk F f :
  is_Some (file_at disk F "metadata.json") ->
  is_Some (file_at disk F f) -> is_asset_name f = true ->
  folder_complete disk F.
Proof.
  unfold file_at, folder_complete. intros Hmeta Hf Hname.
  destruct (disk !! F) as [entries|]; [|destruct Hmeta; discriminate].
  exists entries. split; [reflexivity|]. split; [exact Hmeta|].
  apply is_asset_name_spec in Hname as [front Hname].
  exists f, front. auto.
Qed.

(** X11.  Two records whose dates name the same month and day -- in
    different years, say -- get the same folder.  In a batch holding both,
    once the first has been processed and has left an asset in the folder,
    the second is skipped: the batch counts one processed and one skipped,
    and its events are those of the first record followed by the one pause;
    the page of the second record is never visited. *)
Theorem same_day_second_record_is_skipped
    env row1 row2 k d rest1 rest2 w w1 evs1 f :
  1 <= k <= 12 -> 1 <= d <= 31 ->
  Forall (fun x => no_char " " x = true) rest1 ->
  Forall (fun x => no_char " " x = true) rest2 ->
  Date row1 = join " " (month_name k :: ofNat d :: rest1) ->
  Date row2 = join " " (month_name k :: ofNat d :: rest2) ->
  let F := path_join DUMPS_DIR (two_digits k ++ "-" ++ two_digits d) in
  processRow env row1 w = (Returned Processed, w1, evs1) ->
  is_Some (file_at (fs w1) F f) -> is_asset_name f = true ->
  parseDateToFolder (Date row1) = parseDateToFolder (Date row2) /\
  stage1 env [row1; row2] w
    = (Returned {| processed := 1; skipped_count := 1; failed := 0 |},
       {| fs := fs w1; page := page w1; tick := S (tick w1) |},
       (evs1 ++ [EvDelay DELAY_MS])%list).
Proof.
  intros Hk Hd Hr1 Hr2 Hd1 Hd2 F Hrun Hf Hname.
  pose proof (parseDateToFolder_calendar k d rest1 Hk Hd Hr1) as Hkey1.
  pose proof (parseDateToFolder_calendar k d rest2 Hk Hd Hr2) as Hkey2.
  rewrite <- Hd1 in Hkey1. rewrite <- Hd2 in Hkey2.
  split; [congruence|].
  destruct (processRow_processed_inv env row1 _ w w1 evs1 Hkey1 Hrun)
    as (finalUrl & pd & w0 & evs0 & ts & _ & Hmeta).
  fold F in Hmeta.
  assert (Hc : folder_complete (fs w1) F).
  { eapply folder_complete_from_files; [rewrite Hmeta; eauto|exact Hf|exact Hname]. }
  set (w2 := {| fs := fs w1; page := page w1; tick := S (tick w1) |}).
  destruct (processRow_cases env row2 _ w2 Hkey2) as [[_ Hskip]|[Hnot _]];
    [|destruct Hnot; exact Hc].
  unfold stage1. cbn [main_loop]. unfold_bind.
  unfold bind at 1. rewrite Hrun. cbn [skipped negb length Nat.eqb andb].
  unfold bind at 1, delay, emit. fold w2.
  unfold bind at 1. rewrite Hskip. cbn. rewrite ?app_nil_r. reflexivity.
Qed.

Lemma same_day_second_record_is_skipped_witness :
  let other_year :=
    {| Date := "March 5 2019"; URL := "https://example.org/W";
       Name := ""; Caption := ""; Year := "2019"; Image := "" |} in
  (stage1 Sample.online [Sample.march_5; other_year] Sample.fresh).1.1
    = Returned {| processed := 1; skipped_count := 1; failed := 0 |}.
Proof.
  intros other_year.
  destruct (same_day_second_record_is_skipped Sample.online Sample.march_5
              other_year 3 5 ["2021"] ["2019"] Sample.fresh
              (processRow Sample.online Sample.march_5 Sample.fresh).1.2
              (processRow Sample.online Sample.march_5 Sample.fresh).2
              "full.jpg") as [_ Hrun];
    [lia | lia | repeat constructor | repeat constructor
    | reflexivity | reflexivity | vm_compute; reflexivity
    | vm_compute; eauto | reflexivity | ].
  rewrite Hrun. reflexivity.
Defined.

(** ** The size printed after a download *)

Lemma ofN_nonempty m : ofN m <> "".
Proof.
  unfold ofN. destruct (N.to_uint m); cbn; discriminate.
Qed.

Lemma padStart_short n filler s :
  n <= String.length s -> padStart n filler s = s.
Proof.
  intros H. unfold padStart.
  replace (n - String.length s) with 0 by lia. reflexivity.
Qed.

Lemma padStart_one m : padStart 1 "0" (ofN m) = ofN m.
Proof.
  apply padStart_short. pose proof (ofN_nonempty m).
  destruct (ofN m); [congruence|cbn; lia].
Qed.

(** X12.  The size [formatBytes] prints for a buffer, whose length is below
    2^53.  Below 1024 bytes it is the count itself; from there to below
    1024 * 1024 it is a number of KB with one decimal, and from there on a
    number of MB with two, each the nearest such number to the true
    quotient, the upper one of two.  The unit is chosen before the rounding:
    the sizes from 1048525 to 1048575 bytes are printed as [1024.0 KB]. *)
Theorem formatBytes_units (bytes : N) :
  ((bytes < 1024)%N -> formatBytes bytes = Some (ofN bytes ++ " B")) /\
  ((1024 <= bytes < 1048576)%N ->
   exists n : N,
     formatBytes bytes
       = Some ((ofN (n / 10) ++ "." ++ ofN (n mod 10)) ++ " KB") /\
     (10 <= n <= 10240)%N /\
     (1024 * n <= 10 * bytes + 512 < 1024 * n + 1024)%N) /\
  ((1048576 <= bytes < 2 ^ 53)%N ->
   exists n : N,
     formatBytes bytes
       = Some ((ofN (n / 100) ++ "." ++ padStart 2 "0" (ofN (n mod 100)))
               ++ " MB") /\
     (100 <= n)%N /\
     (1048576 * n <= 100 * bytes + 524288 < 1048576 * n + 1048576)%N) /\
  ((1048525 <= bytes < 1048576)%N ->
   formatBytes bytes = Some "1024.0 KB").
Proof.
  change (2 ^ 53)%N with 9007199254740992%N.
  assert (Hkb : (1024 <= bytes < 1048576)%N ->
    formatBytes bytes
      = Some ((ofN (((2 * bytes * 10 + 1024) / 2048) / 10) ++ "." ++
               ofN (((2 * bytes * 10 + 1024) / 2048) mod 10)) ++ " KB")).
  { intros H. unfold formatBytes.
    destruct (N.ltb_spec bytes 1024); [lia|].
    destruct (N.ltb_spec bytes (1024 * 1024)); [|lia].
    unfold toFixed_ratio.
    change (2 ^ 53)%N with 9007199254740992%N.
    destruct (N.ltb_spec bytes 9007199254740992); [|lia].
    change (10 ^ N.of_nat 1)%N with 10%N. change (2 * 1024)%N with 2048%N.
    cbn [fmap option_fmap option_map]. now rewrite padStart_one. }
  repeat split.
  - intros H. unfold formatBytes.
    destruct (N.ltb_spec bytes 1024); [reflexivity|lia].
  - intros H. exists ((2 * bytes * 10 + 1024) / 2048)%N.
    split; [apply Hkb, H|].
    pose proof (N.Div0.div_mod (2 * bytes * 10 + 1024) 2048) as Hdiv.
    pose proof (N.mod_upper_bound (2 * bytes * 10 + 1024) 2048
                  ltac:(discriminate)) as Hmod.
    clear Hkb.
    set (q := ((2 * bytes * 10 + 1024) / 2048)%N) in *.
    set (r := ((2 * bytes * 10 + 1024) mod 2048)%N) in *.
    clearbody q r. lia.
  - intros H. exists ((2 * bytes * 100 + 1048576) / 2097152)%N.
    split.
    + unfold formatBytes.
      destruct (N.ltb_spec bytes 1024); [lia|].
      destruct (N.ltb_spec bytes (1024 * 1024)); [lia|].
      unfold toFixed_ratio.
      change (2 ^ 53)%N with 9007199254740992%N.
      destruct (N.ltb_spec bytes 9007199254740992); [|lia].
      change (10 ^ N.of_nat 2)%N with 100%N.
      change (2 * (1024 * 1024))%N with 2097152%N.
      change (1024 * 1024)%N with 1048576%N. reflexivity.
    + pose proof (N.Div0.div_mod (2 * bytes * 100 + 1048576) 2097152) as Hdiv.
      pose proof (N.mod_upper_bound (2 * bytes * 100 + 1048576) 2097152
                    ltac:(discriminate)) as Hmod.
      clear Hkb.
      set (q := ((2 * bytes * 100 + 1048576) / 2097152)%N) in *.
      set (r := ((2 * bytes * 100 + 1048576) mod 2097152)%N) in *.
      clearbody q r. lia.
  - intros H. rewrite Hkb by lia.
    replace ((2 * bytes * 10 + 1024) / 2048)%N with 10240%N; [reflexivity|].
    apply N.div_unique with (r := (2 * bytes * 10 + 1024 - 2048 * 10240)%N); lia.
Qed.

(** The printed sizes at the edges of the three ranges. *)
Example formatBytes_edges :
  map formatBytes [0; 1023; 1024; 1280; 1048524; 1048575; 1048576; 5452595]%N
    = map Some [ "0 B"; "1023 B"; "1.0 KB"; "1.3 KB"; "1023.9 KB";
                 "1024.0 KB"; "1.00 MB"; "5.20 MB" ].
Proof. reflexivity. Qed.

(** ** The downloads read off a page, and the names they get *)

Lemma digits_prefix_spec s :
  all_digits (digits_prefix s).1 = true /\
  s = (digits_prefix s).1 ++ (digits_prefix s).2.
Proof.
  induction s as [|c s [IH1 IH2]]; [split; reflexivity|].
  cbn [digits_prefix]. destruct (is_digit c) eqn:Hc.
  - destruct (digits_prefix s) as [d rest]. cbn [fst snd] in *.
    split.
    + unfold all_digits in *. cbn [list_ascii_of_string forallb].
      now rewrite Hc, IH1.
    + change (String c s = String c (d ++ rest)). now f_equal.
  - split; reflexivity.
Qed.

Lemma includes_here pattern rest : includes (pattern ++ rest) pattern = true.
Proof.
  assert (H : String.prefix pattern (pattern ++ rest) = true).
  { induction pattern as [|c p IH]; [destruct rest; reflexivity|].
    simpl. destruct (ascii_dec c c); [exact IH|congruence]. }
  destruct (pattern ++ rest); cbn [includes]; now rewrite H.
Qed.

Lemma includes_later front s pattern :
  includes s pattern = true -> includes (front ++ s) pattern = true.
Proof.
  intros H. induction front as [|c f IH]; [exact H|].
  change (includes (String c (f ++ s)) pattern = true).
  cbn [includes]. rewrite IH. now destruct (String.prefix _ _).
Qed.

Lemma drop_prefix_spec p s r : drop_prefix p s = Some r -> s = p ++ r.
Proof.
  revert s. induction p as [|a p IH]; intros s H.
  - destruct s; injection H as <-; reflexivity.
  - destruct s as [|b s]; [discriminate|]. cbn [drop_prefix] in H.
    destruct (Ascii.eqb_spec a b) as [->|]; [|discriminate].
    change (String b s = String b (p ++ r)). f_equal. now apply IH.
Qed.

Lemma drop_any_spec ps s r :
  drop_any ps s = Some r -> exists p, In p ps /\ s = p ++ r.
Proof.
  induction ps as [|p ps IH]; [discriminate|]. cbn [drop_any].
  destruct (drop_prefix p s) as [r'|] eqn:Hp.
  - intros [= <-]. exists p. split; [now left|]. now apply drop_prefix_spec.
  - intros H. destruct (IH H) as (q & Hq & Hs). exists q. split; [now right|exact Hs].
Qed.

Lemma append_assoc (a b c : string) : (a ++ b) ++ c = a ++ b ++ c.
Proof.
  induction a as [|x a IH]; [reflexivity|].
  change (String x ((a ++ b) ++ c) = String x (a ++ b ++ c)). now f_equal.
Qed.

Lemma skip_fuel_suffix ps fuel s :
  exists front, s = front ++ skip_fuel ps fuel s.
Proof.
  revert s. induction fuel as [|fuel IH]; intros s; [now exists ""|].
  cbn [skip_fuel]. destruct (drop_any ps s) as [r|] eqn:Hr; [|now exists ""].
  apply drop_any_spec in Hr as (p & _ & ->).
  destruct (IH r) as [front Hfront].
  exists (p ++ front). rewrite append_assoc. now rewrite <- Hfront.
Qed.

Lemma resMatch_here_spec s width height :
  Extract.resMatch_here s = Some (width, height) ->
  (width <> "" /\ all_digits width = true) /\
  (height <> "" /\ all_digits height = true) /\
  exists sign, In sign Extract.times_sign /\ includes s sign = true.
Proof.
  unfold Extract.resMatch_here.
  destruct (digits_prefix_spec s) as [Hw Hs].
  destruct (digits_prefix s) as [w r1]. cbn [fst snd] in *.
  destruct w as [|c w]; [discriminate|].
  destruct (drop_any Extract.times_sign (skip_white r1)) as [r2|] eqn:Hsign;
    [|discriminate].
  destruct (digits_prefix_spec (skip_white r2)) as [Hh _].
  destruct (digits_prefix (skip_white r2)) as [h r3]. cbn [fst snd] in *.
  destruct h as [|d h]; [discriminate|].
  intros [= <- <-]. repeat split; try discriminate; try assumption.
  apply drop_any_spec in Hsign as (sign & Hin & Hr1).
  exists sign. split; [exact Hin|].
  destruct (skip_fuel_suffix white_space (String.length r1) r1) as [front Hfront].
  fold (skip_white r1) in Hfront.
  rewrite Hs, Hfront, Hr1.
  apply includes_later, includes_later, includes_here.
Qed.

Lemma resMatch_spec s width height :
  Extract.resMatch s = Some (width, height) ->
  (width <> "" /\ all_digits width = true) /\
  (height <> "" /\ all_digits height = true) /\
  exists sign, In sign Extract.times_sign /\ includes s sign = true.
Proof.
  induction s as [|c s IH].
  - cbn. discriminate.
  - cbn [Extract.resMatch].
    destruct (Extract.resMatch_here (String c s)) as [[w h]|] eqn:Hhere.
    + intros [= -> ->]. now apply resMatch_here_spec.
    + intros H. destruct (IH H) as (Hw & Hh & sign & Hin & Hinc).
      repeat split; try tauto.
      exists sign. split; [exact Hin|].
      now apply (includes_later (String c "")).
Qed.

(** An upper-case X is no sign: the item has no resolution. *)
Example upper_case_sign_is_not_a_resolution :
  Extract.describe {| Extract.link_href := Some "https://example.org/a.jpg";
                      Extract.textContent := "Full Res, 4096 X 4096 (3 MB)" |}
    = Some {| url := "https://example.org/a.jpg"; type := jpg;
              size := Some "3 MB"; resolution := None |}.
Proof. reflexivity. Qed.

(** ** The fields read off a page *)

Lemma classify_field_name label name :
  Extract.classify label = Some name -> In name field_names.
Proof.
  unfold Extract.classify, field_names.
  repeat match goal with
         | |- context [if ?b then _ else _] => destruct b
         end;
    intros [= <-]; cbn; tauto.
Qed.

Lemma reading_spec divs name value :
  Extract.reading divs = Some (name, value) ->
  In name field_names /\ value <> "".
Proof.
  unfold Extract.reading.
  destruct (2 <=? length divs)%nat; [|discriminate].
  destruct (toLowerCase (trim (nth 0 divs ""))) as [|c label]; [discriminate|].
  destruct (trim (List.last divs "")) as [|d v]; [discriminate|].
  destruct (String.eqb _ _); [discriminate|].
  destruct (Extract.classify (String c label)) as [n|] eqn:Hn; [|discriminate].
  intros [= <- <-]. split; [now apply classify_field_name in Hn|discriminate].
Qed.

Lemma get_set_field name value o :
  get_field (Extract.set_field name value o) name = Some value.
Proof.
  induction o as [|[k v] o IH]; cbn [Extract.set_field get_field].
  - now rewrite String.eqb_refl.
  - destruct (String.eqb k name) eqn:Hk; cbn [get_field]; now rewrite Hk.
Qed.

Lemma get_set_field_other name value o other :
  other <> name ->
  get_field (Extract.set_field name value o) other = get_field o other.
Proof.
  intros Hne. induction o as [|[k v] o IH]; cbn [Extract.set_field get_field].
  - destruct (String.eqb_spec name other); congruence.
  - destruct (String.eqb_spec k name) as [->|]; cbn [get_field].
    + destruct (String.eqb_spec name other); congruence.
    + now rewrite IH.
Qed.

Lemma set_field_keys name value o :
  map fst (Extract.set_field name value o)
    = if existsb (String.eqb name) (map fst o) then map fst o
      else (map fst o ++ [name])%list.
Proof.
  induction o as [|[k v] o IH]; [reflexivity|].
  cbn [Extract.set_field map fst existsb].
  rewrite (String.eqb_sym name k).
  destruct (String.eqb k name); [reflexivity|].
  cbn [map fst orb]. rewrite IH.
  now destruct (existsb _ _).
Qed.

Lemma set_field_values name value o (P : string * string -> Prop) :
  P (name, value) -> (forall k v, P (k, v) -> k = name -> P (k, value)) ->
  Forall P o -> Forall P (Extract.set_field name value o).
Proof.
  intros Hnew Hupd. induction 1 as [|[k v] o Hkv Ho IH];
    cbn [Extract.set_field].
  - now repeat constructor.
  - destruct (String.eqb_spec k name) as [->|]; constructor; eauto.
Qed.

Lemma set_field_NoDup name value o :
  NoDup (map fst o) -> NoDup (map fst (Extract.set_field name value o)).
Proof.
  intros Hnd. rewrite set_field_keys.
  destruct (existsb (String.eqb name) (map fst o)) eqn:Hex; [exact Hnd|].
  apply NoDup_app. split; [exact Hnd|]. split; [|apply NoDup_singleton].
  intros x Hx Hx'. apply list_elem_of_In in Hx, Hx'.
  destruct Hx' as [<-|[]].
  assert (existsb (String.eqb name) (map fst o) = true); [|congruence].
  apply existsb_exists. exists name. split; [exact Hx|apply String.eqb_refl].
Qed.

Lemma extract_fields_snoc listItems divs :
  Extract.extract_fields (listItems ++ [divs])
    = match Extract.reading divs with
      | Some (name, value) =>
          Extract.set_field name value (Extract.extract_fields listItems)
      | None => Extract.extract_fields listItems
      end.
Proof. unfold Extract.extract_fields. now rewrite fold_left_app. Qed.

Lemma extract_fields_invariant listItems :
  Forall (fun kv => In kv.1 field_names /\ kv.2 <> "")
         (Extract.extract_fields listItems) /\
  NoDup (map fst (Extract.extract_fields listItems)).
Proof.
  induction listItems as [|divs listItems [IH1 IH2]] using rev_ind.
  - split; constructor.
  - rewrite extract_fields_snoc.
    destruct (Extract.reading divs) as [[name value]|] eqn:Hr; [|now split].
    apply reading_spec in Hr as [Hname Hvalue]. split.
    + apply set_field_values; [now split|..|exact IH1].
      intros k v [Hk _] _. now split.
    + now apply set_field_NoDup.
Qed.

Lemma extract_fields_last before divs after name value :
  Extract.reading divs = Some (name, value) -> unread name after ->
  get_field (Extract.extract_fields (before ++ divs :: after)) name
    = Some value.
Proof.
  intros Hr. induction after as [|last after IH] using rev_ind; intros Hun.
  - rewrite extract_fields_snoc, Hr. apply get_set_field.
  - apply Forall_app in Hun as [Hafter Hlast].
    apply Forall_inv in Hlast.
    change (before ++ divs :: after ++ [last])%list
      with (before ++ (divs :: after) ++ [last])%list.
    rewrite app_assoc, extract_fields_snoc.
    destruct (Extract.reading last) as [[n v]|] eqn:Hl; [|now apply IH].
    rewrite get_set_field_other; [now apply IH|].
    intros ->. now apply (Hlast v).
Qed.

Lemma extract_fields_unread listItems name :
  unread name listItems ->
  get_field (Extract.extract_fields listItems) name = None.
Proof.
  induction listItems as [|last listItems IH] using rev_ind; intros Hun;
    [reflexivity|].
  apply Forall_app in Hun as [Hitems Hlast]. apply Forall_inv in Hlast.
  rewrite extract_fields_snoc.
  destruct (Extract.reading last) as [[n v]|] eqn:Hl; [|now apply IH].
  rewrite get_set_field_other; [now apply IH|].
  intros ->. now apply (Hlast v).
Qed.

(** X14.  The fields the extractor of stage 1 reads off a page.  Whatever
    the page holds, every field carries one of the eleven names, no name
    occurs twice and no value is empty -- so the page data it returns is
    well named.  A field is absent when no list item is read as it, and
    otherwise holds the value of the last list item read as it. *)
Theorem extracted_fields p :
  well_named (Extract.extractMetadata p) /\
  NoDup (map fst (fields (Extract.extractMetadata p))) /\
  Forall (fun kv => kv.2 <> "") (fields (Extract.extractMetadata p)) /\
  (forall name,
     unread name (Extract.listItems p) ->
     get_field (fields (Extract.extractMetadata p)) name = None) /\
  (forall before divs after name value,
     Extract.listItems p = (before ++ divs :: after)%list ->
     Extract.reading divs = Some (name, value) -> unread name after ->
     get_field (fields (Extract.extractMetadata p)) name = Some value).
Proof.
  unfold well_named, Extract.extractMetadata. cbn [fields].
  destruct (extract_fields_invariant (Extract.listItems p)) as [Hall Hnd].
  repeat split.
  - eapply List.Forall_impl; [|exact Hall]. now intros kv [H _].
  - exact Hnd.
  - eapply List.Forall_impl; [|exact Hall]. now intros kv [_ H].
  - apply extract_fields_unread.
  - intros before divs after name value ->. apply extract_fields_last.
Qed.

Example label_order_decides :
  Extract.extract_fields
    [ ["Object Name"; "M31"]; ["Credit"];
      ["Object name and description"; "ignored"; "Andromeda"];
      ["Exposure Dates"; "2001"]; ["Filters"; "filters"];
      ["  credit: "; "  NASA, ESA  "] ]
    = [ ("objectName", "Andromeda"); ("exposureDates", "2001");
        ("credit", "NASA, ESA") ].
Proof. reflexivity. Qed.

(** ** Stage 2: the related terms *)

Lemma existsb_eqb_In x l : existsb (String.eqb x) l = true <-> In x l.
Proof.
  rewrite existsb_exists. split.
  - intros (y & Hy & Heq). now apply String.eqb_eq in Heq as ->.
  - intros H. exists x. split; [exact H|apply String.eqb_refl].
Qed.

Lemma indexOf_bound a v i : indexOf a v = Some i -> i < length a.
Proof.
  revert i. induction a as [|x a IH]; intros i; [discriminate|].
  cbn [indexOf length]. destruct (String.eqb x v).
  - intros [= <-]. lia.
  - destruct (indexOf a v) as [j|]; [|discriminate].
    intros [= <-]. specialize (IH j eq_refl). lia.
Qed.

Lemma indexOf_absent a v :
  existsb (String.eqb v) a = false -> indexOf a v = None.
Proof.
  induction a as [|x a IH]; [reflexivity|].
  cbn [existsb indexOf]. rewrite (String.eqb_sym v x).
  destruct (String.eqb x v); [discriminate|].
  intros H. now rewrite IH.
Qed.

Lemma indexOf_present a v :
  existsb (String.eqb v) a = true -> exists i, indexOf a v = Some i.
Proof.
  induction a as [|x a IH]; [discriminate|].
  cbn [existsb indexOf]. rewrite (String.eqb_sym v x).
  destruct (String.eqb x v); [eauto|].
  intros H. destruct (IH H) as [i ->]. cbn. eauto.
Qed.

Lemma indexOf_app pre l v :
  indexOf (pre ++ l) v
    = match indexOf pre v with
      | Some j => Some j
      | None => option_map (Nat.add (length pre)) (indexOf l v)
      end.
Proof.
  induction pre as [|x pre IH]; cbn [app indexOf length].
  - now destruct (indexOf l v).
  - destruct (String.eqb x v); [reflexivity|]. rewrite IH.
    destruct (indexOf pre v); [reflexivity|]. now destruct (indexOf l v).
Qed.

Lemma filter_from_first_seen a pre l :
  a = (pre ++ l)%list ->
  filter_from (fun v i => match indexOf a v with
                          | Some j => (j =? i)%nat
                          | None => false
                          end) (length pre) l
    = first_seen pre l.
Proof.
  revert pre. induction l as [|x l IH]; intros pre Ha; [reflexivity|].
  cbn [filter_from first_seen].
  assert (Hnext : a = ((pre ++ [x]) ++ l)%list) by now rewrite <- app_assoc.
  specialize (IH _ Hnext). rewrite length_app, Nat.add_1_r in IH.
  rewrite IH. rewrite Ha at 1. rewrite indexOf_app.
  destruct (existsb (String.eqb x) pre) eqn:Hseen.
  - destruct (indexOf_present _ _ Hseen) as [j Hj]. rewrite Hj.
    apply indexOf_bound in Hj.
    destruct (Nat.eqb_spec j (length pre)); [lia|reflexivity].
  - rewrite (indexOf_absent _ _ Hseen). cbn [indexOf].
    rewrite String.eqb_refl. cbn [option_map].
    rewrite Nat.add_0_r, Nat.eqb_refl. reflexivity.
Qed.

Lemma unique_first_seen a : Content.unique a = first_seen [] a.
Proof. now apply (filter_from_first_seen a []). Qed.

Lemma first_seen_In seen l x :
  In x (first_seen seen l) <-> In x l /\ ~ In x seen.
Proof.
  revert seen. induction l as [|y l IH]; intros seen; [cbn; tauto|].
  cbn [first_seen].
  destruct (existsb (String.eqb y) seen) eqn:Hy.
  - apply existsb_eqb_In in Hy. rewrite IH, in_app_iff. cbn [In].
    intuition (subst; tauto).
  - assert (Hy' : ~ In y seen).
    { intros H. apply existsb_eqb_In in H. congruence. }
    cbn [In]. rewrite IH, in_app_iff. cbn [In].
    destruct (String.eqb_spec y x) as [->|Hne]; intuition (subst; tauto).
Qed.

Lemma first_seen_NoDup seen l : NoDup (first_seen seen l).
Proof.
  revert seen. induction l as [|y l IH]; intros seen; [constructor|].
  cbn [first_seen]. destruct (existsb (String.eqb y) seen); [apply IH|].
  apply NoDup_cons. split; [|apply IH].
  rewrite list_elem_of_In, first_seen_In, in_app_iff. cbn [In]. tauto.
Qed.

Lemma first_seen_sublist seen l : sublist (first_seen seen l) l.
Proof.
  revert seen. induction l as [|y l IH]; intros seen; [constructor|].
  cbn [first_seen]. destruct (existsb (String.eqb y) seen).
  - apply sublist_cons, IH.
  - apply sublist_skip, IH.
Qed.

Lemma first_seen_fixed seen l :
  NoDup l -> (forall x, In x l -> ~ In x seen) -> first_seen seen l = l.
Proof.
  revert seen. induction l as [|y l IH]; intros seen Hnd Hfresh;
    [reflexivity|].
  apply NoDup_cons in Hnd as [Hy Hnd]. rewrite list_elem_of_In in Hy.
  cbn [first_seen].
  destruct (existsb (String.eqb y) seen) eqn:Hseen.
  - apply existsb_eqb_In in Hseen. destruct (Hfresh y); [now left|exact Hseen].
  - f_equal. apply IH; [exact Hnd|].
    intros x Hx. rewrite in_app_iff. cbn [In].
    intros [H|[<-|[]]]; [|tauto]. apply (Hfresh x); [now right|exact H].
Qed.

(** X15.  The related terms of stage 2 hold no text twice; a text is among
    them exactly when it is the trimmed text of a link into [/category/] or
    [/universe/]; they stand in the order in which the links first show
    them; and making them unique once more changes nothing. *)
Theorem related_terms_unique anchors :
  let texts := map (fun a => trim (Content.anchor_text a))
                   (List.filter Content.is_term anchors) in
  NoDup (Content.related_terms anchors) /\
  (forall term,
     In term (Content.related_terms anchors) <->
     exists a, In a anchors /\ Content.is_term a = true /\
               trim (Content.anchor_text a) = term) /\
  sublist (Content.related_terms anchors) texts /\
  (forall front term back,
     texts = (front ++ term :: back)%list -> ~ In term front ->
     exists kept,
       Content.related_terms anchors
         = (Content.unique front ++ term :: kept)%list) /\
  Content.unique (Content.related_terms anchors)
    = Content.related_terms anchors.
Proof.
  intros texts. unfold Content.related_terms. fold texts.
  rewrite !unique_first_seen. repeat split.
  - apply first_seen_NoDup.
  - intros H. apply first_seen_In in H as [H _].
    apply in_map_iff in H as (a & Ha & Hin).
    apply filter_In in Hin as [Hin Hterm]. eauto.
  - intros (a & Hin & Hterm & <-). apply first_seen_In. split; [|tauto].
    apply in_map_iff. exists a. split; [reflexivity|].
    apply filter_In. now split.
  - apply first_seen_sublist.
  - intros front term back Htexts Hfresh. rewrite Htexts.
    assert (Hsplit : forall seen l1 l2,
              first_seen seen (l1 ++ l2)
                = (first_seen seen l1 ++ first_seen (seen ++ l1) l2)%list).
    { intros seen l1. revert seen.
      induction l1 as [|y l1 IH]; intros seen l2.
      - cbn. now rewrite app_nil_r.
      - cbn [app first_seen]. rewrite IH, <- app_assoc. cbn [app].
        now destruct (existsb _ _). }
    rewrite Hsplit. cbn [app first_seen].
    destruct (existsb (String.eqb term) front) eqn:Hseen.
    + apply existsb_eqb_In in Hseen. tauto.
    + eexists. rewrite unique_first_seen. reflexivity.
  - apply first_seen_fixed; [apply first_seen_NoDup|]. intros x _ [].
Qed.

(** ** The pauses between records *)

Lemma pauses_app evs1 evs2 :
  pauses (evs1 ++ evs2) = pauses evs1 + pauses evs2.
Proof. unfold pauses. now rewrite List.filter_app, length_app. Qed.

Lemma no_pause_unit w : no_pause w w [].
Proof. reflexivity. Qed.

Lemma no_pause_compose w1 w2 w3 evs1 evs2 :
  no_pause w1 w2 evs1 -> no_pause w2 w3 evs2 -> no_pause w1 w3 (evs1 ++ evs2).
Proof. unfold no_pause. intros H1 H2. rewrite pauses_app. lia. Qed.

Ltac solve_no_pause :=
  intros w; cbv beta delta [emit goto page_url evaluate now access
    readdir readJson fetchBuffer mkdir writeFile]; cbn beta iota zeta;
  repeat match goal with
         | |- context [match ?x with _ => _ end] => destruct x; cbn
         | |- context [if ?x then _ else _] => destruct x; cbn
         end;
  reflexivity.

Lemma delay_no_pause ms : ms <> DELAY_MS -> keeps no_pause (delay ms).
Proof.
  intros Hne w. unfold delay, emit, no_pause, pauses. cbn.
  now destruct (Nat.eqb_spec ms DELAY_MS).
Qed.

Lemma goto_no_pause env target : keeps no_pause (goto env target).
Proof. solve_no_pause. Qed.

Lemma page_url_no_pause : keeps no_pause page_url.
Proof. solve_no_pause. Qed.

Lemma evaluate_no_pause {A} (f : Document -> Outcome A) :
  keeps no_pause (evaluate f).
Proof. solve_no_pause. Qed.

Lemma access_no_pause p : keeps no_pause (access p).
Proof. solve_no_pause. Qed.

Lemma readdir_no_pause dir : keeps no_pause (readdir dir).
Proof. solve_no_pause. Qed.

Lemma now_no_pause env : keeps no_pause (now env).
Proof. solve_no_pause. Qed.

Lemma fetchBuffer_no_pause env source :
  keeps no_pause (fetchBuffer env source).
Proof. solve_no_pause. Qed.

Lemma mkdir_no_pause env dir : keeps no_pause (mkdir env dir).
Proof. solve_no_pause. Qed.

Lemma writeFile_no_pause env p data : keeps no_pause (writeFile env p data).
Proof. solve_no_pause. Qed.

Ltac keeps_no_pause :=
  unfold_bind;
  repeat first
    [ apply (keeps_bind no_pause no_pause_compose)
    | apply (keeps_try_catch no_pause no_pause_compose)
    | apply (keeps_settle no_pause)
    | apply (keeps_ret no_pause no_pause_unit)
    | apply (keeps_throw no_pause no_pause_unit)
    | apply delay_no_pause; unfold DELAY_MS; lia
    | apply goto_no_pause | apply page_url_no_pause
    | apply evaluate_no_pause | apply access_no_pause
    | apply readdir_no_pause | apply now_no_pause
    | apply fetchBuffer_no_pause
    | apply mkdir_no_pause | apply writeFile_no_pause
    | assumption
    | lazymatch goal with
      | |- keeps _ _ => fail
      | |- forall _, _ => intro
      end
    | match goal with
      | |- keeps _ (match ?x with _ => _ end) => destruct x
      | |- keeps _ (if ?x then _ else _) => destruct x
      end ].

Lemma downloadFile_no_pause env source destPath retries :
  keeps no_pause (downloadFile env source destPath retries).
Proof.
  unfold downloadFile. generalize 1 at 1. generalize retries at 2.
  intros left. induction left as [|left IH]; intros attempt;
    cbn [downloadFile_loop]; unfold downloadAttempt; keeps_no_pause.
  apply IH.
Qed.

Lemma downloadAssets_no_pause env F pending :
  forall count, keeps no_pause (downloadAssets env F pending count).
Proof.
  induction pending as [|download rest IH]; intros count;
    cbn [downloadAssets]; keeps_no_pause.
  all: try apply downloadFile_no_pause.
  all: apply IH.
Qed.

Lemma processRow_no_pause env row : keeps no_pause (processRow env row).
Proof.
  unfold processRow, processRow_try, downloadAndPersist, alreadyProcessed,
    navigateAndExtract.
  keeps_no_pause.
  all: apply downloadAssets_no_pause.
Qed.

(** X16.  The pacing of a batch.  A record that was not skipped is followed
    by one pause of [DELAY_MS], unless it is the last of the list; nothing
    else in stage 1 waits that long.  So a batch that returns has paused at
    most once per record processed or failed, at least once for each of them
    but one, and never as often as there are records. *)
Theorem batch_pauses env records w stats w' evs :
  stage1 env records w = (Returned stats, w', evs) ->
  pauses evs <= processed stats + failed stats <= S (pauses evs) /\
  pauses evs <= length records - 1 /\
  (skipped_count stats = 0 -> pauses evs = length records - 1).
Proof.
  unfold stage1. intros Hrun.
  assert (Hgen : forall records stats0 w stats w' evs,
            main_loop env records stats0 w = (Returned stats, w', evs) ->
            exists worked,
              processed stats + failed stats
                = processed stats0 + failed stats0 + worked /\
              skipped_count stats0 <= skipped_count stats /\
              tally stats = tally stats0 + length records /\
              pauses evs <= worked <= S (pauses evs) /\
              (length records = 0 -> worked = 0) /\
              pauses evs <= length records - 1).
  { clear. induction records as [|row rest IH];
      intros stats0 w stats w' evs Hrun.
    - injection Hrun as <- <- <-. exists 0. unfold tally. cbn. lia.
    - cbn [main_loop] in Hrun. unfold mbind, M_bind in Hrun.
      apply bind_returned in Hrun as (res & w1 & evs1 & evs2 & Hrow & Hrun & ->).
      apply bind_returned in Hrun as (u & w2 & evs3 & evs4 & Hwait & Hrest & ->).
      pose proof (processRow_no_pause env row w) as Hquiet.
      rewrite Hrow in Hquiet. unfold no_pause in Hquiet. cbn [fst snd] in Hquiet.
      apply IH in Hrest as (worked & Hsum & Hskip & Htally & Hbound & Hnil & Hlen).
      rewrite !pauses_app, Hquiet. cbn [length].
      assert (Hres : res = Skipped \/ skipped res = false)
        by (destruct res; auto).
      destruct Hres as [->|Hres].
      + apply (f_equal snd) in Hwait. cbn in Hwait. subst evs3.
        exists worked. unfold tally, count_result in *. cbn in *. lia.
      + rewrite Hres in Hwait. cbn [negb andb] in Hwait.
        assert (Hcount : processed (count_result stats0 res)
                           + failed (count_result stats0 res)
                         = S (processed stats0 + failed stats0) /\
                         skipped_count (count_result stats0 res)
                         = skipped_count stats0 /\
                         tally (count_result stats0 res) = S (tally stats0)).
        { unfold tally. destruct res; cbn in *; try discriminate; lia. }
        destruct Hcount as (Hc1 & Hc2 & Hc3).
        exists (S worked).
        destruct rest as [|next rest].
        * apply (f_equal snd) in Hwait. cbn in Hwait. subst evs3.
          cbn in *. lia.
        * apply (f_equal snd) in Hwait. cbn in Hwait. subst evs3.
          cbn [length] in *. change (pauses [EvDelay DELAY_MS]) with 1. lia. }
  destruct (Hgen _ _ _ _ _ _ Hrun) as (worked & Hsum & _ & Htally & Hb & _ & Hlen).
  unfold tally in Htally. cbn in Hsum, Htally. lia.
Qed.

Lemma batch_pauses_witness :
  pauses (stage1 Sample.online [Sample.march_5; Sample.july_4] Sample.fresh).2
    = 1.
Proof.
  destruct (stage1 Sample.online [Sample.march_5; Sample.july_4] Sample.fresh)
    as [[[stats|msg] w'] evs] eqn:Hrun; [|vm_compute in Hrun; discriminate].
  destruct (batch_pauses _ _ _ _ _ _ Hrun) as (_ & _ & Hall).
  cbn [snd]. apply Hall.
  assert (Hs : (stage1 Sample.online [Sample.march_5; Sample.july_4]
                       Sample.fresh).1.1 = Returned stats)
    by now rewrite Hrun.
  vm_compute in Hs. now injection Hs as <-.
Defined.

(** ** What stage 2 reads back from the metadata of stage 1 *)

Lemma processFolder_try_written env folderPath metadata w res w' evs :
  Enrich.processFolder_try env folderPath metadata w
    = (Returned res, w', evs) ->
  exists videoContent enrichedAt,
    file_at (fs w') folderPath "video-content.json"
      = Some (JsonDoc (Enrich.build_enriched metadata
                         (Enrich.path_basename folderPath)
                         videoContent enrichedAt)).
Proof.
  unfold Enrich.processFolder_try.
  destruct (Enrich.prop metadata "finalUrl") as [[| | |finalUrl| |]|];
    try discriminate.
  unfold mbind, M_bind. intros Hrun.
  apply bind_returned in Hrun as ([] & w1 & evs1 & evs2 & _ & Hrun & _).
  apply bind_returned in Hrun as ([] & w2 & evs3 & evs4 & _ & Hrun & _).
  apply bind_returned in Hrun as (vc & w3 & evs5 & evs6 & _ & Hrun & _).
  apply bind_returned in Hrun as (ts & w4 & evs7 & evs8 & _ & Hrun & _).
  apply bind_returned in Hrun as ([] & w5 & evs9 & evs10 & Hwrite & Hrun & _).
  exists vc, ts.
  assert (Hfile : file_at (fs w5) folderPath "video-content.json"
                  = Some (JsonDoc (Enrich.build_enriched metadata
                                     (Enrich.path_basename folderPath) vc ts))).
  { unfold writeFile in Hwrite. cbn [dirname basename file_in] in Hwrite.
    destruct (disk_fault env (tick w4));
      [destruct (torn env (tick w4)), (fs w4 !! folderPath); discriminate|].
    destruct (fs w4 !! folderPath) as [entries|]; [|discriminate].
    injection Hwrite as <- _. unfold file_at. cbn [fs].
    now rewrite !lookup_insert_eq. }
  match type of Hrun with
  | context [match ?t with _ => _ end] => destruct t as [[| | | | |]|]
  end;
    repeat match type of Hrun with
           | context [if ?b then _ else _] => destruct b
           end;
    try discriminate; injection Hrun as _ <- _; exact Hfile.
Qed.

Lemma processFolder_processed_inv env folderPath w w' evs :
  Enrich.processFolder env folderPath w = (Returned Processed, w', evs) ->
  exists metadata videoContent enrichedAt,
    file_at (fs w) folderPath "metadata.json" = Some (JsonDoc metadata) /\
    file_at (fs w') folderPath "video-content.json"
      = Some (JsonDoc (Enrich.build_enriched metadata
                         (Enrich.path_basename folderPath)
                         videoContent enrichedAt)).
Proof.
  intros Hrun.
  destruct (file_at (fs w) folderPath "video-content.json") as [data|] eqn:Hv.
  - rewrite processFolder_enriched in Hrun by (rewrite Hv; eauto).
    discriminate.
  - rewrite (processFolder_until_guard env folderPath w Hv) in Hrun.
    destruct (file_at (fs w) folderPath "metadata.json") as [[bytes|md]|];
      try discriminate.
    destruct (Enrich.get md "finalUrl") as [finalUrl|msg]; [|discriminate].
    destruct (negb (Enrich.truthy finalUrl)); [discriminate|].
    unfold try_catch in Hrun.
    destruct (Enrich.processFolder_try env folderPath md w)
      as [[[r|msg] w2] evs2] eqn:Htry; [|discriminate].
    injection Hrun as _ <- _.
    destruct (processFolder_try_written _ _ _ _ _ _ _ Htry) as (vc & ts & Hfile).
    exists md, vc, ts. auto.
Qed.

(** The properties of the record that stage 2 reads back by name. *)
Lemma build_metadata_record row folder finalUrl pd downloadedAt :
  well_named pd ->
  let metadata := build_metadata row folder finalUrl pd downloadedAt in
  Enrich.prop metadata "csvCaption" = Some (JString (Caption row)) /\
  Enrich.prop metadata "csvYear" = Some (JString (Year row)) /\
  Enrich.prop metadata "pageTitle" = JString <$> pageTitle pd.
Proof.
  intros Hnames metadata. subst metadata. unfold build_metadata.
  cbn [Enrich.prop].
  assert (Hfields : forall key,
            In key ["csvCaption"; "csvYear"; "pageTitle"] ->
            ~ In key (map fst (fields pd))).
  { intros key Hkey Hin. apply in_map_iff in Hin as (kv & <- & Hkv).
    unfold well_named in Hnames. rewrite List.Forall_forall in Hnames.
    specialize (Hnames kv Hkv). unfold field_names in Hnames.
    cbn in Hkey, Hnames.
    repeat match goal with
           | H : _ \/ _ |- _ => destruct H
           | H : False |- _ => destruct H
           end; congruence. }
  assert (Hother : forall key,
            In key ["csvCaption"; "csvYear"] ->
            ~ In key (map fst (props_of_pageData pd ++
                               [("downloadedAt", JString downloadedAt)]))).
  { intros key Hkey Hin. rewrite map_app, in_app_iff in Hin.
    destruct Hin as [Hin|[<-|[]]].
    - apply props_of_pageData_keys in Hin.
      destruct Hin as [->|[->|[->|Hin]]];
        try (cbn in Hkey; intuition discriminate).
      apply (Hfields key); [cbn in Hkey |- *; tauto|exact Hin].
    - cbn in Hkey. intuition discriminate. }
  repeat split;
    try (rewrite lookup_assign_all_other by (apply Hother; cbn; tauto);
         reflexivity).
  rewrite lookup_assign_all, rev_app_distr. cbn [rev app Enrich.lookup_prop].
  cbn [String.eqb Ascii.eqb Bool.eqb].
  rewrite (lookup_prop_rev _ _ (props_of_pageData_NoDup pd)).
  unfold props_of_pageData. rewrite lookup_assign_all_other.
  - destruct (pageTitle pd) as [t|]; cbn; [reflexivity|].
    now destruct (pageDescription pd).
  - rewrite map_app, in_app_iff, map_map. cbn [map fst In].
    intros [Hin|[[=]|[]]]. apply (Hfields "pageTitle"); [cbn; tauto|exact Hin].
Qed.

(** X17.  What stage 1 stored under a name, stage 2 reads back under that
    name.  When stage 1 has processed a record and stage 2 then processes its
    folder, the [video-content.json] it writes carries the date and the
    caption of the record, the year among the quick facts, the URL of the
    record with the URL the first navigation of stage 1 reached, and a title
    that is a text: the one of the page stage 2 saw, else the one stage 1
    saw, else the name of the record. *)
Theorem enriched_document_carries_the_record
    env1 env2 row folder w w1 evs1 w2 evs2 :
  parseDateToFolder (Date row) = Returned folder ->
  (forall t target doc pd,
     goto_outcome env1 t target = Returned doc ->
     doc_metadata doc = Returned pd -> well_named pd) ->
  let F := path_join DUMPS_DIR folder in
  processRow env1 row w = (Returned Processed, w1, evs1) ->
  Enrich.processFolder env2 F w1 = (Returned Processed, w2, evs2) ->
  exists enriched facts doc title,
    goto_outcome env1 (tick w) (URL row) = Returned doc /\
    file_at (fs w2) F "video-content.json" = Some (JsonDoc enriched) /\
    Enrich.prop enriched "date" = Some (JString (Date row)) /\
    Enrich.prop enriched "title" = Some (JString title) /\
    Enrich.prop enriched "shortCaption" = Some (JString (Caption row)) /\
    Enrich.prop enriched "quickFacts" = Some (JObject facts) /\
    Enrich.lookup_prop facts "yearCaptured" = Some (JString (Year row)) /\
    Enrich.prop enriched "urls"
      = Some (JObject [ ("original", JString (URL row));
                        ("final", JString (doc_url doc)) ]).
Proof.
  intros Hkey Hnames F Hrun1 Hrun2.
  destruct (processRow_processed_inv env1 row folder w w1 evs1 Hkey Hrun1)
    as (finalUrl & pd & w0 & evs0 & ts & Hnav & Hfile).
  destruct (navigateAndExtract_returned _ _ _ _ _ _ _ Hnav)
    as (doc & Hgoto & -> & _ & Hfrom).
  assert (Hwn : well_named pd).
  { destruct Hfrom as [(Hmeta & _)|(pd0 & link & doc2 & _ & _ & _ & Hg2 & Hm2 & _)];
      eauto. }
  fold F in Hfile.
  destruct (processFolder_processed_inv env2 F w1 w2 evs2 Hrun2)
    as (metadata & vc & ts2 & Hmeta & Hwritten).
  rewrite Hfile in Hmeta. injection Hmeta as <-.
  destruct (build_metadata_props row folder (doc_url doc) pd ts Hwn)
    as (Hdate & _ & Horiginal & Hfinal & Hname & _).
  destruct (build_metadata_record row folder (doc_url doc) pd ts Hwn)
    as (Hcaption & Hyear & Htitle).
  set (metadata := build_metadata row folder (doc_url doc) pd ts) in *.
  clearbody metadata.
  assert (Ht : exists t,
            Enrich.js_or (Enrich.js_or (JString <$> title vc)
                                       (Enrich.prop metadata "pageTitle"))
                         (Enrich.prop metadata "csvName")
              = Some (JString t)).
  { rewrite Htitle, Hname. unfold Enrich.js_or.
    destruct (title vc) as [[|c s]|], (pageTitle pd) as [[|c' s']|];
      cbn; eauto. }
  destruct Ht as [t Ht].
  assert (Hfacts : forall (six : list (string * option Json)) v,
            ~ In "yearCaptured" (map fst six) ->
            Enrich.lookup_prop (defined (six ++ [("yearCaptured", Some v)]))
                               "yearCaptured" = Some v).
  { intros six v Hsix. induction six as [|[k [x|]] six IH].
    - reflexivity.
    - cbn in Hsix |- *. destruct (String.eqb_spec k "yearCaptured"); [tauto|].
      apply IH. tauto.
    - cbn in Hsix |- *. apply IH. tauto. }
  destruct (Enrich.prop metadata "credit") as [credit|] eqn:Hcredit;
    eexists _, _, doc, t;
    (split; [exact Hgoto|]); (split; [exact Hwritten|]);
    unfold Enrich.build_enriched; cbn [Enrich.prop];
    rewrite Ht, Hdate, Horiginal, Hfinal, Hcaption, Hyear, Hcredit;
    (split; [reflexivity|]); (split; [reflexivity|]);
    (split; [reflexivity|]); (split; [reflexivity|]);
    (split; [|reflexivity]);
    match goal with
    | |- Enrich.lookup_prop (defined (?a :: ?b :: ?c :: ?d :: ?e :: ?f :: ?g))
           _ = _ =>
        apply (Hfacts [a; b; c; d; e; f])
    end;
    cbn; intuition discriminate.
Qed.

Lemma enriched_document_carries_the_record_witness :
  let w1 := (processRow Sample.online Sample.march_5 Sample.fresh).1.2 in
  let w2 := (Enrich.processFolder Sample.online "./dumps/03-05" w1).1.2 in
  exists enriched,
    file_at (fs w2) "./dumps/03-05" "video-content.json"
      = Some (JsonDoc enriched) /\
    Enrich.prop enriched "date" = Some (JString "March 5 2021").
Proof.
  intros w1 w2.
  destruct (enriched_document_carries_the_record Sample.online Sample.online
              Sample.march_5 "03-05" Sample.fresh w1
              (processRow Sample.online Sample.march_5 Sample.fresh).2 w2
              (Enrich.processFolder Sample.online "./dumps/03-05" w1).2)
    as (enriched & facts & doc & t & _ & Hfile & Hdate & _).
  - reflexivity.
  - intros t target doc pd [= <-] [= <-]. repeat constructor.
  - vm_compute. reflexivity.
  - vm_compute. reflexivity.
  - exists enriched. split; [exact Hfile|exact Hdate].
Defined.

(** ** White space at the ends of the extracted texts *)

Lemma drop_prefix_here p rest : drop_prefix p (p ++ rest) = Some rest.
Proof.
  induction p as [|c p IH]; [now destruct rest|].
  change (drop_prefix (String c p) (String c (p ++ rest)) = Some rest).
  cbn [drop_prefix]. now rewrite Ascii.eqb_refl.
Qed.

Lemma drop_any_None ps s :
  drop_any ps s = None <-> Forall (fun p => drop_prefix p s = None) ps.
Proof.
  induction ps as [|p ps IH]; cbn [drop_any].
  - split; [constructor|reflexivity].
  - destruct (drop_prefix p s) eqn:Hp.
    + split; [discriminate|]. intros H. apply Forall_inv in H. congruence.
    + rewrite IH. split; [now constructor|]. intros H.
      now apply Forall_inv_tail in H.
Qed.

Lemma drop_prefix_shorter p s r :
  drop_prefix p s = Some r -> p <> "" -> String.length r < String.length s.
Proof.
  intros H Hne. apply drop_prefix_spec in H as ->.
  rewrite length_append. destruct p; [congruence|cbn; lia].
Qed.

Lemma skip_fuel_done ps fuel s :
  Forall (fun p => p <> "") ps -> String.length s <= fuel ->
  drop_any ps (skip_fuel ps fuel s) = None.
Proof.
  intros Hps. revert s. induction fuel as [|fuel IH]; intros s Hlen.
  - destruct s; [|cbn in Hlen; lia]. cbn [skip_fuel].
    apply drop_any_None. eapply List.Forall_impl; [|exact Hps].
    intros [|c p] Hp; [congruence|reflexivity].
  - cbn [skip_fuel]. destruct (drop_any ps s) as [r|] eqn:Hr; [|exact Hr].
    apply IH. apply drop_any_spec in Hr as (p & Hin & ->).
    rewrite List.Forall_forall in Hps. specialize (Hps p Hin).
    rewrite length_append in Hlen. destruct p; [congruence|cbn in Hlen; lia].
Qed.

Lemma reverse_length s : String.length (reverse s) = String.length s.
Proof.
  unfold reverse.
  assert (H : forall l, String.length (string_of_list_ascii l) = length l).
  { induction l as [|c l IH]; cbn; congruence. }
  rewrite H, length_rev. clear H.
  induction s as [|c s IH]; cbn; congruence.
Qed.

Lemma reverse_involutive s : reverse (reverse s) = s.
Proof.
  unfold reverse.
  now rewrite list_ascii_of_string_of_list_ascii, rev_involutive,
    string_of_list_ascii_of_string.
Qed.

Lemma list_ascii_of_append a b :
  list_ascii_of_string (a ++ b)
    = (list_ascii_of_string a ++ list_ascii_of_string b)%list.
Proof.
  induction a as [|c a IH]; [reflexivity|].
  change (c :: list_ascii_of_string (a ++ b)
          = c :: (list_ascii_of_string a ++ list_ascii_of_string b)%list).
  now f_equal.
Qed.

Lemma string_of_list_app l1 l2 :
  string_of_list_ascii (l1 ++ l2)
    = string_of_list_ascii l1 ++ string_of_list_ascii l2.
Proof.
  induction l1 as [|c l1 IH]; [reflexivity|].
  change (String c (string_of_list_ascii (l1 ++ l2))
          = String c (string_of_list_ascii l1 ++ string_of_list_ascii l2)).
  now f_equal.
Qed.

Lemma reverse_append a b : reverse (a ++ b) = reverse b ++ reverse a.
Proof.
  unfold reverse.
  now rewrite list_ascii_of_append, rev_app_distr, string_of_list_app.
Qed.

Lemma white_space_nonempty : Forall (fun p => p <> "") white_space.
Proof. repeat constructor; discriminate. Qed.

Lemma white_space_reversed_nonempty :
  Forall (fun p => p <> "") (map reverse white_space).
Proof. repeat constructor; discriminate. Qed.

Lemma trimEnd_prefix s : exists back, s = trimEnd s ++ back.
Proof.
  unfold trimEnd.
  destruct (skip_fuel_suffix (map reverse white_space) (String.length s)
                             (reverse s)) as [front Hfront].
  exists (reverse front).
  rewrite <- reverse_append, <- Hfront. now rewrite reverse_involutive.
Qed.

Lemma trim_trimmed s : trimmed (trim s).
Proof.
  unfold trim, trimmed. split.
  - assert (Hstart : drop_any white_space (trimStart s) = None).
    { apply skip_fuel_done; [apply white_space_nonempty|reflexivity]. }
    destruct (trimEnd_prefix (trimStart s)) as [back Hback].
    rewrite drop_any_None in Hstart |- *.
    eapply List.Forall_impl; [|exact Hstart].
    intros p Hp. cbv beta in Hp.
    destruct (drop_prefix p (trimEnd (trimStart s))) as [r|] eqn:Hr;
      [|reflexivity].
    apply drop_prefix_spec in Hr. rewrite Hback, Hr, append_assoc in Hp.
    now rewrite drop_prefix_here in Hp.
  - unfold trimEnd. rewrite reverse_involutive.
    apply skip_fuel_done; [apply white_space_reversed_nonempty|].
    now rewrite reverse_length.
Qed.

Lemma reading_trimmed divs name value :
  Extract.reading divs = Some (name, value) -> trimmed value.
Proof.
  unfold Extract.reading.
  destruct (2 <=? length divs)%nat; [|discriminate].
  destruct (toLowerCase (trim (nth 0 divs ""))) as [|c label]; [discriminate|].
  pose proof (trim_trimmed (List.last divs "")) as Ht.
  destruct (trim (List.last divs "")) as [|d v]; [discriminate|].
  destruct (String.eqb _ _); [discriminate|].
  destruct (Extract.classify (String c label)) as [n|]; [|discriminate].
  now intros [= <- <-].
Qed.

Lemma extract_fields_trimmed listItems :
  Forall (fun kv => trimmed kv.2) (Extract.extract_fields listItems).
Proof.
  induction listItems as [|divs listItems IH] using rev_ind; [constructor|].
  rewrite extract_fields_snoc.
  destruct (Extract.reading divs) as [[name value]|] eqn:Hr; [|exact IH].
  apply reading_trimmed in Hr.
  apply set_field_values; [exact Hr|auto|exact IH].
Qed.

(** X18.  No text the extractors hand on starts or ends with white space:
    not the title, the description or the value of a field that stage 1
    reads off a page, and not a related term of stage 2. *)
Theorem extracted_texts_are_trimmed :
  (forall p,
     let pd := Extract.extractMetadata p in
     (forall t, pageTitle pd = Some t -> trimmed t) /\
     (forall t, pageDescription pd = Some t -> trimmed t) /\
     Forall (fun kv => trimmed kv.2) (fields pd)) /\
  (forall anchors, Forall trimmed (Content.related_terms anchors)).
Proof.
  split.
  - intros p pd. subst pd. unfold Extract.extractMetadata.
    cbn [pageTitle pageDescription fields]. split; [|split].
    + destruct (Extract.h1 p) as [x|]; intros t [= <-]. apply trim_trimmed.
    + destruct (Extract.article_p p) as [x|]; intros t [= <-].
      apply trim_trimmed.
    + apply extract_fields_trimmed.
  - intros anchors. apply List.Forall_forall. intros term Hterm.
    unfold Content.related_terms in Hterm.
    rewrite unique_first_seen in Hterm. apply first_seen_In in Hterm as [H _].
    apply in_map_iff in H as (a & <- & _). apply trim_trimmed.
Qed.

Example trim_takes_every_white_space :
  trim (bytes [9; 32; 194; 160; 226; 128; 131] ++ "M 31" ++
        bytes [227; 128; 128; 10; 13; 239; 187; 191])
    = "M 31".
Proof. reflexivity. Qed.

(** ** The resolution of a download, and the name it gives *)

Lemma digits_prefix_app w r :
  all_digits w = true -> starts_with_digit r = false ->
  digits_prefix (w ++ r) = (w, r).
Proof.
  intros Hw Hr. induction w as [|c w IH].
  - destruct r as [|d r]; [reflexivity|].
    change (digits_prefix (String d r) = ("", String d r)).
    cbn [digits_prefix]. cbn [starts_with_digit] in Hr. now rewrite Hr.
  - unfold all_digits in Hw. cbn [list_ascii_of_string forallb] in Hw.
    apply andb_true_iff in Hw as [Hc Hw].
    change (digits_prefix (String c (w ++ r)) = (String c w, r)).
    cbn [digits_prefix]. rewrite Hc, (IH Hw). reflexivity.
Qed.

Lemma digits_prefix_stops s : starts_with_digit (digits_prefix s).2 = false.
Proof.
  induction s as [|c s IH]; [reflexivity|].
  cbn [digits_prefix]. destruct (is_digit c) eqn:Hc.
  - now destruct (digits_prefix s).
  - cbn. exact Hc.
Qed.

(** No white-space character and no sign starts with a digit, and no sign
    starts like a white-space character. *)
Lemma drop_prefix_other_start p s :
  p <> "" -> starts_with_digit p = false -> starts_with_digit s = true ->
  drop_prefix p s = None.
Proof.
  destruct p as [|a p]; [congruence|]. intros _ Hp Hs.
  destruct s as [|c s]; [discriminate|]. cbn in Hp, Hs |- *.
  destruct (Ascii.eqb_spec a c) as [->|]; [congruence|reflexivity].
Qed.

Lemma white_space_starts :
  Forall (fun p => p <> "" /\ starts_with_digit p = false) white_space.
Proof. repeat constructor; discriminate. Qed.

Lemma times_sign_starts :
  Forall (fun p => p <> "" /\ starts_with_digit p = false) Extract.times_sign.
Proof. repeat constructor; discriminate. Qed.

Lemma white_at_digit s :
  starts_with_digit s = true -> drop_any white_space s = None.
Proof.
  intros Hs. apply drop_any_None.
  eapply List.Forall_impl; [|exact white_space_starts].
  intros p [Hne Hp]. now apply drop_prefix_other_start.
Qed.

Lemma starts_with_digit_app p r :
  p <> "" -> starts_with_digit (p ++ r) = starts_with_digit p.
Proof. destruct p; [congruence|reflexivity]. Qed.

Lemma white_piece_step p r :
  In p white_space -> drop_any white_space (p ++ r) = Some r.
Proof.
  unfold white_space. cbn [In].
  intros H.
  repeat (destruct H as [<-|H]; [reflexivity|]).
  destruct H.
Qed.

Lemma sign_step sign r :
  In sign Extract.times_sign ->
  drop_any Extract.times_sign (sign ++ r) = Some r /\
  drop_any white_space (sign ++ r) = None.
Proof.
  unfold Extract.times_sign. cbn [In].
  intros [<-|[<-|[]]]; split; reflexivity.
Qed.

Lemma skip_white_run sp r :
  white_run sp -> drop_any white_space r = None ->
  forall fuel, String.length sp <= fuel ->
    skip_fuel white_space fuel (sp ++ r) = r.
Proof.
  intros Hsp Hr. induction Hsp as [|p sp Hp Hsp IH]; intros fuel Hfuel.
  - destruct fuel; cbn [skip_fuel]; [reflexivity|].
    change ("" ++ r) with r. now rewrite Hr.
  - assert (Hpne : p <> "").
    { pose proof white_space_starts as Hall.
      rewrite List.Forall_forall in Hall. now apply Hall. }
    rewrite length_append in Hfuel.
    destruct fuel as [|fuel]; [destruct p; [congruence|cbn in Hfuel; lia]|].
    cbn [skip_fuel]. rewrite append_assoc, (white_piece_step _ _ Hp).
    apply IH. destruct p; [congruence|cbn in Hfuel; lia].
Qed.

Lemma skip_white_app sp r :
  white_run sp -> drop_any white_space r = None -> skip_white (sp ++ r) = r.
Proof.
  intros Hsp Hr. unfold skip_white. apply skip_white_run; auto.
  rewrite length_append. lia.
Qed.

Lemma skip_fuel_run fuel s :
  exists sp, white_run sp /\ s = sp ++ skip_fuel white_space fuel s.
Proof.
  revert s. induction fuel as [|fuel IH]; intros s;
    [exists ""; split; [constructor|reflexivity]|].
  cbn [skip_fuel].
  destruct (drop_any white_space s) as [r|] eqn:Hr;
    [|exists ""; split; [constructor|reflexivity]].
  apply drop_any_spec in Hr as (p & Hp & ->).
  destruct (IH r) as (sp & Hsp & Hr).
  exists (p ++ sp). split; [now constructor|].
  rewrite append_assoc. now rewrite <- Hr.
Qed.

Lemma resMatch_here_sound s w h :
  Extract.resMatch_here s = Some (w, h) -> resolution_at s w h.
Proof.
  unfold Extract.resMatch_here.
  destruct (digits_prefix_spec s) as [Hw Hs].
  destruct (digits_prefix s) as [w0 r1]. cbn [fst snd] in *.
  destruct w0 as [|c w0]; [discriminate|].
  destruct (drop_any Extract.times_sign (skip_white r1)) as [r2|] eqn:Hsign;
    [|discriminate].
  destruct (digits_prefix_spec (skip_white r2)) as [Hh Hs2].
  pose proof (digits_prefix_stops (skip_white r2)) as Hstop.
  destruct (digits_prefix (skip_white r2)) as [h0 rest]. cbn [fst snd] in *.
  destruct h0 as [|d h0]; [discriminate|].
  intros [= <- <-].
  apply drop_any_spec in Hsign as (sign & Hin & Hr1).
  destruct (skip_fuel_run (String.length r1) r1) as (sp1 & Hsp1 & Hsplit1).
  destruct (skip_fuel_run (String.length r2) r2) as (sp2 & Hsp2 & Hsplit2).
  fold (skip_white r1) in Hsplit1. fold (skip_white r2) in Hsplit2.
  exists sp1, sign, sp2, rest.
  split.
  { rewrite Hs at 1. f_equal. rewrite Hsplit1 at 1. f_equal.
    rewrite Hr1. f_equal. rewrite Hsplit2 at 1. f_equal. exact Hs2. }
  repeat split; auto; discriminate.
Qed.

Lemma resMatch_here_complete s w h :
  resolution_at s w h -> Extract.resMatch_here s = Some (w, h).
Proof.
  intros (sp1 & sign & sp2 & rest & -> & Hwne & Hw & Hsp1 & Hsign & Hsp2
          & Hhne & Hh & Hrest).
  destruct (sign_step sign (sp2 ++ h ++ rest) Hsign) as [Hdrop Hnowhite].
  assert (Hsignne : sign <> "" /\ starts_with_digit sign = false).
  { pose proof times_sign_starts as Hall.
    rewrite List.Forall_forall in Hall. now apply Hall. }
  assert (Hh1 : starts_with_digit (h ++ rest) = true).
  { destruct h as [|d h]; [congruence|]. cbn.
    unfold all_digits in Hh. cbn [list_ascii_of_string forallb] in Hh.
    now apply andb_true_iff in Hh as [Hd _]. }
  assert (Hafter : starts_with_digit (sp1 ++ sign ++ sp2 ++ h ++ rest)
                   = false).
  { destruct Hsp1 as [|p sp Hp Hsp].
    - change ("" ++ sign ++ sp2 ++ h ++ rest)
        with (sign ++ sp2 ++ h ++ rest).
      rewrite starts_with_digit_app; tauto.
    - pose proof white_space_starts as Hall.
      rewrite List.Forall_forall in Hall. destruct (Hall p Hp) as [Hpne Hpd].
      rewrite append_assoc, starts_with_digit_app; auto. }
  unfold Extract.resMatch_here.
  rewrite (digits_prefix_app _ _ Hw Hafter).
  destruct w as [|c w]; [congruence|].
  rewrite (skip_white_app _ _ Hsp1 Hnowhite), Hdrop.
  rewrite (skip_white_app _ _ Hsp2 (white_at_digit _ Hh1)).
  rewrite (digits_prefix_app _ _ Hh Hrest).
  destruct h as [|d h]; [congruence|reflexivity].
Qed.

Lemma resolution_at_empty w h : ~ resolution_at "" w h.
Proof.
  intros H. apply resMatch_here_complete in H. discriminate.
Qed.

Lemma resMatch_first text w h :
  Extract.resMatch text = Some (w, h) <-> first_resolution text w h.
Proof.
  revert w h. induction text as [|c t IH]; intros w h.
  - split; [discriminate|].
    intros (before & s & Hsplit & Hat & _).
    destruct before, s; try discriminate.
    now apply resolution_at_empty in Hat.
  - cbn [Extract.resMatch].
    destruct (Extract.resMatch_here (String c t)) as [[w0 h0]|] eqn:Hhere.
    + split.
      * intros [= -> ->]. exists "", (String c t).
        split; [reflexivity|]. split; [now apply resMatch_here_sound|].
        intros before' s' w' h' _ Hlen. cbn in Hlen. lia.
      * intros (before & s & Hsplit & Hat & Hmin).
        destruct before as [|c' before].
        -- change ("" ++ s) with s in Hsplit. subst s.
           apply resMatch_here_complete in Hat. congruence.
        -- exfalso. apply (Hmin "" (String c t) w0 h0);
             [reflexivity|cbn; lia|now apply resMatch_here_sound].
    + rewrite IH. split.
      * intros (before & s & -> & Hat & Hmin).
        exists (String c before), s. split; [reflexivity|].
        split; [exact Hat|].
        intros before' s' w' h' Hsplit Hlen Hat'.
        destruct before' as [|c' before'].
        -- change ("" ++ s') with s' in Hsplit. subst s'.
           apply resMatch_here_complete in Hat'. congruence.
        -- change (String c (before ++ s) = String c' (before' ++ s'))
             in Hsplit.
           injection Hsplit as _ Hsplit.
           apply (Hmin before' s' w' h' Hsplit); [cbn in Hlen; lia|exact Hat'].
      * intros (before & s & Hsplit & Hat & Hmin).
        destruct before as [|c' before].
        -- change ("" ++ s) with s in Hsplit. subst s.
           apply resMatch_here_complete in Hat. congruence.
        -- change (String c t = String c' (before ++ s)) in Hsplit.
           injection Hsplit as <- ->.
           exists before, s. split; [reflexivity|]. split; [exact Hat|].
           intros before' s' w' h' Hsplit' Hlen.
           apply (Hmin (String c before') s' w' h');
             [now rewrite Hsplit'|cbn; lia].
Qed.

Lemma resMatch_none text :
  Extract.resMatch text = None <-> no_resolution text.
Proof.
  induction text as [|c t IH].
  - split; [|reflexivity]. intros _ before s w h Hsplit Hat.
    destruct before, s; try discriminate.
    now apply resolution_at_empty in Hat.
  - cbn [Extract.resMatch].
    destruct (Extract.resMatch_here (String c t)) as [[w0 h0]|] eqn:Hhere.
    + split; [discriminate|]. intros Hno. exfalso.
      apply (Hno "" (String c t) w0 h0); [reflexivity|].
      now apply resMatch_here_sound.
    + rewrite IH. split.
      * intros Hno before s w h Hsplit Hat.
        destruct before as [|c' before].
        -- change ("" ++ s) with s in Hsplit. subst s.
           apply resMatch_here_complete in Hat. congruence.
        -- change (String c t = String c' (before ++ s)) in Hsplit.
           injection Hsplit as _ ->. now apply (Hno before s w h).
      * intros Hno before s w h -> Hat.
        now apply (Hno (String c before) s w h).
Qed.

Lemma prefix_spec p s :
  String.prefix p s = true <-> exists rest, s = p ++ rest.
Proof.
  revert s. induction p as [|a p IH]; intros s.
  - split; [eauto|]. intros _. now destruct s.
  - destruct s as [|b s]; cbn [String.prefix].
    + split; [discriminate|]. intros [rest [=]].
    + destruct (ascii_dec a b) as [->|Hne].
      * rewrite IH. split; intros [rest Hr].
        -- exists rest. now rewrite Hr.
        -- change (String b s = String b (p ++ rest)) in Hr.
           injection Hr as ->. eauto.
      * split; [discriminate|]. intros [rest Hr].
        change (String b s = String a (p ++ rest)) in Hr. congruence.
Qed.

Lemma includes_spec s pattern :
  includes s pattern = true <-> exists a b, s = a ++ pattern ++ b.
Proof.
  induction s as [|c s IH].
  - cbn [includes]. split.
    + destruct (String.prefix pattern "") eqn:Hp; [|discriminate].
      intros _. apply prefix_spec in Hp as [rest Hr]. exists "", rest. exact Hr.
    + intros (a & b & Hs). destruct a; [|discriminate].
      change ("" = pattern ++ b) in Hs.
      assert (Hp : String.prefix pattern "" = true)
        by (apply prefix_spec; eauto).
      now rewrite Hp.
  - cbn [includes].
    destruct (String.prefix pattern (String c s)) eqn:Hp.
    + split; [|reflexivity]. intros _.
      apply prefix_spec in Hp as [rest Hr]. exists "", rest. exact Hr.
    + rewrite IH. split.
      * intros (a & b & ->). exists (String c a), b. reflexivity.
      * intros (a & b & Hs). destruct a as [|c' a].
        -- change (String c s = pattern ++ b) in Hs.
           assert (String.prefix pattern (String c s) = true)
             by (apply prefix_spec; eauto).
           congruence.
        -- change (String c s = String c' (a ++ pattern ++ b)) in Hs.
           injection Hs as _ ->. eauto.
Qed.

(** X13.  The name an extracted download ends up with, read off the text
    of its list item.  The item is a pdf exactly when its text, in lower
    case, holds "pdf", and is then stored as [image.pdf].  Its resolution is
    taken from the first place of the text where digits, white space if
    any, a lower-case x or a multiplication sign, white space if any, and
    digits follow one another: it is recorded as the first digits, [x], and
    the second digits, and when the item is not a pdf the thresholds on the
    first digits name it.  A text with no such place has no resolution, and
    an item that is not a pdf then gets the generic numbered name.  One of
    the two is always the case. *)
Theorem extracted_download_name item asset count :
  Extract.describe item = Some asset ->
  let text := Extract.textContent item in
  (type asset = pdf <-> exists a b, toLowerCase text = a ++ "pdf" ++ b) /\
  ((exists width height, first_resolution text width height) \/
   no_resolution text) /\
  (forall width height,
     first_resolution text width height ->
     resolution asset = Some (width ++ "x" ++ height) /\
     (type asset = jpg ->
      asset_filename asset count = name_for_width (decimal_value width))) /\
  (no_resolution text ->
   resolution asset = None /\
   (type asset = jpg ->
    asset_filename asset count = "image_" ++ ofNat count ++ ".jpg")) /\
  (type asset = pdf -> asset_filename asset count = "image.pdf").
Proof.
  intros Hitem text. unfold Extract.describe in Hitem.
  destruct (Extract.link_href item) as [[|c r]|]; try discriminate.
  injection Hitem as <-. fold text. cbn [type resolution].
  split; [|split; [|split; [|split]]].
  - rewrite <- includes_spec.
    destruct (includes (toLowerCase text) "pdf"); split; congruence.
  - destruct (Extract.resMatch text) as [[w h]|] eqn:Hres.
    + left. exists w, h. now apply resMatch_first.
    + right. now apply resMatch_none.
  - intros w h Hfirst. apply resMatch_first in Hfirst. rewrite Hfirst.
    split; [reflexivity|].
    destruct (includes (toLowerCase text) "pdf"); [discriminate|]. intros _.
    apply resMatch_spec in Hfirst as ([Hne Hall] & _).
    now apply asset_filename_width.
  - intros Hno. apply resMatch_none in Hno. rewrite Hno.
    split; [reflexivity|].
    destruct (includes (toLowerCase text) "pdf"); [discriminate|]. reflexivity.
  - destruct (includes (toLowerCase text) "pdf"); [reflexivity|discriminate].
Qed.

Lemma extracted_download_name_witness :
  asset_filename
    {| url := "https://example.org/full.jpg"; type := jpg;
       size := Some "2.5 MB"; resolution := Some "3000x2400" |} 4
    = "full.jpg".
Proof.
  destruct (extracted_download_name
              {| Extract.link_href := Some "https://example.org/full.jpg";
                 Extract.textContent :=
                   "Full Res, 3000 x 2400, jpg (2.5 MB)" |}
              _ 4 eq_refl) as (_ & _ & Hfirst & _).
  destruct (Hfirst "3000" "2400") as [_ Hname].
  - apply resMatch_first. reflexivity.
  - apply Hname. reflexivity.
Defined.

(** The first match is the one that counts, and an upper-case X is no
    sign. *)
Example first_resolution_counts :
  Extract.resMatch "12 34x5 and 600 x 400" = Some ("34", "5") /\
  Extract.resMatch "Full Res, 4096 X 4096 (3 MB)" = None.
Proof. split; reflexivity. Qed.

